(** * ElectroPlateSim: the simulation state machine of the electroplating lab

    A shallow embedding of the simulation core of [client/src/main.tsx]
    (component [ElectroplatingGame]): the path geometry ([getPointOnPath],
    [getProgressFromDrag]), the particle registry and its handlers
    ([spawnIon], [handleIonDragEnd], [handleElectronDrag],
    [handleElectronDragEnd]), the pairing effect and the reservoir ledger;
    then of what the component shows of it ([getRingColor],
    [getPlatingGradient], the atomic view, [getCurrentDotPosition]) and of
    the page around it (the tutorial, the interval of the current dot, the
    pointer on the electrons).

    Numbers.  A JavaScript number is an IEEE-754 binary64 value: coordinates
    and progress are primitive floats, with the operators of the source ([+],
    [*], [<=], [Math.sqrt], ...) as the corresponding float operations, and
    [x ** 2] as [x * x].  The integer-valued numbers of the ledger (masses,
    counters, [Date.now()]) are in [Z]: they start at 50, 25 and 0, move in
    steps of 5 and 1, and stay far inside the range where binary64 is exact.

    React state.  Each [useState] cell of the component is a field of
    [State]; a handler is a function from the state it closes over to the
    state after its updates, together with the sounds and toasts it emitted.
    The handlers of clicks and releases run on a rendered state; the handler
    of the pointer moving over the [svg] can run several times before the
    next render, so it takes the state of its render and the state its
    updater is applied to.
    What a handler reads from its environment (the pointer position, bounding
    rectangles, [Date.now()]) is an argument.  A handler that can throw
    returns an [option].  The presentation cells (the tutorial, the current
    dot, [draggingElectronId]) are the fields of [View], which wraps the
    simulation state; the [language] cell only selects the texts. *)

From Stdlib Require Import ZArith List Bool String Ascii Floats Lia DecimalString.
Import ListNotations.

Set Warnings "-inexact-float".

(** ** JavaScript primitives used by the source *)

Module JS.

Open Scope float_scope.

(** The number [z], for an integer [|z| < 2^53] (exact). *)
Definition of_Z (z : Z) : float :=
  if (z <? 0)%Z then - PrimFloat.of_uint63 (Uint63.of_Z (- z))
  else PrimFloat.of_uint63 (Uint63.of_Z z).

(** [Math.floor]: NaN, the infinities and the zeros are returned as they
    are; a finite [v = ±m·2^e] is an integer already when [0 <= e], and is
    rounded towards minus infinity otherwise. *)
Definition Math_floor (v : float) : float :=
  match Prim2SF v with
  | S754_finite s m e =>
      if (0 <=? e)%Z then v
      else of_Z ((if s then Z.neg m else Z.pos m) / 2 ^ (- e))
  | _ => v
  end.

(** [Math.max] and [Math.min]: NaN when an argument is NaN, and [-0] is
    below [+0]. *)
Definition Math_max (a b : float) : float :=
  if is_nan a || is_nan b then nan
  else if a <? b then b
  else if b <? a then a
  else if get_sign a then b else a.

Definition Math_min (a b : float) : float :=
  if is_nan a || is_nan b then nan
  else if a <? b then a
  else if b <? a then b
  else if get_sign a then a else b.

(** [v || 0] for an optional number: [undefined], NaN and the zeros are
    falsy. *)
Definition or_zero (v : option float) : float :=
  match v with
  | None => 0
  | Some n => if is_nan n || is_zero n then 0 else n
  end.

(** [l.length] as a number. *)
Definition length {A} (l : list A) : float := of_Z (Z.of_nat (List.length l)).

(** [l[i]] for a number [i]: the element when [i] is a non-negative integer
    below the length, [undefined] ([None]) otherwise. *)
Definition index {A} (l : list A) (i : float) : option A :=
  match Prim2SF i with
  | S754_zero _ => nth_error l 0
  | S754_finite false m e =>
      if (0 <=? e)%Z then nth_error l (Z.to_nat (Z.pos m * 2 ^ e))
      else if (Z.pos m mod 2 ^ (- e) =? 0)%Z
           then nth_error l (Z.to_nat (Z.pos m / 2 ^ (- e)))
           else None
  | _ => None
  end.

(** A template literal [`${n}`] of an integer number. *)
Definition toString (n : Z) : string := NilZero.string_of_int (Z.to_int n).

(** [Math.round]: the nearest integer, a tie going to the one towards plus
    infinity; [-0] for a value in [[-0.5, 0)]. *)
Definition Math_round (v : float) : float :=
  match Prim2SF v with
  | S754_finite s m e =>
      if (0 <=? e)%Z then v
      else
        let z := ((2 * (if s then Z.neg m else Z.pos m) + 2 ^ (- e)) / (2 * 2 ^ (- e)))%Z in
        if (z =? 0)%Z && s then (- 0) else of_Z z
  | _ => v
  end.

(** [Math.ceil]: rounded towards plus infinity; [-0] for a value in
    [(-1, 0)]. *)
Definition Math_ceil (v : float) : float :=
  match Prim2SF v with
  | S754_finite s m e =>
      if (0 <=? e)%Z then v
      else
        let z := (- ((- (if s then Z.neg m else Z.pos m)) / 2 ^ (- e)))%Z in
        if (z =? 0)%Z && s then (- 0) else of_Z z
  | _ => v
  end.

(** The truth value of a [string | null]: [null] and the empty string are
    falsy. *)
Definition truthy (v : option string) : option string :=
  match v with
  | Some EmptyString => None
  | _ => v
  end.

End JS.

(** ** Data model *)

Module Point.
Record t : Type := mk { x : float; y : float }.
Definition origin : t := mk 0 0.
End Point.

(** [getBoundingClientRect()] of an element. *)
Module DOMRect.
Record t : Type := mk { left : float; top : float; width : float; height : float }.
Definition right (r : t) : float := (left r + width r)%float.
Definition bottom (r : t) : float := (top r + height r)%float.
End DOMRect.

Inductive ParticleType : Type := ion | anode_electron | cathode_electron.
Inductive ElectronSegment : Type := anode_wire | cathode_wire.
Inductive Status : Type := active | waiting | plated.

Record Particle : Type := mkParticle {
  id : string;
  type : ParticleType;
  x : float;
  y : float;
  status : Status;
  segment : option ElectronSegment;
  progress : option float
}.

Definition ANODE_START_MASS : Z := 50.
Definition CATHODE_START_MASS : Z := 25.
Definition MASS_PER_UNIT : Z := 5.
Definition TOTAL_PLATING_GOAL : Z := 6.

(** [a === b] on statuses, and [segment === 'anode_wire'] and the like on
    the optional [segment] field. *)
Definition Status_eqb (a b : Status) : bool :=
  match a, b with
  | active, active | waiting, waiting | plated, plated => true
  | _, _ => false
  end.

Definition Segment_eqb (a : option ElectronSegment) (b : ElectronSegment) : bool :=
  match a, b with
  | Some anode_wire, anode_wire | Some cathode_wire, cathode_wire => true
  | _, _ => false
  end.

(** ** Path geometry *)

Local Open Scope float_scope.

(** [getPointOnPath(points, progress)].  [None] stands for a result that
    is [undefined] ([points[0]] of an empty array) or for the [TypeError]
    of reading [.x] of an undefined waypoint. *)
Definition getPointOnPath (points : list Point.t) (progress : float) : option Point.t :=
  if progress <=? 0 then JS.index points 0
  else if 1 <=? progress then JS.index points (JS.length points - 1)
  else
    let totalSegments := JS.length points - 1 in
    let segmentProgress := progress * totalSegments in
    let segmentIndex := JS.Math_floor segmentProgress in
    let localProgress := segmentProgress - segmentIndex in
    match JS.index points (JS.Math_min segmentIndex (JS.length points - 1)),
          JS.index points (JS.Math_min (segmentIndex + 1) (JS.length points - 1)) with
    | Some startPoint, Some endPoint =>
        Some (Point.mk
                (Point.x startPoint + (Point.x endPoint - Point.x startPoint) * localProgress)
                (Point.y startPoint + (Point.y endPoint - Point.y startPoint) * localProgress))
    | _, _ => None
    end.

(** The values taken by [p] in [for (let p = 0; p <= 1; p += 0.01)]; the
    body of the loop never assigns [p]. *)
Fixpoint for_values (fuel : nat) (p : float) : list float :=
  match fuel with
  | O => []
  | S fuel' => if p <=? 1 then p :: for_values fuel' (p + 0.01) else []
  end.

Definition drag_samples : list float := for_values 128 0.

(** [Math.sqrt((point.x - dragX) ** 2 + (point.y - dragY) ** 2)]. *)
Definition distance (point : Point.t) (dragX dragY : float) : float :=
  sqrt ((Point.x point - dragX) * (Point.x point - dragX)
        + (Point.y point - dragY) * (Point.y point - dragY)).

(** One turn of the loop body on the pair [(minDist, bestProgress)]. *)
Definition scan_step (points : list Point.t) (dragX dragY : float)
    (acc : option (float * float)) (p : float) : option (float * float) :=
  match acc with
  | None => None
  | Some (minDist, bestProgress) =>
      match getPointOnPath points p with
      | None => None
      | Some point =>
          let dist := distance point dragX dragY in
          if dist <? minDist then Some (dist, p) else Some (minDist, bestProgress)
      end
  end.

(** [getProgressFromDrag(points, dragX, dragY, currentProgress)]; [None]
    when a sampled waypoint is undefined (a [TypeError] in the source). *)
Definition getProgressFromDrag (points : list Point.t) (dragX dragY currentProgress : float)
    : option float :=
  match fold_left (scan_step points dragX dragY) drag_samples
                  (Some (infinity, currentProgress)) with
  | Some (_, bestProgress) => Some (JS.Math_max currentProgress bestProgress)
  | None => None
  end.

(** ** Feedback dispatch

    The sounds of [useSoundEffects] and the toasts, by the key of their
    title in [translations]. *)

Inductive Sound : Type :=
  playSuccess | playError | playPlating | playWin | playConnect | playPop.

Inductive ToastTitle : Type :=
  circuitOpen | anodeDepleted | tooManyParticles | stayInSolution | waitForElectron
  | electronAtBattery | platingSuccessful | anodeConnected | cathodeConnected.

Inductive Feedback : Type :=
| sound (s : Sound)
| toast (t : ToastTitle).

(** ** Simulation state *)

Record State : Type := mkState {
  anodeMass : Z;
  cathodeMass : Z;
  ions : list Particle;
  electrons : list Particle;
  platedCount : Z;
  showSuccess : bool;
  isAnodeConnected : bool;
  isCathodeConnected : bool;
  ionResetKey : Z;
  anodeWirePoints : list Point.t;
  cathodeWirePoints : list Point.t
}.

(** The state of the first render. *)
Definition initialState : State :=
  mkState ANODE_START_MASS CATHODE_START_MASS [] [] 0 false false false 0 [] [].

(** The [useState] setters, applied to an updater function. *)
Definition setAnodeMass (f : Z -> Z) (s : State) : State :=
  mkState (f (anodeMass s)) (cathodeMass s) (ions s) (electrons s) (platedCount s)
    (showSuccess s) (isAnodeConnected s) (isCathodeConnected s) (ionResetKey s)
    (anodeWirePoints s) (cathodeWirePoints s).

Definition setCathodeMass (f : Z -> Z) (s : State) : State :=
  mkState (anodeMass s) (f (cathodeMass s)) (ions s) (electrons s) (platedCount s)
    (showSuccess s) (isAnodeConnected s) (isCathodeConnected s) (ionResetKey s)
    (anodeWirePoints s) (cathodeWirePoints s).

Definition setIons (f : list Particle -> list Particle) (s : State) : State :=
  mkState (anodeMass s) (cathodeMass s) (f (ions s)) (electrons s) (platedCount s)
    (showSuccess s) (isAnodeConnected s) (isCathodeConnected s) (ionResetKey s)
    (anodeWirePoints s) (cathodeWirePoints s).

Definition setElectrons (f : list Particle -> list Particle) (s : State) : State :=
  mkState (anodeMass s) (cathodeMass s) (ions s) (f (electrons s)) (platedCount s)
    (showSuccess s) (isAnodeConnected s) (isCathodeConnected s) (ionResetKey s)
    (anodeWirePoints s) (cathodeWirePoints s).

Definition setPlatedCount (f : Z -> Z) (s : State) : State :=
  mkState (anodeMass s) (cathodeMass s) (ions s) (electrons s) (f (platedCount s))
    (showSuccess s) (isAnodeConnected s) (isCathodeConnected s) (ionResetKey s)
    (anodeWirePoints s) (cathodeWirePoints s).

Definition setShowSuccess (b : bool) (s : State) : State :=
  mkState (anodeMass s) (cathodeMass s) (ions s) (electrons s) (platedCount s)
    b (isAnodeConnected s) (isCathodeConnected s) (ionResetKey s)
    (anodeWirePoints s) (cathodeWirePoints s).

Definition setIsAnodeConnected (b : bool) (s : State) : State :=
  mkState (anodeMass s) (cathodeMass s) (ions s) (electrons s) (platedCount s)
    (showSuccess s) b (isCathodeConnected s) (ionResetKey s)
    (anodeWirePoints s) (cathodeWirePoints s).

Definition setIsCathodeConnected (b : bool) (s : State) : State :=
  mkState (anodeMass s) (cathodeMass s) (ions s) (electrons s) (platedCount s)
    (showSuccess s) (isAnodeConnected s) b (ionResetKey s)
    (anodeWirePoints s) (cathodeWirePoints s).

Definition setIonResetKey (f : Z -> Z) (s : State) : State :=
  mkState (anodeMass s) (cathodeMass s) (ions s) (electrons s) (platedCount s)
    (showSuccess s) (isAnodeConnected s) (isCathodeConnected s) (f (ionResetKey s))
    (anodeWirePoints s) (cathodeWirePoints s).

Definition setAnodeWirePoints (l : list Point.t) (s : State) : State :=
  mkState (anodeMass s) (cathodeMass s) (ions s) (electrons s) (platedCount s)
    (showSuccess s) (isAnodeConnected s) (isCathodeConnected s) (ionResetKey s)
    l (cathodeWirePoints s).

Definition setCathodeWirePoints (l : list Point.t) (s : State) : State :=
  mkState (anodeMass s) (cathodeMass s) (ions s) (electrons s) (platedCount s)
    (showSuccess s) (isAnodeConnected s) (isCathodeConnected s) (ionResetKey s)
    (anodeWirePoints s) l.

(** Object spreads of the handlers: [{ ...p, status: 'waiting' }],
    [{ ...e, status: 'waiting', progress: 1 }] and
    [{ ...electron, x, y, progress }]. *)
Definition with_status (st : Status) (p : Particle) : Particle :=
  mkParticle (id p) (type p) (x p) (y p) st (segment p) (progress p).

Definition with_status_progress (st : Status) (pr : float) (p : Particle) : Particle :=
  mkParticle (id p) (type p) (x p) (y p) st (segment p) (Some pr).

Definition with_position_progress (pos : Point.t) (pr : float) (p : Particle) : Particle :=
  mkParticle (id p) (type p) (Point.x pos) (Point.y pos) (status p) (segment p) (Some pr).

(** [ids.includes(i)]. *)
Definition includes (ids : list string) (i : string) : bool :=
  existsb (String.eqb i) ids.

(** [l.map(f)] for a callback that may throw. *)
Fixpoint map_throwing {A B} (f : A -> option B) (l : list A) : option (list B) :=
  match l with
  | [] => Some []
  | a :: l' =>
      match f a with
      | None => None
      | Some b =>
          match map_throwing f l' with
          | None => None
          | Some bs => Some (b :: bs)
          end
      end
  end.

Definition isActive (p : Particle) : bool := Status_eqb (status p) active.
Definition isWaiting (p : Particle) : bool := Status_eqb (status p) waiting.

(** ** Handlers *)

(** [points.length > 0 ? points[0] : { x: 0, y: 0 }]. *)
Definition startPoint (points : list Point.t) : Point.t :=
  match points with
  | p :: _ => p
  | [] => Point.origin
  end.

(** The particles that [spawnIon] makes. *)
Definition newIon (now : Z) : Particle :=
  mkParticle ("ion-" ++ JS.toString now) ion 0 0 active None None.

Definition newAnodeElectron (now : Z) (s : State) : Particle :=
  mkParticle ("ae-" ++ JS.toString now) anode_electron
    (Point.x (startPoint (anodeWirePoints s))) (Point.y (startPoint (anodeWirePoints s)))
    active (Some anode_wire) (Some 0).

(** [spawnIon], the click handler of the anode.  The two template literals
    call [Date.now()] once each. *)
Definition spawnIon (now_ion now_electron : Z) (s : State) : State * list Feedback :=
  if negb (isAnodeConnected s) || negb (isCathodeConnected s) then
    (s, [sound playError; toast circuitOpen])
  else if (anodeMass s <=? 10)%Z then
    (s, [sound playError; toast anodeDepleted])
  else
    let activeParticles :=
      (List.length (filter isActive (ions s)) + List.length (filter isActive (electrons s)))%nat in
    if (5 <=? activeParticles)%nat then
      (s, [sound playError; toast tooManyParticles])
    else
      (setAnodeMass (fun prev => (prev - MASS_PER_UNIT)%Z)
         (setElectrons (fun prev => prev ++ [newAnodeElectron now_electron s])
            (setIons (fun prev => prev ++ [newIon now_ion]) s)),
       [sound playPop]).

(** The object returned by [getElectrolyteBounds]. *)
Module Bounds.
Record t : Type := mk { left : float; right : float; top : float; bottom : float }.
End Bounds.

Definition getElectrolyteBounds (beaker : option DOMRect.t) : option Bounds.t :=
  match beaker with
  | None => None
  | Some beaker =>
      Some (Bounds.mk (DOMRect.left beaker + 20) (DOMRect.right beaker - 20)
                      (DOMRect.top beaker + 60) (DOMRect.bottom beaker - 20))
  end.

(** The two tests of [handleIonDragEnd] on the drop point. *)
Definition outsideBounds (electrolyteBounds : option Bounds.t) (dropPoint : Point.t) : bool :=
  match electrolyteBounds with
  | None => false
  | Some b =>
      (Point.x dropPoint <? Bounds.left b) || (Bounds.right b <? Point.x dropPoint)
      || (Point.y dropPoint <? Bounds.top b) || (Bounds.bottom b <? Point.y dropPoint)
  end.

Definition insideRect (rect : option DOMRect.t) (dropPoint : Point.t) : bool :=
  match rect with
  | None => false
  | Some r =>
      (DOMRect.left r <=? Point.x dropPoint) && (Point.x dropPoint <=? DOMRect.right r)
      && (DOMRect.top r <=? Point.y dropPoint) && (Point.y dropPoint <=? DOMRect.bottom r)
  end.

(** [handleIonDragEnd(id, info)]; [cathodeRect] and [beaker] are the
    bounding rectangles read from [cathodeRef] and [beakerRef], [None] when
    the ref is not mounted. *)
Definition handleIonDragEnd (i : string) (dropPoint : Point.t)
    (cathodeRect beaker : option DOMRect.t) (s : State) : State * list Feedback :=
  let electrolyteBounds := getElectrolyteBounds beaker in
  let hasWaitingElectron := existsb isWaiting (electrons s) in
  if outsideBounds electrolyteBounds dropPoint then
    (setIonResetKey (fun prev => (prev + 1)%Z) s, [sound playError; toast stayInSolution])
  else if insideRect cathodeRect dropPoint && hasWaitingElectron then
    (setIons (map (fun p => if (id p =? i)%string then with_status waiting p else p)) s,
     [sound playSuccess])
  else if insideRect cathodeRect dropPoint && negb hasWaitingElectron then
    (s, [sound playError; toast waitForElectron])
  else (s, []).

(** The wire an electron is bound to:
    [electron.segment === 'anode_wire' ? anodeWirePoints : cathodeWirePoints]. *)
Definition wireOf (electron : Particle) (s : State) : list Point.t :=
  if Segment_eqb (segment electron) anode_wire then anodeWirePoints s else cathodeWirePoints s.

(** The callback that [handleElectronDrag] maps over the electrons; [None]
    when it throws. *)
Definition dragElectron (i : string) (svgX svgY : float) (s : State) (electron : Particle)
    : option Particle :=
  if negb (id electron =? i)%string then Some electron
  else
    let points := wireOf electron s in
    if (List.length points =? 0)%nat then Some electron
    else
      match getProgressFromDrag points svgX svgY (JS.or_zero (progress electron)) with
      | None => None
      | Some newProgress =>
          match getPointOnPath points newProgress with
          | None => None
          | Some newPos => Some (with_position_progress newPos newProgress electron)
          end
      end.

(** [handleElectronDrag(id, info)]; [svgRect] is the bounding rectangle of
    [svgRef], [None] when the ref is not mounted.  The result is [None] when
    the updater throws. *)
Definition handleElectronDrag (i : string) (point : Point.t) (svgRect : option DOMRect.t)
    (s : State) : option State :=
  match svgRect with
  | None => Some s
  | Some svgRect =>
      let svgX := (Point.x point - DOMRect.left svgRect) * (1000 / DOMRect.width svgRect) in
      let svgY := (Point.y point - DOMRect.top svgRect) * (600 / DOMRect.height svgRect) in
      match map_throwing (dragElectron i svgX svgY s) (electrons s) with
      | None => None
      | Some moved => Some (setElectrons (fun _ => moved) s)
      end
  end.

(** The [onMouseMove] and [onTouchMove] handlers of the [svg] element, for a
    non-null [draggingElectronId]; [client] is the pointer position and
    [currentSvg] the bounding rectangle of the [svg].  The handler belongs to
    a render: it reads [electrons] and the wire points of the state
    [rendered] of that render, computes the new progress and the new
    position from them, and then calls [setElectrons] with an updater, which
    is applied to the electrons of the state [prev] of the moment.  The two
    states differ when another pointer event has been handled since the
    render. *)
Definition svgPointerMove (draggingElectronId : string) (client : Point.t)
    (currentSvg : DOMRect.t) (rendered prev : State) : option State :=
  let svgX := (Point.x client - DOMRect.left currentSvg) * (1000 / DOMRect.width currentSvg) in
  let svgY := (Point.y client - DOMRect.top currentSvg) * (600 / DOMRect.height currentSvg) in
  match find (fun el => (id el =? draggingElectronId)%string) (electrons rendered) with
  | None => Some prev
  | Some electron =>
      let points := wireOf electron rendered in
      if (0 <? List.length points)%nat then
        match getProgressFromDrag points svgX svgY (JS.or_zero (progress electron)) with
        | None => None
        | Some newProgress =>
            match getPointOnPath points newProgress with
            | None => None
            | Some newPos =>
                Some (setElectrons
                        (map (fun el => if (id el =? draggingElectronId)%string
                                        then with_position_progress newPos newProgress el
                                        else el)) prev)
            end
        end
      else Some prev
  end.

(** The pointer events that are handled before the next render, in their
    order, each with its pointer position and the rectangle of the [svg]:
    every one of them runs the handler of the same render. *)
Fixpoint svgPointerMoves (draggingElectronId : string) (moves : list (Point.t * DOMRect.t))
    (rendered prev : State) : option State :=
  match moves with
  | [] => Some prev
  | (client, currentSvg) :: moves' =>
      match svgPointerMove draggingElectronId client currentSvg rendered prev with
      | None => None
      | Some s1 => svgPointerMoves draggingElectronId moves' rendered s1
      end
  end.

(** The electron that the hand-off at the battery makes. *)
Definition newCathodeElectron (now : Z) (s : State) : Particle :=
  mkParticle ("ce-" ++ JS.toString now) cathode_electron
    (Point.x (startPoint (cathodeWirePoints s))) (Point.y (startPoint (cathodeWirePoints s)))
    active (Some cathode_wire) (Some 0).

(** [handleElectronDragEnd(id)]; [now] is the value of [Date.now()] read by
    the hand-off branch. *)
Definition handleElectronDragEnd (i : string) (now : Z) (s : State) : State * list Feedback :=
  match find (fun e => (id e =? i)%string) (electrons s) with
  | None => (s, [])
  | Some electron =>
      if Segment_eqb (segment electron) anode_wire && (0.95 <=? JS.or_zero (progress electron)) then
        (setElectrons
           (fun prev => filter (fun e => negb (id e =? i)%string) prev
                        ++ [newCathodeElectron now s]) s,
         [sound playSuccess; toast electronAtBattery])
      else if Segment_eqb (segment electron) cathode_wire
              && (0.95 <=? JS.or_zero (progress electron)) then
        (setElectrons
           (map (fun e => if (id e =? i)%string then with_status_progress waiting 1 e else e)) s,
         [sound playSuccess])
      else (s, [])
  end.

(** The pairing effect ([useEffect] on [ions] and [electrons]): the four
    state updates are one batch. *)
Definition pairingEffect (s : State) : State * list Feedback :=
  let waitingIons := filter isWaiting (ions s) in
  let waitingElectrons := filter isWaiting (electrons s) in
  if (0 <? List.length waitingIons)%nat && (0 <? List.length waitingElectrons)%nat then
    let pairs := Nat.min (List.length waitingIons) (List.length waitingElectrons) in
    if (0 <? pairs)%nat then
      let usedIonIds := map id (firstn pairs waitingIons) in
      let usedElectronIds := map id (firstn pairs waitingElectrons) in
      let newCount := (platedCount s + Z.of_nat pairs)%Z in
      let goalReached := (TOTAL_PLATING_GOAL <=? newCount)%Z in
      let s1 := setIons (filter (fun p => negb (includes usedIonIds (id p)))) s in
      let s2 := setElectrons (filter (fun p => negb (includes usedElectronIds (id p)))) s1 in
      let s3 := setCathodeMass (fun prev => (prev + MASS_PER_UNIT * Z.of_nat pairs)%Z) s2 in
      let s4 := setPlatedCount (fun _ => newCount) s3 in
      let s5 := if goalReached then setShowSuccess true s4 else s4 in
      (s5, [sound playPlating] ++ (if goalReached then [sound playWin] else [])
           ++ [toast platingSuccessful])
    else (s, [])
  else (s, []).

(** [resetGame]. *)
Definition resetGame (s : State) : State :=
  mkState ANODE_START_MASS CATHODE_START_MASS [] [] 0 false false false
    (ionResetKey s) (anodeWirePoints s) (cathodeWirePoints s).

(** The [onDragEnd] handlers of the two wire handles: the handle is dropped
    within 50 pixels of the electrode. *)
Definition nearRect (rect : option DOMRect.t) (point : Point.t) : bool :=
  match rect with
  | None => false
  | Some r =>
      (DOMRect.left r - 50 <=? Point.x point) && (Point.x point <=? DOMRect.right r + 50)
      && (DOMRect.top r - 50 <=? Point.y point) && (Point.y point <=? DOMRect.bottom r + 50)
  end.

Definition anodeWireDragEnd (point : Point.t) (anodeRect : option DOMRect.t) (s : State)
    : State * list Feedback :=
  if nearRect anodeRect point
  then (setIsAnodeConnected true s, [sound playConnect; toast anodeConnected])
  else (s, []).

Definition cathodeWireDragEnd (point : Point.t) (cathodeRect : option DOMRect.t) (s : State)
    : State * list Feedback :=
  if nearRect cathodeRect point
  then (setIsCathodeConnected true s, [sound playConnect; toast cathodeConnected])
  else (s, []).

(** The positions that [calculateWirePoints] reads off the page, already in
    the coordinates of the [svg] view box. *)
Module Anchors.
Record t : Type := mk { plusPos : Point.t; minusPos : Point.t;
                        anodeConnPos : Point.t; cathodeConnPos : Point.t }.
End Anchors.

(** [calculateWirePoints]; [None] when one of the refs is not mounted. *)
Definition calculateWirePoints (anchors : option Anchors.t) (s : State) : State :=
  match anchors with
  | None => s
  | Some a =>
      let topY := JS.Math_min (Point.y (Anchors.plusPos a)) (Point.y (Anchors.minusPos a)) - 40 in
      setCathodeWirePoints
        [ Point.mk (Point.x (Anchors.minusPos a)) topY;
          Point.mk (Point.x (Anchors.cathodeConnPos a)) topY;
          Point.mk (Point.x (Anchors.cathodeConnPos a)) (Point.y (Anchors.cathodeConnPos a)) ]
        (setAnodeWirePoints
           [ Point.mk (Point.x (Anchors.anodeConnPos a)) (Point.y (Anchors.anodeConnPos a));
             Point.mk (Point.x (Anchors.anodeConnPos a)) topY;
             Point.mk (Point.x (Anchors.plusPos a)) topY ] s)
  end.

(** ** Events and runs

    One input event of the page with what it reads from its environment
    (pointer position, bounding rectangles, the clock).  [SvgPointerMove] is
    one pointer event on the [svg], [SvgPointerMoves] a burst of them that is
    handled before the component renders again. *)
Inductive Event : Type :=
| AnodeWireDragEnd (point : Point.t) (anodeRect : option DOMRect.t)
| CathodeWireDragEnd (point : Point.t) (cathodeRect : option DOMRect.t)
| CalculateWirePoints (anchors : option Anchors.t)
| SpawnIon (now_ion now_electron : Z)
| IonDragEnd (i : string) (dropPoint : Point.t) (cathodeRect beaker : option DOMRect.t)
| ElectronDrag (i : string) (point : Point.t) (svgRect : option DOMRect.t)
| SvgPointerMove (draggingElectronId : string) (client : Point.t) (currentSvg : DOMRect.t)
| ElectronDragEnd (i : string) (now : Z)
| SuccessDialogOpenChange (open : bool)
| ResetGame
| SvgPointerMoves (draggingElectronId : string) (moves : list (Point.t * DOMRect.t)).

(** The handler of an event, on the state [s] that was rendered last: the
    handler is the one of that render, and its updaters are applied to [s];
    in a burst of pointer events only the first finds no update pending.
    [None] when a handler throws. *)
Definition handle (ev : Event) (s : State) : option (State * list Feedback) :=
  match ev with
  | AnodeWireDragEnd point anodeRect => Some (anodeWireDragEnd point anodeRect s)
  | CathodeWireDragEnd point cathodeRect => Some (cathodeWireDragEnd point cathodeRect s)
  | CalculateWirePoints anchors => Some (calculateWirePoints anchors s, [])
  | SpawnIon now_ion now_electron => Some (spawnIon now_ion now_electron s)
  | IonDragEnd i dropPoint cathodeRect beaker =>
      Some (handleIonDragEnd i dropPoint cathodeRect beaker s)
  | ElectronDrag i point svgRect =>
      option_map (fun s' => (s', [])) (handleElectronDrag i point svgRect s)
  | SvgPointerMove i client currentSvg =>
      option_map (fun s' => (s', [])) (svgPointerMove i client currentSvg s s)
  | ElectronDragEnd i now => Some (handleElectronDragEnd i now s)
  | SuccessDialogOpenChange open => Some (setShowSuccess open s, [])
  | ResetGame => Some (resetGame s, [])
  | SvgPointerMoves i moves =>
      option_map (fun s' => (s', [])) (svgPointerMoves i moves s s)
  end.

(** An event is handled, the component renders, and the pairing effect runs
    on the rendered state. *)
Definition step (ev : Event) (s : State) : option (State * list Feedback) :=
  match handle ev s with
  | None => None
  | Some (s1, out1) =>
      let (s2, out2) := pairingEffect s1 in
      Some (s2, out1 ++ out2)
  end.

Fixpoint run (evs : list Event) (s : State) : option (State * list Feedback) :=
  match evs with
  | [] => Some (s, [])
  | ev :: evs' =>
      match step ev s with
      | None => None
      | Some (s1, out1) =>
          match run evs' s1 with
          | None => None
          | Some (s2, out2) => Some (s2, out1 ++ out2)
          end
      end
  end.

Inductive reachable : State -> Prop :=
| reachable_initial : reachable initialState
| reachable_step : forall s ev s' out,
    reachable s -> step ev s = Some (s', out) -> reachable s'.

(** The state and the feedback of a run from the first render. *)
Definition stateAfter (evs : list Event) : option State :=
  option_map fst (run evs initialState).

Definition feedbackOf (evs : list Event) : list Feedback :=
  match run evs initialState with
  | Some (_, out) => out
  | None => []
  end.

(** The state a run from the first render ends in; the first render when the
    run throws. *)
Definition after (evs : list Event) : State :=
  match stateAfter evs with
  | Some s => s
  | None => initialState
  end.

(** ** A concrete page

    A layout of the page and the events of a session on it, used to run the
    definitions. *)
Module Page.

Definition svg : DOMRect.t := DOMRect.mk 0 0 1000 600.
Definition anodeRect : DOMRect.t := DOMRect.mk 260 224 56 230.
Definition cathodeRect : DOMRect.t := DOMRect.mk 660 224 80 200.
Definition beaker : DOMRect.t := DOMRect.mk 200 200 600 320.

Definition anchors : Anchors.t :=
  Anchors.mk (Point.mk 450 100) (Point.mk 550 100) (Point.mk 300 300) (Point.mk 700 300).

(** Both wire handles are dropped on their electrode and the wires are
    laid out. *)
Definition connect : list Event :=
  [ AnodeWireDragEnd (Point.mk 280 300) (Some anodeRect);
    CathodeWireDragEnd (Point.mk 700 300) (Some cathodeRect);
    CalculateWirePoints (Some anchors) ].

(** The electron [i] is dragged to the far end of its wire and released
    while the clock shows [now]. *)
Definition dragToEnd (i : string) (wireEnd : Point.t) (now : Z) : list Event :=
  [ SvgPointerMove i wireEnd svg; ElectronDragEnd i now ].

Definition anodeWireEnd : Point.t := Point.mk 450 60.
Definition cathodeWireEnd : Point.t := Point.mk 700 300.

(** The ion [i] is dropped on the cathode. *)
Definition dropOnCathode (i : string) : Event :=
  IonDragEnd i (Point.mk 700 300) (Some cathodeRect) (Some beaker).

(** One plating cycle: a click on the anode at time [t], the electron taken
    to the battery ([t + 1]) and on to the cathode ([t + 2]), and the ion
    dropped on the cathode. *)
Definition cycle (t : Z) : list Event :=
  [ SpawnIon t t ]
  ++ dragToEnd ("ae-" ++ JS.toString t) anodeWireEnd (t + 1)
  ++ dragToEnd ("ce-" ++ JS.toString (t + 1)) cathodeWireEnd (t + 2)
  ++ [ dropOnCathode ("ion-" ++ JS.toString t) ].

(** A click on the anode and the electron taken to the cathode: an
    electron waits and the ion is in solution. *)
Definition electronWaits : list Event :=
  connect
  ++ [ SpawnIon 1000 1000 ]
  ++ dragToEnd "ae-1000" anodeWireEnd 1001
  ++ dragToEnd "ce-1001" cathodeWireEnd 1002.

(** A point of the rectangle of the cathode above the electrolyte: the
    rectangle starts 24 pixels below the top of the beaker, the electrolyte
    60 pixels below it. *)
Definition aboveSolution : Point.t := Point.mk 700 240.

(** Three clicks on the anode in a row. *)
Definition threeSpawns : list Event :=
  connect ++ [ SpawnIon 1000 1000; SpawnIon 2000 2000; SpawnIon 3000 3000 ].

(** Seven plating cycles, the success dialog being closed after the
    sixth. *)
Definition sevenCycles : list Event :=
  connect
  ++ cycle 1000 ++ cycle 2000 ++ cycle 3000 ++ cycle 4000 ++ cycle 5000 ++ cycle 6000
  ++ [ SuccessDialogOpenChange false ]
  ++ cycle 7000.

(** Six plating cycles, the dialog closed, and a seventh cycle up to the
    drop of its ion on the cathode: the state that the handler of the drop
    leaves to the pairing effect. *)
Definition seventhIonDropped : State :=
  fst (handleIonDragEnd "ion-7000" (Point.mk 700 300) (Some cathodeRect) (Some beaker)
         (after (connect
                 ++ cycle 1000 ++ cycle 2000 ++ cycle 3000 ++ cycle 4000 ++ cycle 5000
                 ++ cycle 6000
                 ++ [ SuccessDialogOpenChange false; SpawnIon 7000 7000 ]
                 ++ dragToEnd "ae-7000" anodeWireEnd 7001
                 ++ dragToEnd "ce-7001" cathodeWireEnd 7002))).

(** Eight plating cycles: the anode is down to its last 10 grams. *)
Definition eightCycles : list Event :=
  connect
  ++ cycle 1000 ++ cycle 2000 ++ cycle 3000 ++ cycle 4000
  ++ cycle 5000 ++ cycle 6000 ++ cycle 7000 ++ cycle 8000.

(** Two clicks on the anode within the same millisecond. *)
Definition twoSpawnsSameMillisecond : list Event :=
  connect ++ [ SpawnIon 1000 1000; SpawnIon 1000 1000 ].

(** ... and the plating of what they released: the electron is taken to the
    cathode and the ion dropped there. *)
Definition collidingIds : list Event :=
  twoSpawnsSameMillisecond
  ++ dragToEnd "ae-1000" anodeWireEnd 2000
  ++ dragToEnd "ce-2000" cathodeWireEnd 3000.

Definition collidingIdsPlated : list Event :=
  collidingIds ++ [ dropOnCathode "ion-1000" ].

(** The state that the handler of the last event leaves to the pairing
    effect. *)
Definition collidingIdsDropped : State :=
  fst (handleIonDragEnd "ion-1000" (Point.mk 700 300) (Some cathodeRect) (Some beaker)
         (after collidingIds)).

(** Two clicks on the anode, a second apart, and both electrons handed off
    at the battery. *)
Definition twoElectronsAtBattery : list Event :=
  connect
  ++ [ SpawnIon 1000 1000; SpawnIon 2000 2000 ]
  ++ dragToEnd "ae-1000" anodeWireEnd 1001
  ++ dragToEnd "ae-2000" anodeWireEnd 2001.

(** The electron handed off last is the first to reach the cathode ... *)
Definition laterElectronWaits : list Event :=
  twoElectronsAtBattery ++ dragToEnd "ce-2001" cathodeWireEnd 2002.

(** ... and the other one follows. *)
Definition bothElectronsWait : list Event :=
  laterElectronWaits ++ dragToEnd "ce-1001" cathodeWireEnd 2003.

(** The first ion is dropped on the cathode: the state that the handler
    leaves to the pairing effect. *)
Definition bothElectronsWaitIonDropped : State :=
  fst (handleIonDragEnd "ion-1000" (Point.mk 700 300) (Some cathodeRect) (Some beaker)
         (after bothElectronsWait)).

End Page.

(** ** Relations used by the statements *)

(** [e'] is the electron [e] further along its wire: the same identity, kind,
    wire and status, and a progress, read as the handlers read it
    ([progress || 0]), that is not lower. *)
Definition advanced (e e' : Particle) : Prop :=
  id e' = id e /\ type e' = type e /\ segment e' = segment e /\ status e' = status e
  /\ (JS.or_zero (progress e) <=? JS.or_zero (progress e')) = true.


(** [activeParticles], as [spawnIon] counts them. *)
Definition activeParticles (s : State) : nat :=
  (List.length (filter isActive (ions s)) + List.length (filter isActive (electrons s)))%nat.

(** [isAnodeConnected && isCathodeConnected]. *)
Definition isCircuitComplete (s : State) : bool :=
  isAnodeConnected s && isCathodeConnected s.

(** ** Invariants of the reachable states *)

(** The progress values the handlers ever store: 0 at creation, 1 on
    arrival, and the samples of the drag loop. *)
Definition progress_values : list float := 0 :: 1 :: drag_samples.

(** A wire is not laid out yet or has the three waypoints of
    [calculateWirePoints]. *)
Definition wire_ok (points : list Point.t) : Prop :=
  points = [] \/ exists a b c, points = [a; b; c].

(** An electron of the registry: on the anode wire it is active and was
    made by [spawnIon]; on the cathode wire it was made by the hand-off. *)
Definition electron_ok (e : Particle) : Prop :=
  (exists v, progress e = Some v /\ In v progress_values)
  /\ ((segment e = Some anode_wire /\ (exists t, id e = "ae-" ++ t)%string /\ status e = active)
      \/ (segment e = Some cathode_wire /\ (exists t, id e = "ce-" ++ t)%string)).

Definition invariant (s : State) : Prop :=
  wire_ok (anodeWirePoints s) /\ wire_ok (cathodeWirePoints s)
  /\ Forall electron_ok (electrons s)
  /\ (anodeMass s = ANODE_START_MASS \/ isCircuitComplete s = true)
  /\ (activeParticles s <= 6)%nat.

(** The two wires are laid out together, and no electron has moved before
    they are. *)
Definition wires_laid_out (s : State) : Prop :=
  (anodeWirePoints s = [] /\ cathodeWirePoints s = []
   /\ Forall (fun e => progress e = Some 0) (electrons s))
  \/ ((exists a b c, anodeWirePoints s = [a; b; c])
      /\ (exists a b c, cathodeWirePoints s = [a; b; c])).

(** The number of active particles of a list. *)
Definition countActive (l : list Particle) : nat := List.length (filter isActive l).

(** [o !== undefined]. *)
Definition defined {A} (o : option A) : bool :=
  match o with Some _ => true | None => false end.

(** The number of pairs that the pairing effect forms in a state. *)
Definition pairs (s : State) : nat :=
  Nat.min (List.length (filter isWaiting (ions s))) (List.length (filter isWaiting (electrons s))).

(** A list without its first [n] waiting particles. *)
Fixpoint removeFirstWaiting (n : nat) (l : list Particle) : list Particle :=
  match n, l with
  | O, _ => l
  | _, [] => []
  | S n', p :: l' =>
      if isWaiting p then removeFirstWaiting n' l' else p :: removeFirstWaiting n l'
  end.

(** The number of complete signals ([playWin]) in the feedback of a run. *)
Definition winSignals (out : list Feedback) : nat :=
  List.length (filter (fun f => match f with sound playWin => true | _ => false end) out).

(** The silver of the system: both electrodes and the ions in solution. *)
Definition totalMass (s : State) : Z :=
  (anodeMass s + cathodeMass s + MASS_PER_UNIT * Z.of_nat (List.length (ions s)))%Z.

(** The states reached by steps whose handler leaves pairwise distinct ion
    ids to the pairing effect. *)
Inductive reachable_with_distinct_ion_ids : State -> Prop :=
| distinct_initial : reachable_with_distinct_ion_ids initialState
| distinct_step : forall s ev s1 out1,
    reachable_with_distinct_ion_ids s ->
    handle ev s = Some (s1, out1) ->
    NoDup (map id (ions s1)) ->
    reachable_with_distinct_ion_ids (fst (pairingEffect s1)).

(** ** Proof automation *)

(** Case analysis on the comparisons of exponents and mantissas in the
    order of specification floats. *)
Ltac cmp_cases :=
  repeat match goal with
  | H : context [Z.compare ?a ?b] |- _ => destruct (Z.compare_spec a b); try discriminate H
  | |- context [Z.compare ?a ?b] => destruct (Z.compare_spec a b)
  | H : context [Pos.compare ?a ?b] |- _ => destruct (Pos.compare_spec a b); try discriminate H
  | |- context [Pos.compare ?a ?b] => destruct (Pos.compare_spec a b)
  end.

Ltac sf_cases a b c :=
  unfold SFleb, SFltb, SFeqb, SFcompare;
  change (PosDef.Pos.compare_cont Eq) with Pos.compare;
  destruct a as [[]|[]| |[] ? ?], b as [[]|[]| |[] ? ?], c as [[]|[]| |[] ? ?];
  try discriminate; try reflexivity; intros;
  cmp_cases; subst; simpl in *; try reflexivity; try discriminate; try lia.

Ltac sf_cases2 a b :=
  unfold SFleb, SFltb, SFeqb, SFcompare;
  change (PosDef.Pos.compare_cont Eq) with Pos.compare;
  destruct a as [[]|[]| |[] ? ?], b as [[]|[]| |[] ? ?];
  try discriminate; try reflexivity; intros;
  cmp_cases; subst; simpl in *; try reflexivity; try discriminate; try lia.

(** From [Some (handler s) = Some (s', out)] to [s' = fst (handler s)]. *)
Ltac take_fst H :=
  injection H as H; apply (f_equal fst) in H; cbn [fst] in H;
  match type of H with _ = ?s' => subst s' end.

(** ** Invariants of the registry, the ledger and the wires *)

(** An ion as [spawnIon] makes it, whatever its status. *)
Definition ion_made (p : Particle) : Prop :=
  (exists t, id p = "ion-" ++ t)%string /\ type p = ion
  /\ segment p = None /\ progress p = None /\ x p = 0 /\ y p = 0.

(** An ion of a settled state, one that the pairing effect has left: in
    solution. *)
Definition ion_ok (p : Particle) : Prop := ion_made p /\ status p = active.

(** The kind of an electron goes with its wire, and an electron on the
    cathode wire is never [plated]. *)
Definition electron_kind (e : Particle) : Prop :=
  match segment e with
  | Some anode_wire => type e = anode_electron
  | Some cathode_wire => type e = cathode_electron /\ status e <> plated
  | None => False
  end.

(** An electron of the registry.  On the anode wire it is the active
    electron of a [spawnIon]; on the cathode wire it is the electron of a
    hand-off, active on its way or waiting at the end.  Its progress is 0, 1
    or a sample of the drag loop. *)
Definition electron_wellformed (e : Particle) : Prop :=
  (exists v, progress e = Some v /\ In v progress_values
             /\ (0 <=? v) = true /\ (v <=? 1) = true)
  /\ ((type e = anode_electron /\ segment e = Some anode_wire
       /\ (exists t, id e = "ae-" ++ t)%string /\ status e = active)
      \/ (type e = cathode_electron /\ segment e = Some cathode_wire
          /\ (exists t, id e = "ce-" ++ t)%string
          /\ (status e = active \/ status e = waiting))).

(** The ledger after [spawned] successful clicks on the anode since the
    last reset. *)
Definition ledger_ok (s : State) : Prop :=
  exists spawned : Z,
    (0 <= spawned <= 8)%Z
    /\ anodeMass s = (ANODE_START_MASS - MASS_PER_UNIT * spawned)%Z
    /\ cathodeMass s = (CATHODE_START_MASS + MASS_PER_UNIT * platedCount s)%Z
    /\ (0 <= platedCount s)%Z
    /\ (platedCount s + Z.of_nat (List.length (ions s)) <= spawned)%Z.

(** Nothing has happened yet: the ledger of the first render and an empty
    registry. *)
Definition blank (s : State) : Prop :=
  ions s = [] /\ electrons s = []
  /\ anodeMass s = ANODE_START_MASS /\ cathodeMass s = CATHODE_START_MASS
  /\ platedCount s = 0%Z.

(** The wires as [calculateWirePoints] lays them out: the anode wire goes
    up from its connector and across to the plus terminal, the cathode wire
    goes from the minus terminal across and down to its connector, the two
    horizontal runs at the same height. *)
Definition wire_shape (s : State) : Prop :=
  (anodeWirePoints s = [] /\ cathodeWirePoints s = [])
  \/ exists (anodeConn cathodeConn : Point.t) (plusX minusX topY : float),
       anodeWirePoints s
       = [ anodeConn; Point.mk (Point.x anodeConn) topY; Point.mk plusX topY ]
       /\ cathodeWirePoints s
          = [ Point.mk minusX topY; Point.mk (Point.x cathodeConn) topY; cathodeConn ].

(** [ev] is a click on a reset button. *)
Definition isReset (ev : Event) : bool :=
  match ev with ResetGame => true | _ => false end.

(** ** What the render shows of the ledger *)

(** A CSS value: a string constant, or a template literal by the numbers it
    interpolates:
    [`rgb(${r}, ${g}, ${b})`] and
    [`conic-gradient(from 0deg, ${silver} 0deg, ${silver} ${deg}deg, ${copper} ${deg}deg, ${copper} 360deg)`]. *)
Inductive Css : Type :=
| css_text (s : string)
| css_rgb (r g b : float)
| css_conic (silver : string) (deg : float) (copper : Css).

Module COPPER_COLOR.
Definition r : float := 184.
Definition g : float := 115.
Definition b : float := 51.
End COPPER_COLOR.

Definition SILVER_GRADIENT_START : string := "#f5f7fa".
Definition SILVER_GRADIENT_END : string := "#c3cfe2".

(** [getRingColor]. *)
Definition getRingColor (s : State) : Css :=
  let progress := JS.of_Z (platedCount s) / JS.of_Z TOTAL_PLATING_GOAL in
  if 1 <=? progress then css_text SILVER_GRADIENT_END
  else
    css_rgb
      (JS.Math_round (COPPER_COLOR.r + (195 - COPPER_COLOR.r) * progress))
      (JS.Math_round (COPPER_COLOR.g + (207 - COPPER_COLOR.g) * progress))
      (JS.Math_round (COPPER_COLOR.b + (226 - COPPER_COLOR.b) * progress)).

(** [getPlatingGradient]. *)
Definition getPlatingGradient (s : State) : Css :=
  let progress := JS.of_Z (platedCount s) / JS.of_Z TOTAL_PLATING_GOAL in
  let silverPercent := JS.Math_round (progress * 100) in
  let copperColor := css_rgb COPPER_COLOR.r COPPER_COLOR.g COPPER_COLOR.b in
  if 1 <=? progress then
    css_text "linear-gradient(135deg, #f5f7fa 0%, #c3cfe2 100%)"
  else css_conic SILVER_GRADIENT_END (silverPercent * 3.6) copperColor.

(** The label under the ring, by its key in [translations]:
    [platedCount >= TOTAL_PLATING_GOAL ? t.silverPlatedRing : t.copperRing]. *)
Inductive RingLabel : Type := silverPlatedRing | copperRing.

Definition ringLabel (s : State) : RingLabel :=
  if (TOTAL_PLATING_GOAL <=? platedCount s)%Z then silverPlatedRing else copperRing.

(** The percentage of the status card:
    [Math.round((platedCount / TOTAL_PLATING_GOAL) * 100)]. *)
Definition silverCoatedPercent (s : State) : float :=
  JS.Math_round (JS.of_Z (platedCount s) / JS.of_Z TOTAL_PLATING_GOAL * 100).

(** The atomic view, sixteen atoms a side: atom [i] of the anode is gone
    when [i >= Math.ceil((anodeMass / ANODE_START_MASS) * 16)], atom [i] of
    the cathode is plated when
    [i < Math.min(16, Math.floor(platedCount * 2.7))]. *)
Definition anodeAtoms (s : State) : float :=
  JS.Math_ceil (JS.of_Z (anodeMass s) / JS.of_Z ANODE_START_MASS * 16).

Definition platedAtoms (s : State) : float :=
  JS.Math_min 16 (JS.Math_floor (JS.of_Z (platedCount s) * 2.7)).

(** The width of the cathode bar of the status card, in percent:
    [(cathodeMass / (CATHODE_START_MASS + ANODE_START_MASS)) * 100]. *)
Definition cathodeBarPercent (s : State) : float :=
  JS.of_Z (cathodeMass s) / JS.of_Z (CATHODE_START_MASS + ANODE_START_MASS) * 100.

(** ** Presentation state

    The cells of the component beside the simulation: the tutorial dialog,
    the dot that shows the current, and the electron under the pointer. *)

Record View : Type := mkView {
  sim : State;
  showTutorial : bool;
  tutorialStep : Z;
  currentDotProgress : float;
  draggingElectronId : option string
}.

Definition initialView : View := mkView initialState true 0 0 None.

Definition setSim (s : State) (v : View) : View :=
  mkView s (showTutorial v) (tutorialStep v) (currentDotProgress v) (draggingElectronId v).

Definition setShowTutorial (b : bool) (v : View) : View :=
  mkView (sim v) b (tutorialStep v) (currentDotProgress v) (draggingElectronId v).

Definition setTutorialStep (f : Z -> Z) (v : View) : View :=
  mkView (sim v) (showTutorial v) (f (tutorialStep v)) (currentDotProgress v)
    (draggingElectronId v).

Definition setCurrentDotProgress (f : float -> float) (v : View) : View :=
  mkView (sim v) (showTutorial v) (tutorialStep v) (f (currentDotProgress v))
    (draggingElectronId v).

Definition setDraggingElectronId (i : option string) (v : View) : View :=
  mkView (sim v) (showTutorial v) (tutorialStep v) (currentDotProgress v) i.

(** [getTutorialSteps(t)]: title, content and highlight of each step, the
    texts by their key in [t.tutorial]. *)
Definition getTutorialSteps : list (string * string * option string) :=
  [ ("welcome", "welcomeDesc", None);
    ("step1Title", "step1Desc", Some "wires");
    ("step2Title", "step2Desc", Some "anode");
    ("step3Title", "step3Desc", Some "anode_wire");
    ("step4Title", "step4Desc", Some "cathode_wire");
    ("step5Title", "step5Desc", Some "cathode");
    ("readyTitle", "readyDesc", None) ]%string.

(** [tutorialSteps[tutorialStep]], which the render reads [.title] and
    [.content] of. *)
Definition currentTutorialStep (v : View) : option (string * string * option string) :=
  JS.index getTutorialSteps (JS.of_Z (tutorialStep v)).

(** The button [previous] of the tutorial, disabled on the first step. *)
Definition tutorialPrevious (v : View) : View :=
  if (tutorialStep v =? 0)%Z then v
  else setTutorialStep (fun prev => Z.max 0 (prev - 1)) v.

(** The other button of the tutorial: [next] before the last step, and
    [startPlating], which closes the dialog, on it. *)
Definition tutorialForward (v : View) : View :=
  if (tutorialStep v <? Z.of_nat (List.length getTutorialSteps) - 1)%Z
  then setTutorialStep (fun prev => (prev + 1)%Z) v
  else setShowTutorial false v.

(** The help button of the header. *)
Definition helpClick (v : View) : View :=
  setTutorialStep (fun _ => 0%Z) (setShowTutorial true v).

(** The updater of the interval of the current dot. *)
Definition tickCurrentDot (prev : float) : float :=
  let next := prev + 0.01 in
  if 1 <? next then 0 else next.

(** The effect on [isCircuitComplete]: it runs when the value has changed,
    puts the dot back to 0 when the circuit is open and starts the interval
    otherwise. *)
Definition dotEffect (before : bool) (v : View) : View :=
  if Bool.eqb before (isCircuitComplete (sim v)) then v
  else if negb (isCircuitComplete (sim v)) then setCurrentDotProgress (fun _ => 0) v
  else v.

(** What [getCurrentDotPosition] returns. *)
Inductive DotPosition : Type :=
| dot_null
| dot_at (p : Point.t)
| dot_undefined.

(** [getCurrentDotPosition]; [dot_undefined] when [getPointOnPath] has no
    result. *)
Definition getCurrentDotPosition (v : View) : DotPosition :=
  let s := sim v in
  if negb (isCircuitComplete s) then dot_null
  else
    let totalAnodeLength :=
      if 1 <? JS.length (anodeWirePoints s) then JS.length (anodeWirePoints s) - 1 else 0 in
    let totalCathodeLength :=
      if 1 <? JS.length (cathodeWirePoints s) then JS.length (cathodeWirePoints s) - 1 else 0 in
    let totalLength := totalAnodeLength + totalCathodeLength in
    if totalLength =? 0 then dot_null
    else
      let anodeRatio := totalAnodeLength / totalLength in
      let position :=
        if currentDotProgress v <=? anodeRatio then
          getPointOnPath (anodeWirePoints s) (currentDotProgress v / anodeRatio)
        else
          getPointOnPath (cathodeWirePoints s)
            ((currentDotProgress v - anodeRatio) / (1 - anodeRatio)) in
      match position with
      | Some p => dot_at p
      | None => dot_undefined
      end.

(** An input event of the page.  [Sim] is an event of the simulation, dealt
    with by its handler; the others are the interval of the dot, the buttons
    of the tutorial, and the pointer on the [svg] that carries the
    electrons. *)
Inductive UIEvent : Type :=
| Sim (ev : Event)
| Tick
| HelpClick
| TutorialPrevious
| TutorialForward
| TutorialOpenChange (open : bool)
| ElectronPointerDown (i : string)
| SvgMouseMove (client : Point.t) (currentSvg : DOMRect.t)
| SvgTouchMove (touches : list Point.t) (currentSvg : DOMRect.t)
| SvgPointerUp (now : Z)
| SvgMouseLeave.

(** An event of the simulation on the page: the handler and the pairing
    effect as in [step]; [resetGame] also reopens the tutorial on its first
    step; the effect of the dot runs last. *)
Definition simEvent (ev : Event) (v : View) : option (View * list Feedback) :=
  match step ev (sim v) with
  | None => None
  | Some (s', out) =>
      let v1 := setSim s' v in
      let v2 := if isReset ev then setTutorialStep (fun _ => 0%Z) (setShowTutorial true v1)
                else v1 in
      Some (dotEffect (isCircuitComplete (sim v)) v2, out)
  end.

(** The handlers of the page.  [onMouseDown] and [onTouchStart] exist on the
    [g] element of an electron, which is rendered while the electron is
    active; the interval exists while the circuit is complete. *)
Definition uiStep (ev : UIEvent) (v : View) : option (View * list Feedback) :=
  match ev with
  | Sim ev => simEvent ev v
  | Tick =>
      Some (if isCircuitComplete (sim v) then setCurrentDotProgress tickCurrentDot v else v, [])
  | HelpClick => Some (helpClick v, [])
  | TutorialPrevious => Some (tutorialPrevious v, [])
  | TutorialForward => Some (tutorialForward v, [])
  | TutorialOpenChange open => Some (setShowTutorial open v, [])
  | ElectronPointerDown i =>
      Some (if existsb (fun e => isActive e && (id e =? i)%string) (electrons (sim v))
            then setDraggingElectronId (Some i) v else v, [])
  | SvgMouseMove client currentSvg =>
      match JS.truthy (draggingElectronId v) with
      | None => Some (v, [])
      | Some i => simEvent (SvgPointerMove i client currentSvg) v
      end
  | SvgTouchMove touches currentSvg =>
      match JS.truthy (draggingElectronId v), touches with
      | Some i, touch :: _ => simEvent (SvgPointerMove i touch currentSvg) v
      | _, _ => Some (v, [])
      end
  | SvgPointerUp now =>
      match JS.truthy (draggingElectronId v) with
      | None => Some (v, [])
      | Some i =>
          match simEvent (ElectronDragEnd i now) v with
          | None => None
          | Some (v', out) => Some (setDraggingElectronId None v', out)
          end
      end
  | SvgMouseLeave =>
      match JS.truthy (draggingElectronId v) with
      | None => Some (v, [])
      | Some _ => Some (setDraggingElectronId None v, [])
      end
  end.

Inductive ui_reachable : View -> Prop :=
| ui_reachable_initial : ui_reachable initialView
| ui_reachable_step : forall v ev v' out,
    ui_reachable v -> uiStep ev v = Some (v', out) -> ui_reachable v'.


(** The invariant of the page: the simulation is in a reachable state, the
    tutorial is on one of its steps, and the dot is at a sample of its cycle,
    at 0 while the circuit is open. *)
Definition view_ok (v : View) : Prop :=
  reachable (sim v)
  /\ (0 <= tutorialStep v < Z.of_nat (List.length getTutorialSteps))%Z
  /\ In (currentDotProgress v) drag_samples
  /\ (isCircuitComplete (sim v) = false -> currentDotProgress v = 0).

Fixpoint uiRun (evs : list UIEvent) (v : View) : option (View * list Feedback) :=
  match evs with
  | [] => Some (v, [])
  | ev :: evs' =>
      match uiStep ev v with
      | None => None
      | Some (v1, out1) =>
          match uiRun evs' v1 with
          | None => None
          | Some (v2, out2) => Some (v2, out1 ++ out2)
          end
      end
  end.

(** The page after a run from the first render; the first render when the
    run throws. *)
Definition pageAfter (evs : list UIEvent) : View :=
  match uiRun evs initialView with
  | Some (v, _) => v
  | None => initialView
  end.

(** The events of [Page] on the page, and a session on it: the wires are
    connected, the tutorial is read to its end, the dot makes three ticks. *)
Module Session.

Definition connect : list UIEvent := map Sim Page.connect.

Definition readTutorial : list UIEvent :=
  [ TutorialForward; TutorialForward; TutorialForward; TutorialForward;
    TutorialForward; TutorialForward; TutorialForward ].

Definition threeTicks : list UIEvent := connect ++ [ Tick; Tick; Tick ].

(** A click on the anode, then the electron is grabbed, taken to the end of
    its wire and released. *)
Definition handOff : list UIEvent :=
  connect
  ++ [ Sim (SpawnIon 1000 1000); ElectronPointerDown "ae-1000";
       SvgMouseMove Page.anodeWireEnd Page.svg; SvgPointerUp 1001 ].

(** The same, but the pointer leaves the [svg] before the release. *)
Definition abandoned : list UIEvent :=
  connect
  ++ [ Sim (SpawnIon 1000 1000); ElectronPointerDown "ae-1000";
       SvgMouseMove Page.anodeWireEnd Page.svg; SvgMouseLeave; SvgPointerUp 1001 ].

End Session.

(** The electron under the pointer, if any, was grabbed by the id of an
    electron. *)
Definition dragging_ok (v : View) : Prop :=
  match draggingElectronId v with
  | None => True
  | Some i => exists t, (i = "ae-" ++ t \/ i = "ce-" ++ t)%string
  end.

(** The states reached by steps whose handler leaves pairwise distinct ion
    ids and pairwise distinct electron ids to the pairing effect. *)
Inductive reachable_with_distinct_ids : State -> Prop :=
| all_distinct_initial : reachable_with_distinct_ids initialState
| all_distinct_step : forall s ev s1 out1,
    reachable_with_distinct_ids s ->
    handle ev s = Some (s1, out1) ->
    NoDup (map id (ions s1)) ->
    NoDup (map id (electrons s1)) ->
    reachable_with_distinct_ids (fst (pairingEffect s1)).

(** The ids of a list are pairwise distinct. *)
Fixpoint distinct (ids : list string) : bool :=
  match ids with
  | [] => true
  | i :: ids' => negb (includes ids' i) && distinct ids'
  end.

(** Every handler of the run leaves pairwise distinct ion ids and pairwise
    distinct electron ids to the pairing effect. *)
Fixpoint runs_with_distinct_ids (evs : list Event) (s : State) : bool :=
  match evs with
  | [] => true
  | ev :: evs' =>
      match handle ev s with
      | None => false
      | Some (s1, _) =>
          distinct (map id (ions s1)) && distinct (map id (electrons s1))
          && runs_with_distinct_ids evs' (fst (pairingEffect s1))
      end
  end.

(** Two states that differ at most in the registry of electrons. *)
Definition same_but_electrons (s s' : State) : Prop :=
  anodeMass s' = anodeMass s /\ cathodeMass s' = cathodeMass s /\ ions s' = ions s
  /\ platedCount s' = platedCount s /\ showSuccess s' = showSuccess s
  /\ isAnodeConnected s' = isAnodeConnected s /\ isCathodeConnected s' = isCathodeConnected s
  /\ ionResetKey s' = ionResetKey s /\ anodeWirePoints s' = anodeWirePoints s
  /\ cathodeWirePoints s' = cathodeWirePoints s.

(** A click on the anode, its electron dragged to the battery, and a second
    click for which [Date.now()] returns what it returned for the first: two
    electrons carry the id [ae-1000], one at the battery and one at the
    anode. *)
Definition twinAtTheAnode : list Event :=
  Page.connect
  ++ [ SpawnIon 1000 1000; SvgPointerMove "ae-1000" Page.anodeWireEnd Page.svg;
       SpawnIon 1000 1000 ].

(** ** Proof automation for the invariants *)

(** A handler that leaves the ledger, the connections and the ions as they
    are. *)
Ltac same_ledger :=
  unfold isCircuitComplete; cbn; repeat split; auto with zarith; try (left; split; [reflexivity | now left]).

(** The fields of a view after its setters. *)
Ltac view_simpl :=
  unfold view_ok, helpClick;
  cbn [sim showTutorial tutorialStep currentDotProgress draggingElectronId setSim
       setShowTutorial setTutorialStep setCurrentDotProgress setDraggingElectronId];
  change (Z.of_nat (List.length getTutorialSteps)) with 7%Z in *.


(** * Properties *)

(** ** The primitives on examples *)

Example floor_examples :
  (JS.Math_floor 1.99, JS.Math_floor 0.3, JS.Math_floor (-0.5), JS.Math_floor 2,
   JS.Math_floor (-2.25))
  = (1, 0, -1, 2, -3).
Proof. vm_compute. reflexivity. Qed.

Example index_examples :
  (JS.index [10; 20; 30]%Z 2, JS.index [10; 20; 30]%Z 3, JS.index [10; 20; 30]%Z 0.5,
   JS.index [10; 20; 30]%Z (-1), JS.index [10; 20; 30]%Z (-0))
  = (Some 30, None, None, None, Some 10)%Z.
Proof. vm_compute. reflexivity. Qed.

Example template_literal_example :
  ("ion-" ++ JS.toString 1730000000000)%string = "ion-1730000000000"%string.
Proof. vm_compute. reflexivity. Qed.

(** The loop [for (let p = 0; p <= 1; p += 0.01)] runs 100 times: the sum
    of 100 times [0.01] is above 1 in binary64. *)
Example drag_samples_example :
  (List.length drag_samples, last drag_samples 0) = (100%nat, 0.99000000000000066).
Proof. vm_compute. reflexivity. Qed.

Example getPointOnPath_example :
  getPointOnPath [Point.mk 100 300; Point.mk 100 100; Point.mk 400 100] 0.75
  = Some (Point.mk 250 100).
Proof. vm_compute. reflexivity. Qed.

(** One plating cycle, end to end: 45 grams on the anode, 30 on the cathode,
    one atom plated, the registry empty again. *)
Example one_cycle_example :
  option_map (fun s => (anodeMass s, cathodeMass s, platedCount s, ions s, electrons s))
    (stateAfter (Page.connect ++ Page.cycle 1000))
  = Some (45, 30, 1, [], [])%Z.
Proof. vm_compute. reflexivity. Qed.

(** ** The order of numbers *)

Lemma SFleb_trans (a b c : spec_float) :
  SFleb a b = true -> SFleb b c = true -> SFleb a c = true.
Proof. sf_cases a b c. Qed.

Lemma SFltb_chain (q m p : spec_float) :
  SFltb q m = false -> SFltb p m = true -> SFltb q p = false.
Proof. sf_cases q m p. Qed.

Lemma SFleb_total (a b : spec_float) :
  SFltb a b = false -> SFltb b a = false ->
  SFeqb a a = true -> SFeqb b b = true -> SFleb a b = true.
Proof. sf_cases2 a b. Qed.

Lemma SFleb_defined_l (a b : spec_float) : SFleb a b = true -> SFeqb a a = true.
Proof. sf_cases2 a b. Qed.

Lemma SFleb_defined_r (a b : spec_float) : SFleb a b = true -> SFeqb b b = true.
Proof. sf_cases2 a b. Qed.

Lemma SFltb_SFleb (a b : spec_float) : SFltb a b = true -> SFleb a b = true.
Proof. sf_cases2 a b. Qed.

Lemma SFeqb_SFleb (a b : spec_float) : SFeqb a b = true -> SFleb a b = true.
Proof. sf_cases2 a b. Qed.

Lemma SFltb_irrefl (a : spec_float) : SFltb a a = false.
Proof.
  unfold SFltb, SFcompare; change (PosDef.Pos.compare_cont Eq) with Pos.compare.
  destruct a as [[]|[]| |[] ? ?]; try reflexivity;
    rewrite Z.compare_refl, Pos.compare_refl; reflexivity.
Qed.

(** The order of numbers: [a <= b] evaluates to [true]. *)
Lemma leb_refl (a : float) : is_nan a = false -> (a <=? a) = true.
Proof.
  unfold is_nan. rewrite FloatAxioms.eqb_spec, leb_spec. intros H.
  apply SFeqb_SFleb. now destruct (SFeqb _ _).
Qed.

Lemma leb_trans (a b c : float) : (a <=? b) = true -> (b <=? c) = true -> (a <=? c) = true.
Proof. rewrite !leb_spec. apply SFleb_trans. Qed.

Lemma ltb_leb (a b : float) : (a <? b) = true -> (a <=? b) = true.
Proof. rewrite ltb_spec, leb_spec. apply SFltb_SFleb. Qed.

Lemma eqb_leb (a b : float) : (a =? b) = true -> (a <=? b) = true.
Proof. rewrite FloatAxioms.eqb_spec, leb_spec. apply SFeqb_SFleb. Qed.

Lemma leb_not_nan_l (a b : float) : (a <=? b) = true -> is_nan a = false.
Proof.
  unfold is_nan. rewrite FloatAxioms.eqb_spec, leb_spec. intros H.
  now rewrite (SFleb_defined_l _ _ H).
Qed.

Lemma leb_not_nan_r (a b : float) : (a <=? b) = true -> is_nan b = false.
Proof.
  unfold is_nan. rewrite FloatAxioms.eqb_spec, leb_spec. intros H.
  now rewrite (SFleb_defined_r _ _ H).
Qed.

Lemma leb_total (a b : float) :
  is_nan a = false -> is_nan b = false -> (a <? b) = false -> (b <? a) = false ->
  (a <=? b) = true.
Proof.
  unfold is_nan. rewrite !FloatAxioms.eqb_spec, !ltb_spec, leb_spec. intros Ha Hb H1 H2.
  apply SFleb_total; trivial.
  - now destruct (SFeqb (Prim2SF a) _).
  - now destruct (SFeqb (Prim2SF b) _).
Qed.

Lemma ltb_chain (q m p : float) : (q <? m) = false -> (p <? m) = true -> (q <? p) = false.
Proof. rewrite !ltb_spec. apply SFltb_chain. Qed.

Lemma ltb_irrefl (a : float) : (a <? a) = false.
Proof. rewrite ltb_spec. apply SFltb_irrefl. Qed.

(** [Math.max] returns one of its arguments, at least the first. *)
Lemma Math_max_cases (a b : float) :
  is_nan a = false -> is_nan b = false ->
  (JS.Math_max a b = a \/ JS.Math_max a b = b) /\ (a <=? JS.Math_max a b) = true.
Proof.
  intros Ha Hb. unfold JS.Math_max. rewrite Ha, Hb. simpl.
  destruct (a <? b) eqn:Hab.
  - split; [now right | now apply ltb_leb].
  - destruct (b <? a) eqn:Hba.
    + split; [now left | now apply leb_refl].
    + destruct (get_sign a).
      * split; [now right | now apply leb_total].
      * split; [now left | now apply leb_refl].
Qed.

Lemma or_zero_not_nan (v : option float) : is_nan (JS.or_zero v) = false.
Proof.
  destruct v as [n|]; simpl; [|reflexivity].
  destruct (is_nan n) eqn:Hn; simpl; [reflexivity|].
  destruct (is_zero n); [reflexivity | exact Hn].
Qed.

Lemma or_zero_ge (n : float) : is_nan n = false -> (n <=? JS.or_zero (Some n)) = true.
Proof.
  intros Hn. simpl. rewrite Hn. simpl. destruct (is_zero n) eqn:Hz.
  - apply eqb_leb. exact Hz.
  - now apply leb_refl.
Qed.

(** *** The sampling loop *)

Lemma for_values_exits (fuel : nat) :
  (101 <= fuel)%nat -> for_values fuel 0 = drag_samples.
Proof.
  intros H. replace fuel with (101 + (fuel - 101))%nat by lia.
  generalize (fuel - 101)%nat as k. intros k. vm_compute. reflexivity.
Qed.

Lemma drag_samples_range (p : float) :
  In p drag_samples -> (0 <=? p) = true /\ (p <=? 1) = true.
Proof.
  intros H.
  assert (forallb (fun q => (0 <=? q) && (q <=? 1)) drag_samples = true) as A
    by (vm_compute; reflexivity).
  rewrite forallb_forall in A. apply A in H. now apply andb_true_iff in H.
Qed.

Lemma drag_samples_not_nan (p : float) : In p drag_samples -> is_nan p = false.
Proof. intros H. apply drag_samples_range in H. destruct H as [_ H]. now apply leb_not_nan_l in H. Qed.

Lemma scan_None points dragX dragY (l : list float) :
  fold_left (scan_step points dragX dragY) l None = None.
Proof. induction l; simpl; auto. Qed.

(** What the loop leaves in [(minDist, bestProgress)]: a sample at distance
    [minDist], or the initial pair, and no sample is strictly closer than
    [minDist]. *)
Lemma scan_spec points dragX dragY (l : list float) :
  forall (visited : list float) (minDist best minDist' best' : float),
    fold_left (scan_step points dragX dragY) l (Some (minDist, best)) = Some (minDist', best') ->
    (forall q, In q visited ->
       exists pt, getPointOnPath points q = Some pt
                  /\ (distance pt dragX dragY <? minDist) = false) ->
    (forall q, In q (visited ++ l) ->
       exists pt, getPointOnPath points q = Some pt
                  /\ (distance pt dragX dragY <? minDist') = false)
    /\ ((best' = best /\ minDist' = minDist)
        \/ (In best' l /\ exists pt, getPointOnPath points best' = Some pt
                                     /\ minDist' = distance pt dragX dragY)).
Proof.
  induction l as [|p l IH]; intros visited minDist best minDist' best' H Hv.
  - simpl in H. injection H as <- <-. rewrite app_nil_r. split; [exact Hv | now left].
  - simpl in H. destruct (getPointOnPath points p) as [pt|] eqn:Hp;
      [|now rewrite scan_None in H].
    destruct (distance pt dragX dragY <? minDist) eqn:Hd.
    + apply (IH (visited ++ [p])) in H.
      * destruct H as [Hall Hbest]. rewrite <- app_assoc in Hall. split; [exact Hall|].
        right. destruct Hbest as [[-> ->] | [Hin Hex]].
        -- split; [now left | now exists pt].
        -- split; [now right | exact Hex].
      * intros q Hq. apply in_app_or in Hq. destruct Hq as [Hq | [<- | []]].
        -- destruct (Hv q Hq) as [pt' [Hpt' Hlt]]. exists pt'. split; [exact Hpt'|].
           now apply (ltb_chain _ minDist).
        -- exists pt. split; [exact Hp | apply ltb_irrefl].
    + apply (IH (visited ++ [p])) in H.
      * destruct H as [Hall Hbest]. rewrite <- app_assoc in Hall. split; [exact Hall|].
        destruct Hbest as [Hsame | [Hin Hex]]; [now left | right].
        split; [now right | exact Hex].
      * intros q Hq. apply in_app_or in Hq. destruct Hq as [Hq | [<- | []]].
        -- exact (Hv q Hq).
        -- now exists pt.
Qed.

Lemma getProgressFromDrag_spec points dragX dragY currentProgress newProgress :
  getProgressFromDrag points dragX dragY currentProgress = Some newProgress ->
  exists minDist bestProgress,
    newProgress = JS.Math_max currentProgress bestProgress
    /\ ((bestProgress = currentProgress /\ minDist = infinity)
        \/ (In bestProgress drag_samples
            /\ exists pt, getPointOnPath points bestProgress = Some pt
                          /\ minDist = distance pt dragX dragY))
    /\ (forall q, In q drag_samples ->
          exists pt, getPointOnPath points q = Some pt
                     /\ (distance pt dragX dragY <? minDist) = false).
Proof.
  unfold getProgressFromDrag.
  destruct (fold_left _ _ _) as [[minDist best]|] eqn:H; [|discriminate].
  intros [= <-]. exists minDist, best.
  apply (scan_spec _ _ _ _ []) in H; [|intros q []].
  destruct H as [Hall Hbest]. split; [reflexivity|]. split; [|exact Hall].
  destruct Hbest as [[-> ->] | H]; [now left | now right].
Qed.

(** The result is at least the current progress, and is the current
    progress or a sample. *)
Lemma getProgressFromDrag_ge points dragX dragY currentProgress newProgress :
  is_nan currentProgress = false ->
  getProgressFromDrag points dragX dragY currentProgress = Some newProgress ->
  (currentProgress <=? newProgress) = true
  /\ (newProgress = currentProgress \/ In newProgress drag_samples).
Proof.
  intros Hc H. apply getProgressFromDrag_spec in H.
  destruct H as (minDist & best & -> & Hbest & _).
  assert (is_nan best = false) as Hb.
  { destruct Hbest as [[-> _] | [Hin _]]; [exact Hc | now apply drag_samples_not_nan]. }
  destruct (Math_max_cases currentProgress best Hc Hb) as [Hcases Hle].
  split; [exact Hle|].
  destruct Hcases as [-> | ->]; [now left|].
  destruct Hbest as [[-> _] | [Hin _]]; [now left | now right].
Qed.

(** *** Drag updates *)

Lemma advanced_refl (e : Particle) : advanced e e.
Proof. repeat split. apply leb_refl, or_zero_not_nan. Qed.


Lemma Forall2_advanced_refl (l : list Particle) : Forall2 advanced l l.
Proof. induction l; constructor; auto using advanced_refl. Qed.


Lemma map_throwing_Forall2 {A B} (R : A -> B -> Prop) (f : A -> option B) (l : list A) :
  (forall a b, f a = Some b -> R a b) ->
  forall l', map_throwing f l = Some l' -> Forall2 R l l'.
Proof.
  intros Hf. induction l as [|a l IH]; simpl; intros l' H.
  - injection H as <-. constructor.
  - destruct (f a) as [b|] eqn:Ha; [|discriminate].
    destruct (map_throwing f l) as [bs|]; [|discriminate].
    injection H as <-. constructor; auto.
Qed.

(** A new progress written by a drag is not below the progress it was
    computed from. *)
Lemma moved_advanced (e : Particle) points svgX svgY newProgress newPos :
  getProgressFromDrag points svgX svgY (JS.or_zero (progress e)) = Some newProgress ->
  advanced e (with_position_progress newPos newProgress e).
Proof.
  intros H. apply getProgressFromDrag_ge in H; [|apply or_zero_not_nan].
  destruct H as [Hle _]. repeat split. simpl progress.
  eapply leb_trans; [exact Hle|]. apply or_zero_ge. now apply leb_not_nan_r in Hle.
Qed.

Lemma dragElectron_advanced i svgX svgY s (e e' : Particle) :
  dragElectron i svgX svgY s e = Some e' -> advanced e e'.
Proof.
  unfold dragElectron. destruct (negb _); [intros [= <-]; apply advanced_refl|].
  destruct (_ =? 0)%nat; [intros [= <-]; apply advanced_refl|].
  destruct (getProgressFromDrag _ _ _ _) as [newProgress|] eqn:Hp; [|discriminate].
  destruct (getPointOnPath _ _) as [newPos|]; [|discriminate].
  intros [= <-]. eapply moved_advanced; eassumption.
Qed.

Lemma handleElectronDrag_advanced i point svgRect (s s' : State) :
  handleElectronDrag i point svgRect s = Some s' ->
  Forall2 advanced (electrons s) (electrons s').
Proof.
  unfold handleElectronDrag. destruct svgRect as [r|].
  - destruct (map_throwing _ _) as [moved|] eqn:H; [|discriminate].
    intros [= <-]. simpl. eapply map_throwing_Forall2; [|exact H].
    intros a b. apply dragElectron_advanced.
  - intros [= <-]. apply Forall2_advanced_refl.
Qed.



(** *** Pointer events between two renders *)

(** What the handler of a render does to the state of the moment is fixed by
    the render: nothing, a throw, or the electrons of the dragged id put at
    one place. *)
Lemma svgPointerMove_uniform i client currentSvg (rendered : State) :
  (forall prev, svgPointerMove i client currentSvg rendered prev = Some prev)
  \/ (forall prev, svgPointerMove i client currentSvg rendered prev = None)
  \/ exists newPos newProgress,
       forall prev,
         svgPointerMove i client currentSvg rendered prev
         = Some (setElectrons
                   (map (fun el => if (id el =? i)%string
                                   then with_position_progress newPos newProgress el
                                   else el)) prev).
Proof.
  unfold svgPointerMove. destruct (find _ _) as [electron|]; [|now left].
  destruct (0 <? _)%nat; [|now left].
  destruct (getProgressFromDrag _ _ _ _) as [newProgress|]; [|right; now left].
  destruct (getPointOnPath _ _) as [newPos|]; [|right; now left].
  right; right. now exists newPos, newProgress.
Qed.

Lemma moved_again (i : string) (pos1 pos2 : Point.t) (pr1 pr2 : float) (s : State) :
  setElectrons (map (fun el => if (id el =? i)%string
                               then with_position_progress pos2 pr2 el else el))
    (setElectrons (map (fun el => if (id el =? i)%string
                                  then with_position_progress pos1 pr1 el else el)) s)
  = setElectrons (map (fun el => if (id el =? i)%string
                                 then with_position_progress pos2 pr2 el else el)) s.
Proof.
  unfold setElectrons. cbn. f_equal. rewrite map_map. apply map_ext. intros a.
  destruct (id a =? i)%string eqn:E; cbn; now rewrite E.
Qed.

(** A burst of pointer events ends where its last event alone would end. *)
Lemma svgPointerMoves_last i moves (s s' : State) :
  svgPointerMoves i moves s s = Some s' ->
  s' = s \/ exists client currentSvg, svgPointerMove i client currentSvg s s = Some s'.
Proof.
  assert (forall moves prev,
            (prev = s \/ exists client currentSvg, svgPointerMove i client currentSvg s s = Some prev) ->
            svgPointerMoves i moves s prev = Some s' ->
            s' = s \/ exists client currentSvg, svgPointerMove i client currentSvg s s = Some s')
    as A.
  { clear moves. induction moves as [|[client currentSvg] moves IH]; intros prev Hprev H; simpl in H.
    - injection H as <-. exact Hprev.
    - destruct (svgPointerMove i client currentSvg s prev) as [s1|] eqn:H1; [|discriminate].
      apply (IH s1); [|exact H]. clear IH H.
      destruct (svgPointerMove_uniform i client currentSvg s)
        as [U | [U | (newPos & newProgress & U)]].
      + rewrite U in H1. injection H1 as <-. exact Hprev.
      + rewrite U in H1. discriminate.
      + right. exists client, currentSvg. rewrite U in H1. injection H1 as <-. rewrite U.
        f_equal. destruct Hprev as [-> | (client0 & currentSvg0 & H0)]; [reflexivity|].
        destruct (svgPointerMove_uniform i client0 currentSvg0 s)
          as [U0 | [U0 | (newPos0 & newProgress0 & U0)]]; rewrite U0 in H0.
        * now injection H0 as <-.
        * discriminate.
        * injection H0 as <-. symmetry. apply moved_again. }
  intros H. apply (A moves s); [now left | exact H].
Qed.

(** What a burst of pointer events leaves is left by one event too. *)
Lemma handle_basic ev (s s' : State) out :
  handle ev s = Some (s', out) ->
  exists ev',
    handle ev' s = Some (s', out)
    /\ match ev' with SvgPointerMoves _ _ => False | _ => True end
    /\ (ev' = ev \/ exists i moves, ev = SvgPointerMoves i moves /\ isReset ev' = false).
Proof.
  intros H.
  destruct ev as [? ?|? ?|?|? ?|? ? ? ?|? ? ?|? ? ?|? ?|?| |i moves];
    try (eexists; split; [exact H | split; [exact I | now left]]).
  simpl in H. destruct (svgPointerMoves i moves s s) as [s1|] eqn:H1; [|discriminate].
  injection H as <- <-. apply svgPointerMoves_last in H1.
  destruct H1 as [-> | (client & currentSvg & H1)].
  - exists (ElectronDrag i Point.origin None).
    split; [reflexivity | split; [exact I | right; eauto]].
  - exists (SvgPointerMove i client currentSvg).
    split; [simpl; now rewrite H1 | split; [exact I | right; eauto]].
Qed.

(** To reason on the handler of an event, take an event that is not a
    burst. *)
Ltac basic_event ev H :=
  match type of H with
  | handle ev ?s = Some (?s', ?out) =>
      let ev' := fresh "ev" in
      let H' := fresh "H" in
      destruct (handle_basic ev s s' out H) as (ev' & H' & Hbasic & _);
      clear H; clear ev; rename ev' into ev; rename H' into H
  end.

Lemma getPointOnPath_three (a b c : Point.t) (v : float) :
  In v progress_values -> exists pt, getPointOnPath [a; b; c] v = Some pt.
Proof.
  intros H.
  assert (forallb (fun v => defined (getPointOnPath [a; b; c] v)) progress_values = true) as A.
  { vm_compute. reflexivity. }
  rewrite forallb_forall in A. apply A in H.
  destruct (getPointOnPath [a; b; c] v) as [pt|]; [now exists pt | discriminate].
Qed.


(** *** Counting active particles *)

Lemma countActive_app (l1 l2 : list Particle) :
  countActive (l1 ++ l2) = (countActive l1 + countActive l2)%nat.
Proof. unfold countActive. now rewrite filter_app, length_app. Qed.

Lemma countActive_filter (f : Particle -> bool) (l : list Particle) :
  (countActive (filter f l) <= countActive l)%nat.
Proof.
  unfold countActive. induction l as [|a l IH]; simpl; [lia|].
  destruct (f a); simpl; destruct (isActive a); simpl; lia.
Qed.

Lemma countActive_filter_removed (f : Particle -> bool) (l : list Particle) (e : Particle) :
  In e l -> isActive e = true -> f e = false ->
  (countActive (filter f l) + 1 <= countActive l)%nat.
Proof.
  unfold countActive. induction l as [|a l IH]; simpl; [intros []|].
  intros [-> | Hin] Ha Hf.
  - rewrite Hf, Ha. simpl. pose proof (countActive_filter f l). unfold countActive in *. lia.
  - specialize (IH Hin Ha Hf). destruct (f a); simpl; destruct (isActive a); simpl; lia.
Qed.

Lemma countActive_map (g : Particle -> Particle) (l : list Particle) :
  (forall p, isActive (g p) = true -> isActive p = true) ->
  (countActive (map g l) <= countActive l)%nat.
Proof.
  intros Hg. unfold countActive. induction l as [|a l IH]; simpl; [lia|].
  destruct (isActive (g a)) eqn:Ha; simpl.
  - rewrite (Hg a Ha). simpl. lia.
  - destruct (isActive a); simpl; lia.
Qed.

Lemma countActive_Forall2 (l l' : list Particle) :
  Forall2 (fun e e' => status e' = status e) l l' -> countActive l' = countActive l.
Proof.
  unfold countActive. induction 1 as [|a b l l' Hab _ IH]; simpl; [reflexivity|].
  assert (isActive b = isActive a) as -> by (unfold isActive; now rewrite Hab).
  destruct (isActive a); simpl; lia.
Qed.

(** *** The pairing effect, field by field *)

Lemma filter_all {A} (l : list A) : filter (fun _ => true) l = l.
Proof. induction l; simpl; congruence. Qed.

Lemma pairingEffect_frame (s : State) :
  let s' := fst (pairingEffect s) in
  anodeMass s' = anodeMass s
  /\ isAnodeConnected s' = isAnodeConnected s
  /\ isCathodeConnected s' = isCathodeConnected s
  /\ ionResetKey s' = ionResetKey s
  /\ anodeWirePoints s' = anodeWirePoints s
  /\ cathodeWirePoints s' = cathodeWirePoints s
  /\ (exists f, ions s' = filter f (ions s))
  /\ (exists f, electrons s' = filter f (electrons s)).
Proof.
  unfold pairingEffect.
  destruct (_ && _); [|simpl; repeat split; exists (fun _ => true); now rewrite filter_all].
  destruct (0 <? _)%nat; [|simpl; repeat split; exists (fun _ => true); now rewrite filter_all].
  destruct (TOTAL_PLATING_GOAL <=? _)%Z; simpl; repeat split; eexists; reflexivity.
Qed.

(** ** Invariants of the reachable states *)

Lemma prefix_clash (i t t' : string) : (i = "ae-" ++ t -> i = "ce-" ++ t' -> False)%string.
Proof. intros -> H. discriminate H. Qed.

Lemma progress_values_not_nan (v : float) : In v progress_values -> is_nan v = false.
Proof.
  intros [<- | [<- | H]]; [reflexivity | reflexivity | now apply drag_samples_not_nan].
Qed.

Lemma or_zero_value (v : float) :
  In v progress_values -> In (JS.or_zero (Some v)) progress_values.
Proof.
  intros H. simpl JS.or_zero. destruct (is_nan v || is_zero v); [now left | exact H].
Qed.

Lemma getProgressFromDrag_value points dragX dragY currentProgress newProgress :
  In currentProgress progress_values ->
  getProgressFromDrag points dragX dragY currentProgress = Some newProgress ->
  In newProgress progress_values.
Proof.
  intros Hin H. apply getProgressFromDrag_ge in H; [|now apply progress_values_not_nan].
  destruct H as [_ [-> | H]]; [exact Hin | now right; right].
Qed.

Lemma electron_ok_current (e : Particle) :
  electron_ok e -> In (JS.or_zero (progress e)) progress_values.
Proof. intros [(v & -> & Hv) _]. now apply or_zero_value. Qed.

Lemma electron_ok_moved (e : Particle) (newPos : Point.t) (newProgress : float) :
  electron_ok e -> In newProgress progress_values ->
  electron_ok (with_position_progress newPos newProgress e).
Proof. intros [_ Hseg] Hin. split; [now exists newProgress | exact Hseg]. Qed.

Lemma dragElectron_ok i svgX svgY s (e e' : Particle) :
  electron_ok e -> dragElectron i svgX svgY s e = Some e' -> electron_ok e'.
Proof.
  intros He. unfold dragElectron. destruct (negb _); [now intros [= <-]|].
  destruct (_ =? 0)%nat; [now intros [= <-]|].
  destruct (getProgressFromDrag _ _ _ _) as [newProgress|] eqn:Hp; [|discriminate].
  destruct (getPointOnPath _ _) as [newPos|]; [|discriminate].
  intros [= <-]. apply electron_ok_moved; [exact He|].
  eapply getProgressFromDrag_value; [|exact Hp]. now apply electron_ok_current.
Qed.

Lemma map_throwing_Forall {A B} (P : A -> Prop) (Q : B -> Prop) (f : A -> option B) :
  (forall a b, P a -> f a = Some b -> Q b) ->
  forall l l', Forall P l -> map_throwing f l = Some l' -> Forall Q l'.
Proof.
  intros Hf. induction l as [|a l IH]; simpl; intros l' HP H.
  - injection H as <-. constructor.
  - inversion HP; subst. destruct (f a) as [b|] eqn:Ha; [|discriminate].
    destruct (map_throwing f l) as [bs|]; [|discriminate].
    injection H as <-. constructor; eauto.
Qed.

Lemma Forall_filter {A} (P : A -> Prop) (f : A -> bool) (l : list A) :
  Forall P l -> Forall P (filter f l).
Proof. rewrite !Forall_forall. intros H a Ha. apply filter_In in Ha. now apply H. Qed.

Lemma advanced_status (l l' : list Particle) :
  Forall2 advanced l l' -> Forall2 (fun e e' => status e' = status e) l l'.
Proof. induction 1 as [|a b l l' (_ & _ & _ & H & _)]; constructor; auto. Qed.

Lemma pairingEffect_invariant (s : State) : invariant s -> invariant (fst (pairingEffect s)).
Proof.
  intros (Ha & Hc & He & Hm & Hn).
  destruct (pairingEffect_frame s) as (F1 & F2 & F3 & _ & F5 & F6 & [f Fi] & [g Fe]).
  unfold invariant, isCircuitComplete, activeParticles in *.
  rewrite F1, F2, F3, F5, F6, Fi, Fe. repeat split; auto.
  - now apply Forall_filter.
  - pose proof (countActive_filter f (ions s)). pose proof (countActive_filter g (electrons s)).
    unfold countActive in *. lia.
Qed.

Lemma find_id_some (i : string) (l : list Particle) (e : Particle) :
  find (fun el => (id el =? i)%string) l = Some e -> In e l /\ id e = i.
Proof. intros H. apply find_some in H. destruct H as [Hin H]. now apply String.eqb_eq in H. Qed.

Lemma Segment_eqb_eq (a : option ElectronSegment) (b : ElectronSegment) :
  Segment_eqb a b = true <-> a = Some b.
Proof. destruct a as [[]|], b; simpl; split; congruence. Qed.

Lemma spawnIon_invariant now_ion now_electron (s : State) :
  invariant s -> invariant (fst (spawnIon now_ion now_electron s)).
Proof.
  intros (Ha & Hc & He & Hm & Hn). unfold spawnIon.
  destruct (negb (isAnodeConnected s) || negb (isCathodeConnected s)) eqn:Hcirc;
    [repeat split; assumption|].
  destruct (anodeMass s <=? 10)%Z; [repeat split; assumption|].
  destruct (5 <=? _)%nat eqn:Hcap; [repeat split; assumption|].
  apply Nat.leb_gt in Hcap.
  unfold invariant, isCircuitComplete, activeParticles in *. simpl.
  repeat split; auto.
  - apply Forall_app. split; [exact He|]. constructor; [|constructor].
    split; [exists 0; split; [reflexivity | now left]|].
    left. repeat split. now exists (JS.toString now_electron).
  - right. apply orb_false_iff in Hcirc. destruct Hcirc as [H1 H2].
    apply negb_false_iff in H1, H2. now rewrite H1, H2.
  - rewrite !filter_app, !length_app. simpl. lia.
Qed.

Lemma handleIonDragEnd_invariant i dropPoint cathodeRect beaker (s : State) :
  invariant s -> invariant (fst (handleIonDragEnd i dropPoint cathodeRect beaker s)).
Proof.
  intros (Ha & Hc & He & Hm & Hn). unfold handleIonDragEnd.
  destruct (outsideBounds _ _); [repeat split; assumption|].
  destruct (_ && _); [|destruct (_ && _); repeat split; assumption].
  unfold invariant, isCircuitComplete, activeParticles in *. simpl.
  repeat split; auto.
  pose proof (countActive_map
    (fun p => if (id p =? i)%string then with_status waiting p else p) (ions s)) as H.
  unfold countActive in H. etransitivity; [apply Nat.add_le_mono_r, H | exact Hn].
  intros p. destruct (id p =? i)%string; [discriminate | trivial].
Qed.

Lemma handleElectronDrag_invariant i point svgRect (s s' : State) :
  invariant s -> handleElectronDrag i point svgRect s = Some s' -> invariant s'.
Proof.
  intros (Ha & Hc & He & Hm & Hn) H.
  pose proof (handleElectronDrag_advanced _ _ _ _ _ H) as Hadv.
  apply advanced_status, countActive_Forall2 in Hadv.
  unfold handleElectronDrag in H. destruct svgRect as [r|]; [|injection H as <-; repeat split; assumption].
  destruct (map_throwing _ _) as [moved|] eqn:Hmoved; [|discriminate].
  injection H as <-.
  unfold invariant, isCircuitComplete, activeParticles, countActive in *. simpl in *.
  repeat split; auto.
  - eapply map_throwing_Forall; [|exact He|exact Hmoved].
    intros a b. apply dragElectron_ok.
  - now rewrite Hadv.
Qed.

Lemma svgPointerMove_invariant i client currentSvg (s s' : State) :
  invariant s -> svgPointerMove i client currentSvg s s = Some s' -> invariant s'.
Proof.
  intros (Ha & Hc & He & Hm & Hn) H. unfold svgPointerMove in H.
  destruct (find _ _) as [electron|] eqn:Hf; [|injection H as <-; repeat split; assumption].
  destruct (0 <? _)%nat; [|injection H as <-; repeat split; assumption].
  destruct (getProgressFromDrag _ _ _ _) as [newProgress|] eqn:Hp; [|discriminate].
  destruct (getPointOnPath _ _) as [newPos|]; [|discriminate].
  injection H as <-. apply find_id_some in Hf. destruct Hf as [Hin _].
  assert (In newProgress progress_values) as Hv.
  { eapply getProgressFromDrag_value; [|exact Hp]. apply electron_ok_current.
    rewrite Forall_forall in He. now apply He. }
  unfold invariant, isCircuitComplete, activeParticles in *. simpl.
  repeat split; auto.
  - rewrite Forall_forall in *. intros e' He'. apply in_map_iff in He'.
    destruct He' as (e & <- & Hine). destruct (id e =? i)%string; [|now apply He].
    apply electron_ok_moved; [now apply He | exact Hv].
  - pose proof (countActive_map
      (fun el => if (id el =? i)%string then with_position_progress newPos newProgress el else el)
      (electrons s)) as H.
    unfold countActive in H. etransitivity; [apply Nat.add_le_mono_l, H | exact Hn].
    intros p. now destruct (id p =? i)%string.
Qed.

Lemma handleElectronDragEnd_invariant i now (s : State) :
  invariant s -> invariant (fst (handleElectronDragEnd i now s)).
Proof.
  intros (Ha & Hc & He & Hm & Hn). unfold handleElectronDragEnd.
  destruct (find _ _) as [electron|] eqn:Hf; [|repeat split; assumption].
  apply find_id_some in Hf. destruct Hf as [Hin Hid].
  assert (electron_ok electron) as Hok by (rewrite Forall_forall in He; now apply He).
  destruct (Segment_eqb (segment electron) anode_wire && _) eqn:Hanode.
  - apply andb_true_iff in Hanode. destruct Hanode as [Hseg _].
    apply Segment_eqb_eq in Hseg.
    unfold invariant, isCircuitComplete, activeParticles in *. simpl.
    repeat split; auto.
    + apply Forall_app. split; [now apply Forall_filter|]. constructor; [|constructor].
      split; [exists 0; split; [reflexivity | now left]|].
      right. split; [reflexivity | now exists (JS.toString now)].
    + rewrite filter_app, length_app. simpl.
      pose proof (countActive_filter_removed
        (fun e => negb (id e =? i)%string) (electrons s) electron Hin) as H.
      unfold countActive in H.
      assert (isActive electron = true) as Hact.
      { destruct Hok as [_ [(_ & _ & Hst) | (Hseg' & _)]]; [|congruence].
        unfold isActive. now rewrite Hst. }
      specialize (H Hact). rewrite Hid, String.eqb_refl in H. specialize (H eq_refl). lia.
  - destruct (Segment_eqb (segment electron) cathode_wire && _) eqn:Hcathode;
      [|repeat split; assumption].
    apply andb_true_iff in Hcathode. destruct Hcathode as [Hseg _].
    apply Segment_eqb_eq in Hseg.
    unfold invariant, isCircuitComplete, activeParticles in *. simpl.
    repeat split; auto.
    + rewrite Forall_forall in *. intros e' He'. apply in_map_iff in He'.
      destruct He' as (e & <- & Hine). destruct (id e =? i)%string eqn:Hei; [|now apply He].
      apply String.eqb_eq in Hei.
      destruct (He e Hine) as [_ [(_ & [t Ht] & _) | (Hsege & Hide)]].
      * destruct Hok as [_ [(Hseg' & _) | (_ & [t' Ht'])]]; [congruence|].
        exfalso. apply (prefix_clash i t t'); congruence.
      * split; [exists 1; split; [reflexivity | right; now left]|]. right. now split.
    + pose proof (countActive_map
        (fun e => if (id e =? i)%string then with_status_progress waiting 1 e else e)
        (electrons s)) as H.
      unfold countActive in H. etransitivity; [apply Nat.add_le_mono_l, H | exact Hn].
      intros p. destruct (id p =? i)%string; [discriminate | trivial].
Qed.

Lemma calculateWirePoints_invariant anchors (s : State) :
  invariant s -> invariant (calculateWirePoints anchors s).
Proof.
  intros (Ha & Hc & He & Hm & Hn). destruct anchors as [a|]; [|repeat split; assumption].
  unfold invariant; simpl. repeat split; auto; right; do 3 eexists; reflexivity.
Qed.

Lemma handle_invariant ev (s s' : State) out :
  invariant s -> handle ev s = Some (s', out) -> invariant s'.
Proof.
  intros Hinv H. basic_event ev H. destruct ev; simpl in H; [..|destruct Hbasic].
  - take_fst H. destruct Hinv as (Ha & Hc & He & Hm & Hn).
    unfold anodeWireDragEnd. destruct (nearRect _ _); [|repeat split; assumption].
    unfold invariant, isCircuitComplete in *. simpl. repeat split; auto.
    destruct Hm as [Hm | Hm]; [now left | right]. now apply andb_true_iff in Hm.
  - take_fst H. destruct Hinv as (Ha & Hc & He & Hm & Hn).
    unfold cathodeWireDragEnd. destruct (nearRect _ _); [|repeat split; assumption].
    unfold invariant, isCircuitComplete in *. simpl. repeat split; auto.
    destruct Hm as [Hm | Hm]; [now left | right]. apply andb_true_iff in Hm.
    destruct Hm as [-> _]. reflexivity.
  - injection H as <- _. now apply calculateWirePoints_invariant.
  - take_fst H. now apply spawnIon_invariant.
  - take_fst H. now apply handleIonDragEnd_invariant.
  - destruct (handleElectronDrag _ _ _ _) as [s1|] eqn:H1; [|discriminate].
    injection H as <- _. eapply handleElectronDrag_invariant; eassumption.
  - destruct (svgPointerMove _ _ _ _ _) as [s1|] eqn:H1; [|discriminate].
    injection H as <- _. eapply svgPointerMove_invariant; eassumption.
  - take_fst H. now apply handleElectronDragEnd_invariant.
  - injection H as <- _. destruct Hinv as (Ha & Hc & He & Hm & Hn). repeat split; assumption.
  - injection H as <- _. destruct Hinv as (Ha & Hc & He & Hm & Hn).
    unfold invariant, resetGame; simpl. repeat split; auto.
    unfold activeParticles. simpl. lia.
Qed.

Lemma step_invariant ev (s s' : State) out :
  invariant s -> step ev s = Some (s', out) -> invariant s'.
Proof.
  intros Hinv. unfold step. destruct (handle ev s) as [[s1 out1]|] eqn:H; [|discriminate].
  apply (handle_invariant _ _ _ _ Hinv) in H. apply pairingEffect_invariant in H.
  destruct (pairingEffect s1) as [s2 out2]. now intros [= <- _].
Qed.

Lemma initial_invariant : invariant initialState.
Proof.
  unfold invariant, initialState, activeParticles; simpl.
  repeat split; auto; try (now left). lia.
Qed.

Lemma reachable_invariant (s : State) : reachable s -> invariant s.
Proof.
  induction 1 as [|s ev s' out _ IH Hstep]; [apply initial_invariant|].
  eapply step_invariant; eassumption.
Qed.

(** ** No handler throws in a reachable state *)

Lemma scan_defined points dragX dragY (l : list float) :
  (forall p, In p l -> exists pt, getPointOnPath points p = Some pt) ->
  forall acc, exists acc', fold_left (scan_step points dragX dragY) l (Some acc) = Some acc'.
Proof.
  induction l as [|p l IH]; intros Hl acc; simpl; [now exists acc|].
  destruct acc as [minDist best]. destruct (Hl p (or_introl eq_refl)) as [pt ->].
  destruct (_ <? _); apply IH; intros q Hq; apply Hl; now right.
Qed.

Lemma getProgressFromDrag_three (a b c : Point.t) dragX dragY currentProgress :
  exists newProgress,
    getProgressFromDrag [a; b; c] dragX dragY currentProgress = Some newProgress.
Proof.
  unfold getProgressFromDrag.
  destruct (scan_defined [a; b; c] dragX dragY drag_samples) with (acc := (infinity, currentProgress))
    as [[minDist best] ->].
  - intros p Hp. apply getPointOnPath_three. now right; right.
  - eexists; reflexivity.
Qed.

(** On a laid-out wire, a drag from a stored progress value yields a new
    progress and a position. *)
Lemma drag_defined (points : list Point.t) svgX svgY currentProgress :
  wire_ok points -> points <> [] -> In currentProgress progress_values ->
  exists newProgress newPos,
    getProgressFromDrag points svgX svgY currentProgress = Some newProgress
    /\ getPointOnPath points newProgress = Some newPos.
Proof.
  intros [-> | (a & b & c & ->)] Hne Hin; [congruence|].
  destruct (getProgressFromDrag_three a b c svgX svgY currentProgress) as [newProgress Hp].
  destruct (getPointOnPath_three a b c newProgress) as [newPos Hpos].
  - eapply getProgressFromDrag_value; eassumption.
  - now exists newProgress, newPos.
Qed.

Lemma wireOf_ok (e : Particle) (s : State) : invariant s -> wire_ok (wireOf e s).
Proof. intros (Ha & Hc & _). unfold wireOf. now destruct (Segment_eqb _ _). Qed.

Lemma dragElectron_defined i svgX svgY (s : State) (e : Particle) :
  invariant s -> electron_ok e -> exists e', dragElectron i svgX svgY s e = Some e'.
Proof.
  intros Hinv He. unfold dragElectron. destruct (negb _); [now exists e|].
  destruct (_ =? 0)%nat eqn:Hlen; [now exists e|].
  destruct (drag_defined (wireOf e s) svgX svgY (JS.or_zero (progress e)))
    as (newProgress & newPos & -> & ->).
  - now apply wireOf_ok.
  - intros E. now rewrite E in Hlen.
  - now apply electron_ok_current.
  - eexists; reflexivity.
Qed.

Lemma map_throwing_defined {A B} (P : A -> Prop) (f : A -> option B) (l : list A) :
  (forall a, P a -> exists b, f a = Some b) -> Forall P l ->
  exists l', map_throwing f l = Some l'.
Proof.
  intros Hf. induction 1 as [|a l Ha _ [l' IH]]; simpl; [now exists []|].
  destruct (Hf a Ha) as [b ->]. rewrite IH. eexists; reflexivity.
Qed.

Lemma svgPointerMove_defined i client currentSvg (rendered prev : State) :
  invariant rendered -> exists s', svgPointerMove i client currentSvg rendered prev = Some s'.
Proof.
  intros Hinv. unfold svgPointerMove.
  destruct (find _ _) as [electron|] eqn:Hf; [|eexists; reflexivity].
  destruct (0 <? _)%nat eqn:Hlen; [|eexists; reflexivity].
  apply find_id_some in Hf. destruct Hf as [Hin _].
  destruct (drag_defined (wireOf electron rendered)
              ((Point.x client - DOMRect.left currentSvg) * (1000 / DOMRect.width currentSvg))
              ((Point.y client - DOMRect.top currentSvg) * (600 / DOMRect.height currentSvg))
              (JS.or_zero (progress electron)))
    as (newProgress & newPos & -> & ->).
  - now apply wireOf_ok.
  - intros E. now rewrite E in Hlen.
  - apply electron_ok_current. destruct Hinv as (_ & _ & He & _).
    rewrite Forall_forall in He. now apply He.
  - eexists; reflexivity.
Qed.

Lemma svgPointerMoves_defined i moves (rendered : State) :
  invariant rendered -> forall prev, exists s', svgPointerMoves i moves rendered prev = Some s'.
Proof.
  intros Hinv. induction moves as [|[client currentSvg] moves IH]; intros prev; simpl.
  - now exists prev.
  - destruct (svgPointerMove_defined i client currentSvg rendered prev Hinv) as [s1 ->].
    apply IH.
Qed.

Lemma handle_defined ev (s : State) :
  invariant s -> exists s' out, handle ev s = Some (s', out).
Proof.
  intros Hinv.
  assert (forall r : State * list Feedback, exists s' out, Some r = Some (s', out)) as pair
    by (intros [s' out]; now exists s', out).
  destruct ev; simpl; try apply pair.
  - unfold handleElectronDrag. destruct svgRect as [r|]; [|eexists; eexists; reflexivity].
    destruct (map_throwing_defined electron_ok
                (dragElectron i ((Point.x point - DOMRect.left r) * (1000 / DOMRect.width r))
                   ((Point.y point - DOMRect.top r) * (600 / DOMRect.height r)) s)
                (electrons s)) as [moved ->].
    + intros a Ha. now apply dragElectron_defined.
    + now destruct Hinv as (_ & _ & He & _).
    + eexists; eexists; reflexivity.
  - match goal with
    | |- context [svgPointerMove ?i ?c ?r s s] =>
        destruct (svgPointerMove_defined i c r s s Hinv) as [s' ->]
    end.
    eexists; eexists; reflexivity.
  - match goal with
    | |- context [svgPointerMoves ?i ?m s s] =>
        destruct (svgPointerMoves_defined i m s Hinv s) as [s' ->]
    end.
    eexists; eexists; reflexivity.
Qed.

Lemma step_defined ev (s : State) :
  invariant s -> exists s' out, step ev s = Some (s', out).
Proof.
  intros Hinv. unfold step. destruct (handle_defined ev s Hinv) as (s1 & out1 & ->).
  destruct (pairingEffect s1) as [s2 out2]. eexists; eexists; reflexivity.
Qed.

(** Every event is handled in every reachable state: the lookups of the
    drag handlers are defined there. *)
Lemma reachable_never_throws ev (s : State) :
  reachable s -> exists s' out, step ev s = Some (s', out) /\ reachable s'.
Proof.
  intros Hr. destruct (step_defined ev s (reachable_invariant s Hr)) as (s' & out & H).
  exists s', out. split; [exact H | eapply reachable_step; eassumption].
Qed.

(** ** Drag resolution (C6) *)

Lemma run_reachable (evs : list Event) : forall (s s' : State) out,
  reachable s -> run evs s = Some (s', out) -> reachable s'.
Proof.
  induction evs as [|ev evs IH]; simpl; intros s s' out Hr H.
  - now injection H as <- _.
  - destruct (step ev s) as [[s1 out1]|] eqn:Hstep; [|discriminate].
    destruct (run evs s1) as [[s2 out2]|] eqn:Hrun; [|discriminate].
    injection H as <- _. eapply IH; [|exact Hrun]. eapply reachable_step; eassumption.
Qed.

Lemma after_reachable (evs : list Event) : reachable (after evs).
Proof.
  unfold after, stateAfter. destruct (run evs initialState) as [[s out]|] eqn:H; simpl.
  - eapply run_reachable; [apply reachable_initial | exact H].
  - apply reachable_initial.
Qed.







(** ** The wires are laid out before any electron moves *)

Lemma map_throwing_same {A} (f : A -> option A) (l : list A) :
  (forall a, In a l -> f a = Some a) -> map_throwing f l = Some l.
Proof.
  induction l as [|a l IH]; simpl; intros H; [reflexivity|].
  rewrite H by now left. rewrite IH; [reflexivity|]. intros b Hb. apply H. now right.
Qed.

Lemma handle_wires_laid_out ev (s s' : State) out :
  wires_laid_out s -> handle ev s = Some (s', out) -> wires_laid_out s'.
Proof.
  intros Hw0 H. basic_event ev H. destruct Hw0 as [(Ha & Hc & He) | Hw].
  - (* no wire yet: every electron is at progress 0 *)
    destruct ev; simpl in H; [..|destruct Hbasic].
    + take_fst H. unfold anodeWireDragEnd. destruct (nearRect _ _); left; now repeat split.
    + take_fst H. unfold cathodeWireDragEnd. destruct (nearRect _ _); left; now repeat split.
    + injection H as <- _. destruct anchors as [a|]; [|left; now repeat split].
      right. split; do 3 eexists; reflexivity.
    + take_fst H. unfold spawnIon.
      destruct (_ || _); [left; now repeat split|].
      destruct (_ <=? _)%Z; [left; now repeat split|].
      destruct (_ <=? _)%nat; [left; now repeat split|].
      left. repeat split; auto. simpl. apply Forall_app. split; [exact He|].
      now constructor.
    + take_fst H. unfold handleIonDragEnd. destruct (outsideBounds _ _); [left; now repeat split|].
      destruct (_ && _); [left; now repeat split|]. destruct (_ && _); left; now repeat split.
    + unfold handleElectronDrag in H. destruct svgRect as [r|];
        [|injection H as <- _; left; now repeat split].
      rewrite map_throwing_same in H.
      * injection H as <- _. left. repeat split; auto.
      * intros e _. unfold dragElectron, wireOf. destruct (negb _); [reflexivity|].
        rewrite Ha, Hc. now destruct (Segment_eqb _ _).
    + unfold svgPointerMove in H.
      destruct (find _ _) as [electron|]; [|injection H as <- _; left; now repeat split].
      unfold wireOf in H. rewrite Ha, Hc in H.
      destruct (Segment_eqb _ _); simpl in H; injection H as <- _; left; now repeat split.
    + take_fst H. unfold handleElectronDragEnd.
      destruct (find _ _) as [electron|] eqn:Hf; [|left; now repeat split].
      apply find_id_some in Hf. destruct Hf as [Hin _].
      rewrite Forall_forall in He. rewrite (He electron Hin).
      replace (0.95 <=? JS.or_zero (Some 0)) with false by reflexivity.
      rewrite !andb_false_r. left. repeat split; auto. now apply Forall_forall.
    + injection H as <- _. left. now repeat split.
    + injection H as <- _. left. repeat split; auto.
  - (* both wires are laid out: only [calculateWirePoints] writes them *)
    assert (forall s1, anodeWirePoints s1 = anodeWirePoints s ->
                       cathodeWirePoints s1 = cathodeWirePoints s -> wires_laid_out s1) as keep.
    { intros s1 E1 E2. right. now rewrite E1, E2. }
    destruct ev; simpl in H; [..|destruct Hbasic].
    + take_fst H. unfold anodeWireDragEnd. destruct (nearRect _ _); now apply keep.
    + take_fst H. unfold cathodeWireDragEnd. destruct (nearRect _ _); now apply keep.
    + injection H as <- _. destruct anchors as [a|]; [|now apply keep].
      right. split; do 3 eexists; reflexivity.
    + take_fst H. unfold spawnIon. destruct (_ || _); [now apply keep|].
      destruct (_ <=? _)%Z; [now apply keep|]. destruct (_ <=? _)%nat; now apply keep.
    + take_fst H. unfold handleIonDragEnd. destruct (outsideBounds _ _); [now apply keep|].
      destruct (_ && _); [now apply keep|]. destruct (_ && _); now apply keep.
    + unfold handleElectronDrag in H. destruct svgRect as [r|];
        [|injection H as <- _; now apply keep].
      destruct (map_throwing _ _); [|discriminate]. injection H as <- _. now apply keep.
    + unfold svgPointerMove in H. destruct (find _ _); [|injection H as <- _; now apply keep].
      destruct (0 <? _)%nat; [|injection H as <- _; now apply keep].
      destruct (getProgressFromDrag _ _ _ _); [|discriminate].
      destruct (getPointOnPath _ _); [|discriminate]. injection H as <- _. now apply keep.
    + take_fst H. unfold handleElectronDragEnd. destruct (find _ _); [|now apply keep].
      destruct (_ && _); [now apply keep|]. destruct (_ && _); now apply keep.
    + injection H as <- _. now apply keep.
    + injection H as <- _. now apply keep.
Qed.

Lemma pairingEffect_wires_laid_out (s : State) :
  wires_laid_out s -> wires_laid_out (fst (pairingEffect s)).
Proof.
  destruct (pairingEffect_frame s) as (_ & _ & _ & _ & F5 & F6 & _ & [g Fe]).
  unfold wires_laid_out. rewrite F5, F6, Fe. intros [(Ha & Hc & He) | Hw]; [left | now right].
  repeat split; auto. now apply Forall_filter.
Qed.

Lemma reachable_wires_laid_out (s : State) : reachable s -> wires_laid_out s.
Proof.
  induction 1 as [|s ev s' out _ IH Hstep]; [left; repeat split; constructor|].
  unfold step in Hstep. destruct (handle ev s) as [[s1 out1]|] eqn:H; [|discriminate].
  apply (handle_wires_laid_out _ _ _ _ IH) in H. apply pairingEffect_wires_laid_out in H.
  destruct (pairingEffect s1) as [s2 out2]. now injection Hstep as <- _.
Qed.

(** In a reachable state an electron that has moved travels on a wire that
    is laid out: the cathode wire has a first waypoint. *)
Lemma cathode_wire_has_origin (s : State) (e : Particle) :
  reachable s -> In e (electrons s) -> (0.95 <=? JS.or_zero (progress e)) = true ->
  exists origin rest, cathodeWirePoints s = origin :: rest.
Proof.
  intros Hr Hin Hp. destruct (reachable_wires_laid_out s Hr) as [(_ & _ & He) | [_ (a & b & c & ->)]].
  - rewrite Forall_forall in He. rewrite (He e Hin) in Hp. discriminate Hp.
  - now exists a, [b; c].
Qed.

(** ** Completing an electron drag (C5, C8) *)



(** With pairwise distinct ids, the id of an electron of the registry
    designates it. *)
Lemma find_by_id_unique (l : list Particle) (e : Particle) :
  NoDup (map id l) -> In e l -> find (fun el => (id el =? id e)%string) l = Some e.
Proof.
  induction l as [|a l IH]; simpl; [tauto|]. intros Hnd Hin.
  inversion Hnd as [|? ? Ha Hl]; subst. destruct Hin as [-> | Hin].
  - now rewrite String.eqb_refl.
  - destruct (id a =? id e)%string eqn:E; [|now apply IH].
    apply String.eqb_eq in E. exfalso. apply Ha. rewrite E. now apply in_map.
Qed.

(** The entries of a list that do not carry the id [i] pass the filter of
    the hand-off and are left alone by the update of the arrival. *)
Lemma filter_others (i : string) (l : list Particle) :
  ~ In i (map id l) -> filter (fun e => negb (id e =? i)%string) l = l.
Proof.
  induction l as [|a l IH]; simpl; [reflexivity|]. intros H.
  destruct (id a =? i)%string eqn:E.
  - apply String.eqb_eq in E. exfalso. apply H. now left.
  - simpl. rewrite IH; [reflexivity|]. intros H'. apply H. now right.
Qed.

Lemma map_others (i : string) (g : Particle -> Particle) (l : list Particle) :
  ~ In i (map id l) -> map (fun e => if (id e =? i)%string then g e else e) l = l.
Proof.
  induction l as [|a l IH]; simpl; [reflexivity|]. intros H.
  destruct (id a =? i)%string eqn:E.
  - apply String.eqb_eq in E. exfalso. apply H. now left.
  - rewrite IH; [reflexivity|]. intros H'. apply H. now right.
Qed.

(** With pairwise distinct ids, no other entry of the registry carries the
    id of the electron [e]. *)
Lemma split_by_id (l1 l2 : list Particle) (e : Particle) :
  NoDup (map id (l1 ++ e :: l2)) ->
  ~ In (id e) (map id l1) /\ ~ In (id e) (map id l2)
  /\ find (fun el => (id el =? id e)%string) (l1 ++ e :: l2) = Some e.
Proof.
  intros Hnd. pose proof Hnd as Hnd'. rewrite map_app in Hnd'. simpl in Hnd'.
  apply NoDup_remove_2 in Hnd'. split; [|split].
  - intros H. apply Hnd'. apply in_or_app. now left.
  - intros H. apply Hnd'. apply in_or_app. now right.
  - apply find_by_id_unique; [exact Hnd|]. apply in_or_app. right. now left.
Qed.

(** [handleElectronDragEnd(id)], by the electron that [find] returns: the
    first of the registry with the id. *)
Lemma handleElectronDragEnd_cases (s : State) (i : string) (now : Z) :
  (find (fun e => (id e =? i)%string) (electrons s) = None ->
     handleElectronDragEnd i now s = (s, []))
  /\ (forall electron,
        find (fun e => (id e =? i)%string) (electrons s) = Some electron ->
        (segment electron = Some anode_wire ->
         (0.95 <=? JS.or_zero (progress electron)) = true ->
           electrons (fst (handleElectronDragEnd i now s))
           = filter (fun e => negb (id e =? i)%string) (electrons s)
             ++ [ mkParticle ("ce-" ++ JS.toString now) cathode_electron
                    (Point.x (startPoint (cathodeWirePoints s)))
                    (Point.y (startPoint (cathodeWirePoints s)))
                    active (Some cathode_wire) (Some 0) ]
           /\ same_but_electrons s (fst (handleElectronDragEnd i now s))
           /\ snd (handleElectronDragEnd i now s) = [sound playSuccess; toast electronAtBattery])
        /\ (segment electron = Some cathode_wire ->
            (0.95 <=? JS.or_zero (progress electron)) = true ->
              electrons (fst (handleElectronDragEnd i now s))
              = map (fun e => if (id e =? i)%string
                              then mkParticle (id e) (type e) (x e) (y e) waiting (segment e)
                                     (Some 1)
                              else e) (electrons s)
              /\ same_but_electrons s (fst (handleElectronDragEnd i now s))
              /\ snd (handleElectronDragEnd i now s) = [sound playSuccess])
        /\ (segment electron = None \/ (0.95 <=? JS.or_zero (progress electron)) = false ->
              handleElectronDragEnd i now s = (s, []))).
Proof.
  split.
  - intros Hf. unfold handleElectronDragEnd. now rewrite Hf.
  - intros electron Hf. split; [|split].
    + intros Hseg Hp. unfold handleElectronDragEnd. rewrite Hf, Hseg, Hp.
      cbn. unfold same_but_electrons. cbn. repeat split.
    + intros Hseg Hp. unfold handleElectronDragEnd. rewrite Hf, Hseg, Hp.
      cbn. unfold same_but_electrons. cbn. repeat split.
    + intros H. unfold handleElectronDragEnd. rewrite Hf. destruct H as [Hseg | Hp].
      * now rewrite Hseg.
      * rewrite Hp, !andb_false_r. reflexivity.
Qed.

(** [handleElectronDragEnd(id)] for an electron [e] of a registry with
    pairwise distinct ids, [l1] before it and [l2] after it. *)
Lemma handleElectronDragEnd_of_electron (s : State) (now : Z) (l1 l2 : list Particle)
    (e : Particle) :
  NoDup (map id (electrons s)) -> electrons s = l1 ++ e :: l2 ->
  (segment e = Some anode_wire -> (0.95 <=? JS.or_zero (progress e)) = true ->
     electrons (fst (handleElectronDragEnd (id e) now s))
     = l1 ++ l2
       ++ [ mkParticle ("ce-" ++ JS.toString now) cathode_electron
              (Point.x (startPoint (cathodeWirePoints s)))
              (Point.y (startPoint (cathodeWirePoints s)))
              active (Some cathode_wire) (Some 0) ]
     /\ same_but_electrons s (fst (handleElectronDragEnd (id e) now s))
     /\ snd (handleElectronDragEnd (id e) now s) = [sound playSuccess; toast electronAtBattery]
     /\ (reachable s ->
         ("ce-" ++ JS.toString now)%string <> id e
         /\ exists origin rest,
              cathodeWirePoints s = origin :: rest
              /\ startPoint (cathodeWirePoints s) = origin))
  /\ (segment e = Some cathode_wire -> (0.95 <=? JS.or_zero (progress e)) = true ->
        electrons (fst (handleElectronDragEnd (id e) now s))
        = l1 ++ mkParticle (id e) (type e) (x e) (y e) waiting (Some cathode_wire) (Some 1) :: l2
        /\ same_but_electrons s (fst (handleElectronDragEnd (id e) now s))
        /\ snd (handleElectronDragEnd (id e) now s) = [sound playSuccess])
  /\ (segment e = None \/ (0.95 <=? JS.or_zero (progress e)) = false ->
        handleElectronDragEnd (id e) now s = (s, [])).
Proof.
  intros Hnd El. rewrite El in Hnd. destruct (split_by_id l1 l2 e Hnd) as (H1 & H2 & Hf).
  rewrite <- El in Hf.
  destruct (handleElectronDragEnd_cases s (id e) now) as [_ H]. specialize (H e Hf).
  destruct H as (Ha & Hc & Hn). split; [|split].
  - intros Hseg Hp. destruct (Ha Hseg Hp) as (E & Hsame & Hout).
    split; [|split; [exact Hsame | split; [exact Hout|]]].
    + rewrite E, El, filter_app. simpl. rewrite String.eqb_refl. simpl.
      rewrite (filter_others _ l1 H1), (filter_others _ l2 H2). now rewrite <- app_assoc.
    + intros Hr. assert (In e (electrons s)) as Hin.
      { rewrite El. apply in_or_app. right. now left. }
      split.
      * intros Hid. apply reachable_invariant in Hr. destruct Hr as (_ & _ & He & _).
        rewrite Forall_forall in He.
        destruct (He e Hin) as [_ [(_ & [t Ht] & _) | (Hseg' & _)]]; [|congruence].
        rewrite Ht in Hid. discriminate Hid.
      * destruct (cathode_wire_has_origin s e Hr Hin Hp) as (origin & rest & E').
        exists origin, rest. rewrite E'. now split.
  - intros Hseg Hp. destruct (Hc Hseg Hp) as (E & Hsame & Hout).
    split; [|split; [exact Hsame | exact Hout]].
    rewrite E, El, map_app. simpl. rewrite String.eqb_refl, Hseg.
    now rewrite (map_others _ _ l1 H1), (map_others _ _ l2 H2).
  - exact Hn.
Qed.

(** C5.  [handleElectronDragEnd(id)] does not treat every electron of the
    registry by its own wire and progress: it looks at the first electron
    with the id and then removes, or makes wait, every entry with that id.
    After two clicks on the anode with the same reading of the clock and a
    drag in between, the registry holds [ae-1000] at the battery and another
    [ae-1000] still at the anode, active at progress 0; the release of
    [ae-1000] removes both and appends one electron [ce-1001], so the
    electron at progress 0 does not stay where it is.
    What the handler does in general: with no electron of that id it changes
    nothing; otherwise the first electron with the id decides.  On the anode
    wire with progress at least 0.95 every entry with the id is removed and
    one electron [ce-<Date.now()>], active, on the cathode wire, at progress
    0 and at the first waypoint of the cathode wire, is appended; on the
    cathode wire with progress at least 0.95 every entry with the id becomes
    waiting with progress 1; in every other case nothing changes and nothing
    is emitted.  Nothing but the registry of electrons changes.
    With pairwise distinct ids the handler treats every electron of the
    registry as described for it: the electron alone is removed, or alone
    becomes waiting with progress 1, every other entry stays in place, and in
    a reachable state the new id differs from the id of the electron that
    arrived and the cathode wire has its origin. *)
Theorem release_takes_every_electron_with_the_id :
  (reachable (after twinAtTheAnode)
   /\ electrons (after twinAtTheAnode)
      = [ mkParticle "ae-1000" anode_electron 447.00000000000023 60 active (Some anode_wire)
            (Some 0.99000000000000066);
          mkParticle "ae-1000" anode_electron 300 300 active (Some anode_wire) (Some 0) ]
   /\ (0.95 <=? JS.or_zero (Some 0)) = false
   /\ handleElectronDragEnd "ae-1000" 1001 (after twinAtTheAnode)
      <> (after twinAtTheAnode, [])
   /\ electrons (fst (handleElectronDragEnd "ae-1000" 1001 (after twinAtTheAnode)))
      = [ mkParticle "ce-1001" cathode_electron 550 60 active (Some cathode_wire) (Some 0) ]
   /\ ~ In (mkParticle "ae-1000" anode_electron 300 300 active (Some anode_wire) (Some 0))
           (electrons (fst (handleElectronDragEnd "ae-1000" 1001 (after twinAtTheAnode))))
   /\ electrons (after (twinAtTheAnode ++ [ElectronDragEnd "ae-1000" 1001]))
      = [ mkParticle "ce-1001" cathode_electron 550 60 active (Some cathode_wire) (Some 0) ])
  /\ (forall s i now,
        (find (fun e => (id e =? i)%string) (electrons s) = None ->
           handleElectronDragEnd i now s = (s, []))
        /\ (forall electron,
              find (fun e => (id e =? i)%string) (electrons s) = Some electron ->
              (segment electron = Some anode_wire ->
               (0.95 <=? JS.or_zero (progress electron)) = true ->
                 electrons (fst (handleElectronDragEnd i now s))
                 = filter (fun e => negb (id e =? i)%string) (electrons s)
                   ++ [ mkParticle ("ce-" ++ JS.toString now) cathode_electron
                          (Point.x (startPoint (cathodeWirePoints s)))
                          (Point.y (startPoint (cathodeWirePoints s)))
                          active (Some cathode_wire) (Some 0) ]
                 /\ same_but_electrons s (fst (handleElectronDragEnd i now s))
                 /\ snd (handleElectronDragEnd i now s)
                    = [sound playSuccess; toast electronAtBattery])
              /\ (segment electron = Some cathode_wire ->
                  (0.95 <=? JS.or_zero (progress electron)) = true ->
                    electrons (fst (handleElectronDragEnd i now s))
                    = map (fun e => if (id e =? i)%string
                                    then mkParticle (id e) (type e) (x e) (y e) waiting
                                           (segment e) (Some 1)
                                    else e) (electrons s)
                    /\ same_but_electrons s (fst (handleElectronDragEnd i now s))
                    /\ snd (handleElectronDragEnd i now s) = [sound playSuccess])
              /\ (segment electron = None
                  \/ (0.95 <=? JS.or_zero (progress electron)) = false ->
                    handleElectronDragEnd i now s = (s, []))))
  /\ (forall s now l1 l2 e,
        NoDup (map id (electrons s)) -> electrons s = l1 ++ e :: l2 ->
        (segment e = Some anode_wire -> (0.95 <=? JS.or_zero (progress e)) = true ->
           electrons (fst (handleElectronDragEnd (id e) now s))
           = l1 ++ l2
             ++ [ mkParticle ("ce-" ++ JS.toString now) cathode_electron
                    (Point.x (startPoint (cathodeWirePoints s)))
                    (Point.y (startPoint (cathodeWirePoints s)))
                    active (Some cathode_wire) (Some 0) ]
           /\ same_but_electrons s (fst (handleElectronDragEnd (id e) now s))
           /\ snd (handleElectronDragEnd (id e) now s)
              = [sound playSuccess; toast electronAtBattery]
           /\ (reachable s ->
               ("ce-" ++ JS.toString now)%string <> id e
               /\ exists origin rest,
                    cathodeWirePoints s = origin :: rest
                    /\ startPoint (cathodeWirePoints s) = origin))
        /\ (segment e = Some cathode_wire -> (0.95 <=? JS.or_zero (progress e)) = true ->
              electrons (fst (handleElectronDragEnd (id e) now s))
              = l1 ++ mkParticle (id e) (type e) (x e) (y e) waiting (Some cathode_wire)
                        (Some 1) :: l2
              /\ same_but_electrons s (fst (handleElectronDragEnd (id e) now s))
              /\ snd (handleElectronDragEnd (id e) now s) = [sound playSuccess])
        /\ (segment e = None \/ (0.95 <=? JS.or_zero (progress e)) = false ->
              handleElectronDragEnd (id e) now s = (s, []))).
Proof.
  split; [|split].
  - split; [apply after_reachable|]. split; [vm_compute; reflexivity|].
    split; [vm_compute; reflexivity|]. split; [|split; [vm_compute; reflexivity | split]].
    + intros H. apply (f_equal snd) in H. vm_compute in H. discriminate H.
    + assert (electrons (fst (handleElectronDragEnd "ae-1000" 1001 (after twinAtTheAnode)))
              = [ mkParticle "ce-1001" cathode_electron 550 60 active (Some cathode_wire)
                    (Some 0) ]) as -> by (vm_compute; reflexivity).
      intros [H | []]. apply (f_equal type) in H. discriminate H.
    + vm_compute. reflexivity.
  - intros s i now. apply handleElectronDragEnd_cases.
  - intros s now l1 l2 e. apply handleElectronDragEnd_of_electron.
Qed.


Lemma map_fixed {A} (g : A -> A) (l : list A) : (forall a, In a l -> g a = a) -> map g l = l.
Proof.
  induction l as [|a l IH]; simpl; intros H; [reflexivity|].
  rewrite H by now left. rewrite IH; [reflexivity|]. intros b Hb. apply H. now right.
Qed.

Lemma setElectrons_fixed (f : list Particle -> list Particle) (s : State) :
  f (electrons s) = electrons s -> setElectrons f s = s.
Proof. unfold setElectrons. intros ->. now destruct s. Qed.



(** ** Dropping an ion (C7) *)

Lemma nth_error_map_if (i : string) (g : Particle -> Particle) (l : list Particle) :
  forall n p, nth_error l n = Some p -> id p = i ->
    nth_error (map (fun q => if (id q =? i)%string then g q else q) l) n = Some (g p).
Proof.
  intros n p H Hid. rewrite nth_error_map, H. simpl. now rewrite Hid, String.eqb_refl.
Qed.

(** C7, as the code has it.  [handleIonDragEnd(id, info)] makes its tests
    in this order.
    - The drop point is outside the electrolyte bounds, within the rectangle
      of the cathode or not: the reset key is bumped (the ion goes back to its
      origin) and the error is signalled; no status and nothing else changes.
    - Otherwise, the point is within the rectangle of the cathode and an
      electron waits: every ion with the id becomes waiting, and nothing else
      changes.
    - Otherwise, the point is within the rectangle of the cathode and no
      electron waits: the drop is rejected, the state is unchanged. *)
Theorem dropIon_cases
    (s : State) (i : string) (dropPoint : Point.t) (cathodeRect beaker : option DOMRect.t) :
  (outsideBounds (getElectrolyteBounds beaker) dropPoint = true ->
     handleIonDragEnd i dropPoint cathodeRect beaker s
     = (setIonResetKey (fun prev => (prev + 1)%Z) s, [sound playError; toast stayInSolution]))
  /\ (outsideBounds (getElectrolyteBounds beaker) dropPoint = false ->
      insideRect cathodeRect dropPoint = true ->
      existsb isWaiting (electrons s) = true ->
        handleIonDragEnd i dropPoint cathodeRect beaker s
        = (setIons (map (fun p => if (id p =? i)%string then with_status waiting p else p)) s,
           [sound playSuccess])
        /\ forall n p, nth_error (ions s) n = Some p -> id p = i ->
             nth_error (ions (fst (handleIonDragEnd i dropPoint cathodeRect beaker s))) n
             = Some (with_status waiting p))
  /\ (outsideBounds (getElectrolyteBounds beaker) dropPoint = false ->
      insideRect cathodeRect dropPoint = true ->
      existsb isWaiting (electrons s) = false ->
        handleIonDragEnd i dropPoint cathodeRect beaker s
        = (s, [sound playError; toast waitForElectron])).
Proof.
  unfold handleIonDragEnd. split; [|split].
  - now intros ->.
  - intros -> -> ->. simpl. split; [reflexivity|]. intros n p. apply nth_error_map_if.
  - now intros -> -> ->.
Qed.

(** An ion dropped on the cathode while an electron waits there: it becomes
    waiting. *)
Lemma dropIon_cases_witness :
  nth_error
    (ions (fst (handleIonDragEnd "ion-1000" (Point.mk 700 300) (Some Page.cathodeRect)
                  (Some Page.beaker) (after Page.electronWaits)))) 0
  = Some (mkParticle "ion-1000" ion 0 0 waiting None None).
Proof.
  destruct (dropIon_cases (after Page.electronWaits) "ion-1000" (Point.mk 700 300)
              (Some Page.cathodeRect) (Some Page.beaker)) as (_ & Hcathode & _).
  destruct Hcathode as [_ H]; [vm_compute; reflexivity ..|].
  apply (H 0%nat (mkParticle "ion-1000" ion 0 0 active None None)); vm_compute; reflexivity.
Defined.

(** C7 as stated fails where the rectangle of the cathode reaches outside
    the electrolyte bounds: an active ion dropped there while an electron
    waits is not made waiting; the drop is out of bounds. *)
Lemma dropIon_out_of_bounds_on_cathode :
  reachable (after Page.electronWaits)
  /\ map (fun p => (id p, status p)) (ions (after Page.electronWaits))
     = [("ion-1000"%string, active)]
  /\ existsb isWaiting (electrons (after Page.electronWaits)) = true
  /\ insideRect (Some Page.cathodeRect) Page.aboveSolution = true
  /\ outsideBounds (getElectrolyteBounds (Some Page.beaker)) Page.aboveSolution = true
  /\ handleIonDragEnd "ion-1000" Page.aboveSolution (Some Page.cathodeRect) (Some Page.beaker)
       (after Page.electronWaits)
     = (setIonResetKey (fun prev => (prev + 1)%Z) (after Page.electronWaits),
        [sound playError; toast stayInSolution])
  /\ map status
       (ions (fst (handleIonDragEnd "ion-1000" Page.aboveSolution (Some Page.cathodeRect)
                     (Some Page.beaker) (after Page.electronWaits))))
     = [active].
Proof. split; [apply after_reachable|]. vm_compute. repeat split. Qed.

(** ** Spawning (C4) *)

Lemma circuit_complete_when_spent (s : State) :
  reachable s -> (anodeMass s <= 10)%Z -> isCircuitComplete s = true.
Proof.
  intros Hr Hm. apply reachable_invariant in Hr. destruct Hr as (_ & _ & _ & [H | H] & _).
  - unfold ANODE_START_MASS in H. lia.
  - exact H.
Qed.

Lemma spawnIon_depleted now_ion now_electron (s : State) :
  isCircuitComplete s = true -> (anodeMass s <= 10)%Z ->
  spawnIon now_ion now_electron s = (s, [sound playError; toast anodeDepleted]).
Proof.
  unfold isCircuitComplete, spawnIon. intros Hc Hm. apply andb_true_iff in Hc.
  destruct Hc as [-> ->]. simpl. apply Z.leb_le in Hm. now rewrite Hm.
Qed.

(** The click that is accepted, by the fields of the state it leaves. *)
Lemma spawnIon_success now_ion now_electron (s : State) :
  isCircuitComplete s = true -> (10 < anodeMass s)%Z -> (activeParticles s < 5)%nat ->
  spawnIon now_ion now_electron s
  = (setAnodeMass (fun prev => (prev - 5)%Z)
       (setElectrons (fun prev => prev ++ [newAnodeElectron now_electron s])
          (setIons (fun prev => prev ++ [newIon now_ion]) s)),
     [sound playPop]).
Proof.
  intros Hc Hm Hn. unfold isCircuitComplete, activeParticles, spawnIon in *.
  apply andb_true_iff in Hc. destruct Hc as [-> ->]. cbn [negb orb].
  apply Z.leb_gt in Hm. rewrite Hm. apply Nat.leb_gt in Hn. now rewrite Hn.
Qed.

(** With an anode at or under 10 grams [spawnIon] returns the state it was
    called on, whatever the rest of the state. *)
Lemma spawnIon_spent now_ion now_electron (s : State) :
  (anodeMass s <= 10)%Z ->
  fst (spawnIon now_ion now_electron s) = s
  /\ (snd (spawnIon now_ion now_electron s) = [sound playError; toast anodeDepleted]
      \/ (isCircuitComplete s = false
          /\ snd (spawnIon now_ion now_electron s) = [sound playError; toast circuitOpen])).
Proof.
  intros Hm. apply Z.leb_le in Hm. unfold spawnIon, isCircuitComplete. rewrite Hm.
  destruct (isAnodeConnected s), (isCathodeConnected s); cbn; auto.
Qed.

(** C4.  In every reachable state with [anodeMass <= 10], [spawnIon] signals
    the depleted anode and changes nothing: registry and ledger are as
    before.  (The circuit is complete in such a state; the same holds in any
    state with a complete circuit, and with an open circuit the call changes
    nothing either and signals the open circuit.)  With the circuit complete,
    [anodeMass] above 10 and fewer than 5 active particles, [spawnIon] takes
    5 off the anode mass, appends to the ions one ion [ion-<Date.now()>],
    active, and to the electrons one electron [ae-<Date.now()>], active, on
    the anode wire, at progress 0 and at the first waypoint of the anode
    wire, and changes nothing else: each registry grows by one, two more
    particles are active, cathode mass, plated count, connections, dialog,
    reset key and wires are as before. *)
Theorem spawnIon_depleted_or_success (s : State) (now_ion now_electron : Z) :
  (reachable s -> (anodeMass s <= 10)%Z ->
     spawnIon now_ion now_electron s = (s, [sound playError; toast anodeDepleted])
     /\ ions (fst (spawnIon now_ion now_electron s)) = ions s
     /\ electrons (fst (spawnIon now_ion now_electron s)) = electrons s
     /\ anodeMass (fst (spawnIon now_ion now_electron s)) = anodeMass s
     /\ cathodeMass (fst (spawnIon now_ion now_electron s)) = cathodeMass s
     /\ platedCount (fst (spawnIon now_ion now_electron s)) = platedCount s)
  /\ (isCircuitComplete s = true -> (anodeMass s <= 10)%Z ->
        spawnIon now_ion now_electron s = (s, [sound playError; toast anodeDepleted]))
  /\ ((anodeMass s <= 10)%Z ->
        fst (spawnIon now_ion now_electron s) = s
        /\ (snd (spawnIon now_ion now_electron s) = [sound playError; toast anodeDepleted]
            \/ (isCircuitComplete s = false
                /\ snd (spawnIon now_ion now_electron s)
                   = [sound playError; toast circuitOpen])))
  /\ (isCircuitComplete s = true -> (10 < anodeMass s)%Z -> (activeParticles s < 5)%nat ->
        (spawnIon now_ion now_electron s
         = (setAnodeMass (fun prev => (prev - 5)%Z)
              (setElectrons (fun prev => prev ++ [newAnodeElectron now_electron s])
                 (setIons (fun prev => prev ++ [newIon now_ion]) s)),
            [sound playPop])
         /\ status (newIon now_ion) = active
         /\ status (newAnodeElectron now_electron s) = active
         /\ segment (newAnodeElectron now_electron s) = Some anode_wire
         /\ progress (newAnodeElectron now_electron s) = Some 0)
        /\ anodeMass (fst (spawnIon now_ion now_electron s)) = (anodeMass s - 5)%Z
        /\ ions (fst (spawnIon now_ion now_electron s))
           = ions s ++ [ mkParticle ("ion-" ++ JS.toString now_ion) ion 0 0 active None None ]
        /\ electrons (fst (spawnIon now_ion now_electron s))
           = electrons s
             ++ [ mkParticle ("ae-" ++ JS.toString now_electron) anode_electron
                    (Point.x (startPoint (anodeWirePoints s)))
                    (Point.y (startPoint (anodeWirePoints s)))
                    active (Some anode_wire) (Some 0) ]
        /\ List.length (ions (fst (spawnIon now_ion now_electron s)))
           = S (List.length (ions s))
        /\ List.length (electrons (fst (spawnIon now_ion now_electron s)))
           = S (List.length (electrons s))
        /\ activeParticles (fst (spawnIon now_ion now_electron s)) = (activeParticles s + 2)%nat
        /\ cathodeMass (fst (spawnIon now_ion now_electron s)) = cathodeMass s
        /\ platedCount (fst (spawnIon now_ion now_electron s)) = platedCount s
        /\ showSuccess (fst (spawnIon now_ion now_electron s)) = showSuccess s
        /\ isCircuitComplete (fst (spawnIon now_ion now_electron s)) = true
        /\ ionResetKey (fst (spawnIon now_ion now_electron s)) = ionResetKey s
        /\ anodeWirePoints (fst (spawnIon now_ion now_electron s)) = anodeWirePoints s
        /\ cathodeWirePoints (fst (spawnIon now_ion now_electron s)) = cathodeWirePoints s
        /\ snd (spawnIon now_ion now_electron s) = [sound playPop]).
Proof.
  split; [|split; [|split]].
  - intros Hr Hm.
    rewrite (spawnIon_depleted now_ion now_electron s (circuit_complete_when_spent s Hr Hm) Hm).
    repeat split.
  - apply spawnIon_depleted.
  - apply spawnIon_spent.
  - intros Hc Hm Hn. rewrite (spawnIon_success now_ion now_electron s Hc Hm Hn).
    split; [repeat split|]. cbn [fst snd].
    unfold activeParticles, isCircuitComplete in *.
    cbn [anodeMass ions electrons cathodeMass platedCount showSuccess isAnodeConnected
         isCathodeConnected ionResetKey anodeWirePoints cathodeWirePoints
         setAnodeMass setElectrons setIons].
    rewrite !filter_app, !length_app. cbn. repeat split; try lia. exact Hc.
Qed.

(** After eight plating cycles the anode weighs 10: the next click is
    refused and the anode still weighs 10.  With the circuit just connected
    the first click leaves an anode of 45, the ion [ion-1000] and the
    electron [ae-1000] at the start of the anode wire. *)
Lemma spawnIon_depleted_or_success_witness :
  (anodeMass (after Page.eightCycles) = 10%Z
   /\ spawnIon 9000 9000 (after Page.eightCycles)
      = (after Page.eightCycles, [sound playError; toast anodeDepleted]))
  /\ (anodeMass (after Page.connect) = 50%Z
      /\ ions (after Page.connect) = [] /\ electrons (after Page.connect) = []
      /\ anodeMass (fst (spawnIon 1000 1000 (after Page.connect))) = 45%Z
      /\ ions (fst (spawnIon 1000 1000 (after Page.connect)))
         = [ mkParticle "ion-1000" ion 0 0 active None None ]
      /\ electrons (fst (spawnIon 1000 1000 (after Page.connect)))
         = [ mkParticle "ae-1000" anode_electron 300 300 active (Some anode_wire) (Some 0) ]
      /\ snd (spawnIon 1000 1000 (after Page.connect)) = [sound playPop]).
Proof.
  split.
  - split; [vm_compute; reflexivity|].
    destruct (proj1 (spawnIon_depleted_or_success (after Page.eightCycles) 9000 9000))
      as [H _]; [apply after_reachable | vm_compute; discriminate | exact H].
  - split; [vm_compute; reflexivity|]. split; [vm_compute; reflexivity|].
    split; [vm_compute; reflexivity|].
    destruct (proj2 (proj2 (proj2 (spawnIon_depleted_or_success (after Page.connect) 1000 1000))))
      as (_ & Hm & Hi & He & _ & _ & _ & _ & _ & _ & _ & _ & _ & _ & Hout).
    + vm_compute. reflexivity.
    + vm_compute. reflexivity.
    + vm_compute. lia.
    + split; [exact Hm|]. split; [exact Hi|]. split; [exact He | exact Hout].
Defined.

(** ** The pairing effect (C2, C3) *)

Lemma includes_In (ids : list string) (i : string) : includes ids i = true <-> In i ids.
Proof.
  unfold includes. rewrite existsb_exists. split.
  - intros (j & Hj & E). apply String.eqb_eq in E. now subst.
  - intros H. exists i. split; [exact H | apply String.eqb_refl].
Qed.

Lemma filter_nil_iff {A} (f : A -> bool) (l : list A) :
  filter f l = [] <-> forall a, In a l -> f a = false.
Proof.
  induction l as [|a l IH]; simpl; [tauto|]. destruct (f a) eqn:Ha.
  - split; [discriminate|]. intros H. rewrite (H a) in Ha by now left. discriminate.
  - rewrite IH. split; [intros H b [<- | Hb]; auto | intros H b Hb; apply H; now right].
Qed.

(** Removing the ids of all the waiting particles leaves none waiting. *)
Lemma none_waiting_left (n : nat) (l : list Particle) :
  (List.length (filter isWaiting l) <= n)%nat ->
  filter isWaiting
    (filter (fun p => negb (includes (map id (firstn n (filter isWaiting l))) (id p))) l) = [].
Proof.
  intros Hn. rewrite firstn_all2 by exact Hn. apply filter_nil_iff. intros p Hp.
  apply filter_In in Hp. destruct Hp as [Hin Hused].
  destruct (isWaiting p) eqn:Hw; [|reflexivity].
  apply negb_true_iff in Hused. rewrite <- Hused. symmetry.
  apply includes_In, in_map, filter_In. now split.
Qed.

Lemma pairingEffect_paired (s : State) :
  (0 < pairs s)%nat ->
  pairingEffect s
  = (let usedIonIds := map id (firstn (pairs s) (filter isWaiting (ions s))) in
     let usedElectronIds := map id (firstn (pairs s) (filter isWaiting (electrons s))) in
     let newCount := (platedCount s + Z.of_nat (pairs s))%Z in
     let batch :=
       setPlatedCount (fun _ => newCount)
         (setCathodeMass (fun prev => (prev + MASS_PER_UNIT * Z.of_nat (pairs s))%Z)
            (setElectrons (filter (fun p => negb (includes usedElectronIds (id p))))
               (setIons (filter (fun p => negb (includes usedIonIds (id p)))) s))) in
     if (TOTAL_PLATING_GOAL <=? newCount)%Z
     then (setShowSuccess true batch, [sound playPlating; sound playWin; toast platingSuccessful])
     else (batch, [sound playPlating; toast platingSuccessful])).
Proof.
  unfold pairs, pairingEffect. intros H.
  assert ((0 <? List.length (filter isWaiting (ions s)))%nat = true) as -> by (apply Nat.ltb_lt; lia).
  assert ((0 <? List.length (filter isWaiting (electrons s)))%nat = true) as ->
    by (apply Nat.ltb_lt; lia).
  apply Nat.ltb_lt in H. cbn [andb]. rewrite H. cbv zeta.
  now destruct (TOTAL_PLATING_GOAL <=? _)%Z.
Qed.

Lemma pairingEffect_unpaired (s : State) : pairs s = 0%nat -> pairingEffect s = (s, []).
Proof.
  unfold pairs, pairingEffect. intros H.
  destruct (0 <? List.length (filter isWaiting (ions s)))%nat eqn:Hi; [|reflexivity].
  destruct (0 <? List.length (filter isWaiting (electrons s)))%nat eqn:He; [|reflexivity].
  cbn [andb]. now rewrite H.
Qed.

(** After the pairing effect no ion or no electron waits. *)
Lemma pairingEffect_exhaustive (s : State) : pairs (fst (pairingEffect s)) = 0%nat.
Proof.
  destruct (pairs s) as [|k] eqn:Hk.
  - now rewrite pairingEffect_unpaired.
  - rewrite pairingEffect_paired by lia.
    assert (forall s1, pairs (setShowSuccess true s1) = pairs s1) as Hshow by reflexivity.
    cbv zeta. destruct (TOTAL_PLATING_GOAL <=? _)%Z; cbn [fst]; rewrite ?Hshow;
      unfold pairs at 1; cbn [ions electrons setPlatedCount setCathodeMass setElectrons setIons];
      unfold pairs in *;
      (destruct (Nat.le_ge_cases (List.length (filter isWaiting (ions s)))
                   (List.length (filter isWaiting (electrons s)))) as [Hle | Hle];
       [ rewrite (none_waiting_left _ (ions s)) by lia; reflexivity
       | rewrite (none_waiting_left _ (electrons s)) by lia; apply Nat.min_0_r ]).
Qed.

(** The effect that runs on the state it left does nothing. *)
Lemma pairingEffect_settles (s : State) :
  pairingEffect (fst (pairingEffect s)) = (fst (pairingEffect s), []).
Proof. apply pairingEffect_unpaired, pairingEffect_exhaustive. Qed.

(** The ledger after the pairing effect. *)
Lemma pairingEffect_ledger (s : State) :
  cathodeMass (fst (pairingEffect s))
  = (cathodeMass s + MASS_PER_UNIT * Z.of_nat (pairs s))%Z
  /\ platedCount (fst (pairingEffect s)) = (platedCount s + Z.of_nat (pairs s))%Z
  /\ anodeMass (fst (pairingEffect s)) = anodeMass s.
Proof.
  destruct (pairs s) as [|k] eqn:Hk.
  - rewrite pairingEffect_unpaired by exact Hk. cbn [fst]. unfold MASS_PER_UNIT. lia.
  - rewrite pairingEffect_paired by lia. rewrite Hk. cbv zeta.
    destruct (TOTAL_PLATING_GOAL <=? _)%Z; cbn; auto.
Qed.

Lemma removeFirstWaiting_length (l : list Particle) : forall n,
  (n <= List.length (filter isWaiting l))%nat ->
  (List.length (removeFirstWaiting n l) + n = List.length l)%nat.
Proof.
  induction l as [|p l IH]; intros [|n] Hn; simpl in *; try lia.
  destruct (isWaiting p); simpl in *.
  - specialize (IH n). lia.
  - specialize (IH (S n)). lia.
Qed.

Lemma firstn_In {A} (n : nat) (l : list A) (a : A) : In a (firstn n l) -> In a l.
Proof.
  revert n. induction l as [|b l IH]; intros [|n]; simpl; try tauto.
  intros [-> | H]; [now left | right; eauto].
Qed.

(** With pairwise distinct ids, removing the ids of the first [n] waiting
    particles removes these particles and no other. *)
Lemma remove_by_id_exact (l : list Particle) : forall n,
  NoDup (map id l) ->
  filter (fun p => negb (includes (map id (firstn n (filter isWaiting l))) (id p))) l
  = removeFirstWaiting n l.
Proof.
  induction l as [|p l IH]; intros n Hnd.
  - now destruct n.
  - destruct n as [|n].
    + simpl firstn. cbn [map includes existsb negb removeFirstWaiting].
      apply (filter_all (p :: l)).
    + inversion Hnd as [|? ? Hp Hl]; subst. cbn [removeFirstWaiting filter].
      destruct (isWaiting p) eqn:Hw.
      * cbn [firstn map]. unfold includes at 1. cbn [existsb]. rewrite String.eqb_refl.
        cbn [orb negb]. rewrite <- (IH n Hl). apply filter_ext_in. intros q Hq.
        unfold includes. cbn [existsb].
        assert ((id q =? id p)%string = false) as ->; [|reflexivity].
        apply String.eqb_neq. intros E. apply Hp. rewrite <- E. now apply in_map.
      * assert (includes (map id (firstn (S n) (filter isWaiting l))) (id p) = false) as ->.
        { apply not_true_is_false. intros H. apply includes_In in H. apply Hp.
          apply in_map_iff in H. destruct H as (q & <- & Hq).
          apply firstn_In, filter_In in Hq. apply in_map. tauto. }
        cbn [negb]. now rewrite (IH (S n) Hl).
Qed.

(** With pairwise distinct ids among the ions, the pairing effect removes
    the first [pairs] waiting ions, in the order of the registry, and no
    other ion; and so for the electrons. *)
Lemma pairingEffect_exact (s : State) :
  (NoDup (map id (ions s)) ->
     ions (fst (pairingEffect s)) = removeFirstWaiting (pairs s) (ions s))
  /\ (NoDup (map id (electrons s)) ->
        electrons (fst (pairingEffect s)) = removeFirstWaiting (pairs s) (electrons s)).
Proof.
  destruct (pairs s) as [|k] eqn:Hk.
  - rewrite pairingEffect_unpaired by exact Hk. cbn [fst].
    now destruct (ions s), (electrons s).
  - rewrite pairingEffect_paired by lia. rewrite Hk. cbv zeta.
    destruct (TOTAL_PLATING_GOAL <=? _)%Z;
      cbn [fst ions electrons setShowSuccess setPlatedCount setCathodeMass setElectrons setIons];
      split; intros Hnd; now apply remove_by_id_exact.
Qed.

(** C2, as the code has it.  The pairing effect emits the complete signal
    ([playWin], with [setShowSuccess(true)]) in every batch that leaves
    [platedCount] at [TOTAL_PLATING_GOAL] or above, once per batch: when the
    count first reaches the goal, and again in each batch after that; no
    guard makes it a one-time signal. *)
Theorem complete_signal_every_batch_at_goal (s : State) :
  winSignals (snd (pairingEffect s))
  = (if (0 <? pairs s)%nat && (TOTAL_PLATING_GOAL <=? platedCount s + Z.of_nat (pairs s))%Z
     then 1 else 0)%nat
  /\ showSuccess (fst (pairingEffect s))
     = ((0 <? pairs s)%nat && (TOTAL_PLATING_GOAL <=? platedCount s + Z.of_nat (pairs s))%Z)
       || showSuccess s
  /\ ((TOTAL_PLATING_GOAL <= platedCount s)%Z -> (0 < pairs s)%nat ->
        winSignals (snd (pairingEffect s)) = 1%nat
        /\ showSuccess (fst (pairingEffect s)) = true).
Proof.
  destruct (pairs s) as [|k] eqn:Hk.
  - rewrite pairingEffect_unpaired by exact Hk. cbn [fst snd].
    split; [reflexivity|]. split; [reflexivity|]. intros _ H. lia.
  - rewrite pairingEffect_paired by lia. rewrite Hk. cbv zeta. cbn [Nat.ltb Nat.leb andb].
    destruct (TOTAL_PLATING_GOAL <=? platedCount s + Z.of_nat (S k))%Z eqn:Hgoal;
      cbn [fst snd]; (split; [reflexivity|]); (split; [reflexivity|]); intros Hg _.
    + split; reflexivity.
    + apply Z.leb_gt in Hgoal. lia.
Qed.

(** The seventh pairing of a session: the count is at the goal already, the
    dialog has been closed, and the signal is emitted again. *)
Lemma complete_signal_every_batch_at_goal_witness :
  platedCount Page.seventhIonDropped = 6%Z
  /\ showSuccess Page.seventhIonDropped = false
  /\ winSignals (snd (pairingEffect Page.seventhIonDropped)) = 1%nat
  /\ showSuccess (fst (pairingEffect Page.seventhIonDropped)) = true.
Proof.
  split; [vm_compute; reflexivity|]. split; [vm_compute; reflexivity|].
  apply (proj2 (proj2 (complete_signal_every_batch_at_goal Page.seventhIonDropped))).
  - vm_compute. discriminate.
  - vm_compute. lia.
Defined.

(** The complete signal fires twice in a session of seven plating cycles:
    at the sixth pairing and again at the seventh. *)
Lemma complete_signal_fires_twice :
  reachable (after Page.sevenCycles)
  /\ platedCount (after Page.sevenCycles) = 7%Z
  /\ winSignals (feedbackOf Page.sevenCycles) = 2%nat
  /\ ~ (forall evs, (winSignals (feedbackOf evs) <= 1)%nat).
Proof.
  split; [apply after_reachable|]. split; [vm_compute; reflexivity|].
  assert (winSignals (feedbackOf Page.sevenCycles) = 2%nat) as H by (vm_compute; reflexivity).
  split; [exact H|]. intros A. specialize (A Page.sevenCycles). rewrite H in A. lia.
Qed.

(** ** The cap on active particles (C1) *)

Lemma spawnIon_at_cap now_ion now_electron (s : State) :
  (5 <= activeParticles s)%nat -> fst (spawnIon now_ion now_electron s) = s.
Proof.
  unfold activeParticles, spawnIon. intros H. apply Nat.leb_le in H.
  destruct (_ || _); [reflexivity|]. destruct (_ <=? _)%Z; [reflexivity|]. now rewrite H.
Qed.

(** C1 at the failing input.  [spawnIon] tests the cap before it adds two
    particles: with four active particles the third click on the anode is
    accepted and leaves six.  Six is the bound that holds in every reachable
    state, and a click at five or more active particles changes nothing. *)
Theorem six_active_particles :
  reachable (after Page.threeSpawns)
  /\ activeParticles (after Page.threeSpawns) = 6%nat
  /\ (forall s, reachable s -> (activeParticles s <= 6)%nat)
  /\ (forall s now_ion now_electron,
        (5 <= activeParticles s)%nat -> fst (spawnIon now_ion now_electron s) = s).
Proof.
  split; [apply after_reachable|]. split; [vm_compute; reflexivity|]. split.
  - intros s Hr. now destruct (reachable_invariant s Hr) as (_ & _ & _ & _ & H).
  - intros s now_ion now_electron. apply spawnIon_at_cap.
Qed.

(** ** Particle ids (C9) *)

(** C9 at the failing input.  Two clicks on the anode for which [Date.now()]
    returns the same millisecond make two ions with one id and two electrons
    with one id. *)
Theorem ids_collide_within_a_millisecond :
  reachable (after Page.twoSpawnsSameMillisecond)
  /\ map id (ions (after Page.twoSpawnsSameMillisecond)) = ["ion-1000"; "ion-1000"]%string
  /\ map id (electrons (after Page.twoSpawnsSameMillisecond)) = ["ae-1000"; "ae-1000"]%string
  /\ ~ NoDup (map id (ions (after Page.twoSpawnsSameMillisecond)
                      ++ electrons (after Page.twoSpawnsSameMillisecond))).
Proof.
  split; [apply after_reachable|]. split; [vm_compute; reflexivity|].
  split; [vm_compute; reflexivity|].
  vm_compute. intros H. inversion H as [|? ? Hn _]. apply Hn. now left.
Qed.

(** C3, as the code has it.  In every state whose ion ids are pairwise
    distinct and whose electron ids are pairwise distinct, the pairing effect
    leaves no pair behind, removes exactly the first [pairs] waiting ions and
    the first [pairs] waiting electrons in the order of the registry (the
    order in which the particles were inserted), in one batch, adds
    [5 * pairs] to the cathode mass and [pairs] to [platedCount].  (The first
    and the last two hold in every state.) *)
Theorem pairing_in_registry_order (s : State) :
  NoDup (map id (ions s)) ->
  NoDup (map id (electrons s)) ->
  pairs (fst (pairingEffect s)) = 0%nat
  /\ ions (fst (pairingEffect s)) = removeFirstWaiting (pairs s) (ions s)
  /\ electrons (fst (pairingEffect s)) = removeFirstWaiting (pairs s) (electrons s)
  /\ cathodeMass (fst (pairingEffect s)) = (cathodeMass s + 5 * Z.of_nat (pairs s))%Z
  /\ platedCount (fst (pairingEffect s)) = (platedCount s + Z.of_nat (pairs s))%Z.
Proof.
  intros Hi He. split; [apply pairingEffect_exhaustive|].
  split; [now apply pairingEffect_exact|]. split; [now apply pairingEffect_exact|].
  destruct (pairingEffect_ledger s) as (Hc & Hp & _). now split.
Qed.

(** Two electrons wait, one ion is dropped on the cathode: the pair takes
    the electron that comes first in the registry. *)
Lemma pairing_in_registry_order_witness :
  pairs Page.bothElectronsWaitIonDropped = 1%nat
  /\ map id (ions (fst (pairingEffect Page.bothElectronsWaitIonDropped))) = ["ion-2000"]%string
  /\ map id (electrons (fst (pairingEffect Page.bothElectronsWaitIonDropped)))
     = ["ce-2001"]%string
  /\ cathodeMass (fst (pairingEffect Page.bothElectronsWaitIonDropped)) = 30%Z
  /\ platedCount (fst (pairingEffect Page.bothElectronsWaitIonDropped)) = 1%Z.
Proof.
  destruct (pairing_in_registry_order Page.bothElectronsWaitIonDropped)
    as (_ & Hi & He & Hc & Hp).
  - vm_compute. repeat constructor; simpl; intuition discriminate.
  - vm_compute. repeat constructor; simpl; intuition discriminate.
  - rewrite Hi, He, Hc, Hp. vm_compute. repeat split.
Defined.

(** C3 as stated fails in two ways.  By the order: of two waiting
    electrons, [ce-2001] began to wait first, and the pair takes [ce-1001],
    which comes first in the registry.  By the ids: after two clicks on the
    anode within one millisecond both ions carry the id [ion-1000]; one pair
    is formed and both ions are removed. *)
Lemma pairing_not_by_arrival_nor_exact :
  (reachable (after Page.bothElectronsWait)
   /\ map id (filter isWaiting (electrons (after Page.laterElectronWaits))) = ["ce-2001"]%string
   /\ map id (filter isWaiting (electrons (after Page.bothElectronsWait)))
      = ["ce-1001"; "ce-2001"]%string
   /\ pairs Page.bothElectronsWaitIonDropped = 1%nat
   /\ map id (electrons (fst (pairingEffect Page.bothElectronsWaitIonDropped)))
      = ["ce-2001"]%string)
  /\ (reachable (after Page.collidingIds)
      /\ map id (filter isWaiting (ions Page.collidingIdsDropped))
         = ["ion-1000"; "ion-1000"]%string
      /\ pairs Page.collidingIdsDropped = 1%nat
      /\ List.length (removeFirstWaiting 1 (ions Page.collidingIdsDropped)) = 1%nat
      /\ ions (fst (pairingEffect Page.collidingIdsDropped)) = []).
Proof.
  split.
  - split; [apply after_reachable|]. vm_compute. repeat split.
  - split; [apply after_reachable|]. vm_compute. repeat split.
Qed.

(** ** Conservation of mass (C10) *)

Lemma handle_totalMass ev (s s' : State) out :
  handle ev s = Some (s', out) ->
  totalMass s = (ANODE_START_MASS + CATHODE_START_MASS)%Z ->
  totalMass s' = (ANODE_START_MASS + CATHODE_START_MASS)%Z.
Proof.
  intros H Hs. basic_event ev H. destruct ev; simpl in H; [..|destruct Hbasic].
  - take_fst H. unfold anodeWireDragEnd. now destruct (nearRect _ _).
  - take_fst H. unfold cathodeWireDragEnd. now destruct (nearRect _ _).
  - injection H as <- _. now destruct anchors.
  - take_fst H. unfold spawnIon.
    destruct (_ || _); [exact Hs|]. destruct (_ <=? _)%Z; [exact Hs|].
    destruct (_ <=? _)%nat; [exact Hs|].
    unfold totalMass, MASS_PER_UNIT in *. cbn [fst anodeMass cathodeMass ions setAnodeMass setElectrons setIons].
    rewrite length_app. simpl List.length. lia.
  - take_fst H. unfold handleIonDragEnd.
    destruct (outsideBounds _ _); [exact Hs|].
    destruct (_ && _); [|now destruct (_ && _)].
    unfold totalMass in *. cbn [fst anodeMass cathodeMass ions setIons]. now rewrite length_map.
  - unfold handleElectronDrag in H. destruct svgRect as [r|]; [|now injection H as <- _].
    destruct (map_throwing _ _); [|discriminate]. now injection H as <- _.
  - unfold svgPointerMove in H. destruct (find _ _); [|now injection H as <- _].
    destruct (0 <? _)%nat; [|now injection H as <- _].
    destruct (getProgressFromDrag _ _ _ _); [|discriminate].
    destruct (getPointOnPath _ _); [|discriminate]. now injection H as <- _.
  - take_fst H. unfold handleElectronDragEnd. destruct (find _ _); [|exact Hs].
    destruct (_ && _); [exact Hs|]. now destruct (_ && _).
  - now injection H as <- _.
  - injection H as <- _. reflexivity.
Qed.

Lemma pairs_le_waiting_ions (s : State) :
  (pairs s <= List.length (filter isWaiting (ions s)))%nat.
Proof. unfold pairs. lia. Qed.

(** With pairwise distinct ion ids the pairing effect moves the mass of the
    ions it removes to the cathode. *)
Lemma pairingEffect_totalMass (s : State) :
  NoDup (map id (ions s)) -> totalMass (fst (pairingEffect s)) = totalMass s.
Proof.
  intros Hnd. unfold totalMass.
  destruct (pairingEffect_ledger s) as (-> & _ & ->).
  rewrite (proj1 (pairingEffect_exact s) Hnd).
  pose proof (removeFirstWaiting_length (ions s) (pairs s) (pairs_le_waiting_ions s)).
  unfold MASS_PER_UNIT. lia.
Qed.

(** With pairwise distinct ion ids in the state that the pairing effect runs
    on, a step keeps the total at 75. *)
Lemma step_totalMass ev (s s1 : State) out1 :
  handle ev s = Some (s1, out1) ->
  NoDup (map id (ions s1)) ->
  totalMass s = 75%Z ->
  step ev s = Some (fst (pairingEffect s1), out1 ++ snd (pairingEffect s1))
  /\ totalMass (fst (pairingEffect s1)) = 75%Z.
Proof.
  intros H Hnd Hs. split.
  - unfold step. rewrite H. now destruct (pairingEffect s1).
  - rewrite pairingEffect_totalMass by exact Hnd. now apply (handle_totalMass ev s s1 out1).
Qed.

(** As long as the ion ids stay pairwise distinct the total is 75, and the
    states so reached are reachable. *)
Lemma totalMass_with_distinct_ion_ids (s : State) :
  reachable_with_distinct_ion_ids s -> totalMass s = 75%Z /\ reachable s.
Proof.
  induction 1 as [|s ev s1 out1 _ [IHm IHr] Hh Hnd]; [split; [reflexivity | constructor]|].
  destruct (step_totalMass ev s s1 out1 Hh Hnd IHm) as [Hstep Hm].
  split; [exact Hm | eapply reachable_step; eassumption].
Qed.

(** C10 at the failing input.  Two clicks on the anode within one millisecond
    take 10 grams off the anode; the pairing effect then removes both ions,
    which carry the same id, for the 5 grams of one pair: 40 grams on the
    anode, 30 on the cathode, no ion, 70 in all.  The sum is 75 at the start
    and is kept by every step that leaves pairwise distinct ion ids to the
    pairing effect: it is 75 in every state reached by such steps. *)
Theorem mass_lost_with_colliding_ids :
  reachable (after Page.collidingIdsPlated)
  /\ anodeMass (after Page.collidingIdsPlated) = 40%Z
  /\ cathodeMass (after Page.collidingIdsPlated) = 30%Z
  /\ ions (after Page.collidingIdsPlated) = []
  /\ totalMass (after Page.collidingIdsPlated) = 70%Z
  /\ totalMass initialState = 75%Z
  /\ (forall ev s s1 out1,
        handle ev s = Some (s1, out1) -> NoDup (map id (ions s1)) -> totalMass s = 75%Z ->
        step ev s = Some (fst (pairingEffect s1), out1 ++ snd (pairingEffect s1))
        /\ totalMass (fst (pairingEffect s1)) = 75%Z)
  /\ (forall s, reachable_with_distinct_ion_ids s -> totalMass s = 75%Z /\ reachable s).
Proof.
  split; [apply after_reachable|].
  do 5 (split; [vm_compute; reflexivity|]).
  split; [intros ev s s1 out1; apply step_totalMass | apply totalMass_with_distinct_ion_ids].
Qed.

(** * Further properties of the simulation *)

(** ** What a handler changes *)

(** The ledger, the connections and the ions after a handler: a reset; or
    no change of cathode mass and plated count, connections that stay, and
    either the same anode mass with the same ions or the ions of an accepted
    drop, or the new ion of a successful click on the anode. *)
Lemma handle_effect_basic ev (s s' : State) out :
  match ev with SvgPointerMoves _ _ => False | _ => True end ->
  handle ev s = Some (s', out) ->
  (ev = ResetGame /\ s' = resetGame s)
  \/ (isReset ev = false
      /\ cathodeMass s' = cathodeMass s /\ platedCount s' = platedCount s
      /\ (ionResetKey s <= ionResetKey s')%Z
      /\ (isAnodeConnected s = true -> isAnodeConnected s' = true)
      /\ (isCathodeConnected s = true -> isCathodeConnected s' = true)
      /\ (isCircuitComplete s' = false -> isCircuitComplete s = false)
      /\ ((anodeMass s' = anodeMass s
           /\ (ions s' = ions s
               \/ exists i,
                    ions s' = map (fun p => if (id p =? i)%string then with_status waiting p else p)
                                  (ions s)
                    /\ existsb isWaiting (electrons s) = true
                    /\ electrons s' = electrons s))
          \/ (isCircuitComplete s = true /\ (10 < anodeMass s)%Z
              /\ anodeMass s' = (anodeMass s - MASS_PER_UNIT)%Z
              /\ exists now, ions s' = ions s ++ [newIon now]))).
Proof.
  intros Hbasic H. destruct ev; simpl in H; [..|destruct Hbasic];
    try (right; split; [reflexivity|]).
  - take_fst H. unfold anodeWireDragEnd.
    destruct (nearRect _ _); [|same_ledger]. same_ledger.
    destruct (isCathodeConnected s); [discriminate | intros _; apply andb_false_r].
  - take_fst H. unfold cathodeWireDragEnd.
    destruct (nearRect _ _); [|same_ledger]. same_ledger.
    rewrite andb_true_r. intros ->. reflexivity.
  - injection H as <- _. destruct anchors; same_ledger.
  - take_fst H. unfold spawnIon.
    destruct (negb (isAnodeConnected s) || negb (isCathodeConnected s)) eqn:Hcirc;
      [same_ledger|].
    destruct (anodeMass s <=? 10)%Z eqn:Hm; [same_ledger|].
    destruct (5 <=? _)%nat; [same_ledger|].
    apply orb_false_iff in Hcirc. destruct Hcirc as [H1 H2].
    apply negb_false_iff in H1, H2. apply Z.leb_gt in Hm.
    unfold isCircuitComplete. cbn. rewrite H1, H2.
    repeat split; auto with zarith. right. repeat split; auto. now exists now_ion.
  - take_fst H. unfold handleIonDragEnd.
    destruct (outsideBounds _ _); [same_ledger|].
    destruct (insideRect _ _ && existsb isWaiting (electrons s)) eqn:Hacc;
      [|destruct (insideRect _ _ && negb _); same_ledger].
    apply andb_true_iff in Hacc. destruct Hacc as [_ Hw].
    unfold isCircuitComplete. cbn. repeat split; auto with zarith.
    left. split; [reflexivity|]. right. now exists i.
  - unfold handleElectronDrag in H.
    destruct svgRect as [r|]; [|injection H as <- _; same_ledger].
    destruct (map_throwing _ _); [|discriminate]. injection H as <- _. same_ledger.
  - unfold svgPointerMove in H.
    destruct (find _ _); [|injection H as <- _; same_ledger].
    destruct (0 <? _)%nat; [|injection H as <- _; same_ledger].
    destruct (getProgressFromDrag _ _ _ _); [|discriminate].
    destruct (getPointOnPath _ _); [|discriminate]. injection H as <- _. same_ledger.
  - take_fst H. unfold handleElectronDragEnd.
    destruct (find _ _); [|same_ledger].
    destruct (Segment_eqb _ anode_wire && _); [same_ledger|].
    destruct (Segment_eqb _ cathode_wire && _); same_ledger.
  - injection H as <- _. same_ledger.
  - left. injection H as <- _. split; reflexivity.
Qed.

Lemma handle_effect ev (s s' : State) out :
  handle ev s = Some (s', out) ->
  (ev = ResetGame /\ s' = resetGame s)
  \/ (isReset ev = false
      /\ cathodeMass s' = cathodeMass s /\ platedCount s' = platedCount s
      /\ (ionResetKey s <= ionResetKey s')%Z
      /\ (isAnodeConnected s = true -> isAnodeConnected s' = true)
      /\ (isCathodeConnected s = true -> isCathodeConnected s' = true)
      /\ (isCircuitComplete s' = false -> isCircuitComplete s = false)
      /\ ((anodeMass s' = anodeMass s
           /\ (ions s' = ions s
               \/ exists i,
                    ions s' = map (fun p => if (id p =? i)%string then with_status waiting p else p)
                                  (ions s)
                    /\ existsb isWaiting (electrons s) = true
                    /\ electrons s' = electrons s))
          \/ (isCircuitComplete s = true /\ (10 < anodeMass s)%Z
              /\ anodeMass s' = (anodeMass s - MASS_PER_UNIT)%Z
              /\ exists now, ions s' = ions s ++ [newIon now]))).
Proof.
  intros H.
  destruct (handle_basic ev s s' out H) as (ev' & H' & Hb & [-> | (i & moves & -> & Hr)]);
    [now apply (handle_effect_basic ev s s' out)|].
  destruct (handle_effect_basic ev' s s' out Hb H') as [[-> _] | (_ & R)]; [discriminate Hr|].
  right. split; [reflexivity | exact R].
Qed.

(** ** The ledger *)

(** Removal by id takes at least the first [n] waiting particles off the
    list, whether ids are distinct or not. *)
Lemma removed_by_id_length (used : list string) (l : list Particle) : forall n,
  (forall p, In p (firstn n (filter isWaiting l)) -> In (id p) used) ->
  (List.length (filter (fun p => negb (includes used (id p))) l)
   + Nat.min n (List.length (filter isWaiting l)) <= List.length l)%nat.
Proof.
  induction l as [|a l IH]; intros n Hused; [simpl; lia|].
  simpl in *. destruct (isWaiting a) eqn:Hw.
  - destruct n as [|n].
    + simpl. pose proof (filter_length_le (fun p => negb (includes used (id p))) l).
      destruct (negb _); simpl; lia.
    + simpl in Hused.
      assert (includes used (id a) = true) as -> by (apply includes_In, Hused; now left).
      simpl. specialize (IH n (fun p Hp => Hused p (or_intror Hp))). lia.
  - specialize (IH n Hused). destruct (negb _); simpl; lia.
Qed.

Lemma pairingEffect_ions_length (s : State) :
  (List.length (ions (fst (pairingEffect s))) + pairs s <= List.length (ions s))%nat.
Proof.
  destruct (pairs s) as [|k] eqn:Hp.
  - rewrite pairingEffect_unpaired by exact Hp. simpl. lia.
  - rewrite pairingEffect_paired by lia. cbv zeta. rewrite Hp.
    pose proof (removed_by_id_length
      (map id (firstn (S k) (filter isWaiting (ions s)))) (ions s) (S k)) as H.
    assert (Nat.min (S k) (List.length (filter isWaiting (ions s))) = S k) as E
      by (unfold pairs in Hp; lia).
    rewrite E in H.
    destruct (_ <=? _)%Z; cbn [fst ions setShowSuccess setPlatedCount
      setCathodeMass setElectrons setIons]; apply H; intros p Hin; now apply in_map.
Qed.

Lemma pairingEffect_ledger_ok (s : State) : ledger_ok s -> ledger_ok (fst (pairingEffect s)).
Proof.
  intros (k & Hk & Ha & Hc & Hp & Hn).
  destruct (pairingEffect_ledger s) as (Ec & Ep & Ea).
  pose proof (pairingEffect_ions_length s) as Hl.
  exists k. rewrite Ec, Ep, Ea. unfold MASS_PER_UNIT in *. repeat split; try lia.
Qed.

Lemma handle_ledger_ok ev (s s' : State) out :
  ledger_ok s -> handle ev s = Some (s', out) -> ledger_ok s'.
Proof.
  intros (k & Hk & Ha & Hc & Hp & Hn) H. apply handle_effect in H.
  destruct H as [[_ ->] | (_ & Ec & Ep & _ & _ & _ & _ & H)].
  - exists 0%Z. cbn. repeat split; lia.
  - destruct H as [(Ea & [Ei | (i & Ei & _)]) | (_ & Hm & Ea & now & Ei)].
    + exists k. rewrite Ea, Ec, Ep, Ei. repeat split; try lia; assumption.
    + exists k. rewrite Ea, Ec, Ep, Ei, length_map. repeat split; try lia; assumption.
    + exists (k + 1)%Z. rewrite Ea, Ec, Ep, Ei, length_app.
      unfold ANODE_START_MASS, MASS_PER_UNIT in *. simpl List.length.
      repeat split; try lia.
Qed.

Lemma reachable_ledger_ok (s : State) : reachable s -> ledger_ok s.
Proof.
  induction 1 as [|s ev s' out _ IH Hstep].
  - exists 0%Z. cbn. repeat split; lia.
  - unfold step in Hstep. destruct (handle ev s) as [[s1 out1]|] eqn:H; [|discriminate].
    apply (handle_ledger_ok _ _ _ _ IH) in H. apply pairingEffect_ledger_ok in H.
    destruct (pairingEffect s1) as [s2 out2]. now injection Hstep as <- _.
Qed.

(** X1.  The ledger of every reachable state.  With [spawned] the number
    of successful clicks on the anode since the last reset, at most 8: the
    anode weighs [50 - 5 * spawned], so between 10 and 50; the cathode weighs
    [25 + 5 * platedCount]; the plated ions and the ions in solution are
    together at most [spawned], so [platedCount] is between 0 and 8, the
    cathode weighs at most 65 and anode, cathode and ions in solution never
    weigh more than the 75 of the start: silver is lost at worst, never
    made. *)
Theorem ledger_bounds (s : State) :
  reachable s ->
  (exists spawned : Z,
      (0 <= spawned <= 8)%Z
      /\ anodeMass s = (50 - 5 * spawned)%Z
      /\ (platedCount s + Z.of_nat (List.length (ions s)) <= spawned)%Z)
  /\ cathodeMass s = (25 + 5 * platedCount s)%Z
  /\ (10 <= anodeMass s <= 50)%Z
  /\ (0 <= platedCount s <= 8)%Z
  /\ (25 <= cathodeMass s <= 65)%Z
  /\ (totalMass s <= 75)%Z.
Proof.
  intros Hr. destruct (reachable_ledger_ok s Hr) as (k & Hk & Ha & Hc & Hp & Hn).
  unfold totalMass, ANODE_START_MASS, CATHODE_START_MASS, MASS_PER_UNIT in *.
  split; [exists k; repeat split; lia|]. repeat split; lia.
Qed.

(** After eight plating cycles: 10 grams on the anode, 65 on the cathode,
    eight ions plated. *)
Lemma ledger_bounds_witness :
  (10 <= anodeMass (after Page.eightCycles) <= 50)%Z
  /\ (0 <= platedCount (after Page.eightCycles) <= 8)%Z
  /\ (25 <= cathodeMass (after Page.eightCycles) <= 65)%Z
  /\ (anodeMass (after Page.eightCycles), cathodeMass (after Page.eightCycles),
      platedCount (after Page.eightCycles)) = (10, 65, 8)%Z.
Proof.
  pose proof (ledger_bounds (after Page.eightCycles) (after_reachable Page.eightCycles))
    as (_ & _ & Ha & Hp & Hc & _).
  split; [exact Ha | split; [exact Hp | split; [exact Hc | vm_compute; reflexivity]]].
Defined.

Lemma step_ledger_monotone ev (s s' : State) out :
  step ev s = Some (s', out) -> isReset ev = false ->
  (anodeMass s' = anodeMass s \/ anodeMass s' = (anodeMass s - 5)%Z)
  /\ (platedCount s <= platedCount s')%Z
  /\ cathodeMass s' = (cathodeMass s + 5 * (platedCount s' - platedCount s))%Z
  /\ (ionResetKey s <= ionResetKey s')%Z.
Proof.
  unfold step. destruct (handle ev s) as [[s1 out1]|] eqn:H; [|discriminate].
  intros Hs Hev. apply handle_effect in H.
  destruct H as [[-> _] | (_ & Ec & Ep & Hk & _ & _ & _ & Ha)]; [discriminate|].
  destruct (pairingEffect_ledger s1) as (Ec' & Ep' & Ea').
  destruct (pairingEffect_frame s1) as (_ & _ & _ & Ek' & _).
  destruct (pairingEffect s1) as [s2 out2]. injection Hs as <- _. cbn [fst] in *.
  rewrite Ec', Ep', Ea', Ek', Ec, Ep. unfold MASS_PER_UNIT in *.
  repeat split; lia.
Qed.

(** X2.  Between two resets the ledger only moves one way.  Over any run
    of events without a reset: the anode does not gain mass and loses it in
    units of 5, the plated count does not go down, the cathode gains exactly
    5 per ion plated during the run, and the key that resets the positions
    of the ions does not go down. *)
Theorem ledger_monotone_between_resets (evs : list Event) : forall (s s' : State) out,
  run evs s = Some (s', out) ->
  forallb (fun ev => negb (isReset ev)) evs = true ->
  (exists spawned : nat,
      (spawned <= List.length evs)%nat /\ anodeMass s' = (anodeMass s - 5 * Z.of_nat spawned)%Z)
  /\ (platedCount s <= platedCount s')%Z
  /\ cathodeMass s' = (cathodeMass s + 5 * (platedCount s' - platedCount s))%Z
  /\ (ionResetKey s <= ionResetKey s')%Z.
Proof.
  induction evs as [|ev evs IH]; intros s s' out Hrun Hevs;
    cbn [run forallb List.length] in *.
  - injection Hrun as <- _. split; [exists 0%nat; split; lia|]. lia.
  - apply andb_true_iff in Hevs. destruct Hevs as [Hev Hevs]. apply negb_true_iff in Hev.
    destruct (step ev s) as [[s1 out1]|] eqn:Hstep; [|discriminate].
    destruct (run evs s1) as [[s2 out2]|] eqn:Hrest; [|discriminate].
    injection Hrun as <- _.
    destruct (step_ledger_monotone _ _ _ _ Hstep Hev) as (Ha & Hp & Hc & Hk).
    destruct (IH _ _ _ Hrest Hevs) as ((n & Hn & Ha') & Hp' & Hc' & Hk').
    split; [|lia].
    destruct Ha as [Ha | Ha]; [exists n | exists (S n)]; split; lia.
Qed.

(** Three clicks on the anode after the wires are connected: 15 grams off
    the anode, nothing plated yet. *)
Lemma ledger_monotone_between_resets_witness :
  (exists spawned : nat,
      (spawned <= 6)%nat
      /\ anodeMass (after Page.threeSpawns) = (50 - 5 * Z.of_nat spawned)%Z)
  /\ (0 <= platedCount (after Page.threeSpawns))%Z
  /\ cathodeMass (after Page.threeSpawns)
     = (25 + 5 * (platedCount (after Page.threeSpawns) - 0))%Z
  /\ (0 <= ionResetKey (after Page.threeSpawns))%Z.
Proof.
  apply (ledger_monotone_between_resets Page.threeSpawns initialState
           (after Page.threeSpawns) (feedbackOf Page.threeSpawns)).
  - vm_compute. reflexivity.
  - vm_compute. reflexivity.
Defined.

(** ** The circuit *)

Lemma blank_pairingEffect (s : State) : blank s -> pairingEffect s = (s, []).
Proof. intros (Hi & _). unfold pairingEffect. now rewrite Hi. Qed.

Lemma handle_electrons_nil ev (s s' : State) out :
  electrons s = [] -> isCircuitComplete s = false -> handle ev s = Some (s', out) ->
  isReset ev = false -> electrons s' = [].
Proof.
  intros He Hc H Hev.
  assert (exists ev', handle ev' s = Some (s', out) /\ isReset ev' = false
                      /\ match ev' with SvgPointerMoves _ _ => False | _ => True end)
    as (ev' & H' & Hev' & Hbasic).
  { destruct (handle_basic ev s s' out H) as (ev' & H' & Hb & [E | (i & moves & _ & Hr)]);
      exists ev'; (split; [exact H' | split; [|exact Hb]]); [now rewrite E | exact Hr]. }
  clear H Hev ev. rename ev' into ev, H' into H, Hev' into Hev.
  destruct ev; simpl in H; try discriminate Hev; [..|destruct Hbasic].
  - take_fst H. unfold anodeWireDragEnd. now destruct (nearRect _ _).
  - take_fst H. unfold cathodeWireDragEnd. now destruct (nearRect _ _).
  - injection H as <- _. now destruct anchors.
  - take_fst H. unfold spawnIon, isCircuitComplete in *.
    destruct (isAnodeConnected s), (isCathodeConnected s); try discriminate Hc; exact He.
  - take_fst H. unfold handleIonDragEnd. destruct (outsideBounds _ _); [exact He|].
    destruct (insideRect _ _ && existsb _ _); [exact He|].
    now destruct (insideRect _ _ && negb _).
  - unfold handleElectronDrag in H. rewrite He in H.
    destruct svgRect; injection H as <- _; [reflexivity | exact He].
  - unfold svgPointerMove in H. rewrite He in H. injection H as <- _. exact He.
  - take_fst H. unfold handleElectronDragEnd. now rewrite He.
  - injection H as <- _. exact He.
Qed.

Lemma reachable_blank (s : State) : reachable s -> isCircuitComplete s = false -> blank s.
Proof.
  induction 1 as [|s ev s' out _ IH Hstep]; intros Hc; [repeat split|].
  unfold step in Hstep. destruct (handle ev s) as [[s1 out1]|] eqn:H; [|discriminate].
  assert (isCircuitComplete s1 = false -> blank s1) as Hb.
  { intros Hc1. pose proof H as H'. apply handle_effect in H.
    destruct H as [[_ ->] | (Hev & Ec & Ep & _ & _ & _ & Hcc & Ha)]; [repeat split|].
    specialize (Hcc Hc1). destruct (IH Hcc) as (Hi & He & Hma & Hmc & Hp).
    pose proof (handle_electrons_nil _ _ _ _ He Hcc H' Hev) as He'.
    unfold blank. rewrite Ec, Ep, He'.
    destruct Ha as [(Ea & [Ei | (i & Ei & _)]) | (Hcomp & _)]; [| |congruence];
      rewrite Ea, Ei, ?Hi; repeat split; auto. }
  destruct (pairingEffect_frame s1) as (_ & Hf1 & Hf2 & _).
  destruct (isCircuitComplete s1) eqn:Hc1.
  - exfalso. destruct (pairingEffect s1) as [s2 out2]. injection Hstep as <- _.
    cbn [fst] in *. unfold isCircuitComplete in *. rewrite Hf1, Hf2 in Hc. congruence.
  - rewrite (blank_pairingEffect s1 (Hb eq_refl)) in Hstep. injection Hstep as <- _.
    now apply Hb.
Qed.

(** X3.  Nothing happens before the circuit is closed.  In every reachable
    state in which one of the two wires is not connected, no ion and no
    electron exists and the ledger is that of the first render (50 grams on
    the anode, 25 on the cathode, nothing plated); a click on the anode is
    answered by the [circuitOpen] toast and changes nothing. *)
Theorem open_circuit_is_blank (s : State) :
  reachable s -> isCircuitComplete s = false ->
  ions s = [] /\ electrons s = []
  /\ anodeMass s = 50%Z /\ cathodeMass s = 25%Z /\ platedCount s = 0%Z
  /\ forall now_ion now_electron,
       spawnIon now_ion now_electron s = (s, [sound playError; toast circuitOpen]).
Proof.
  intros Hr Hc. destruct (reachable_blank s Hr Hc) as (Hi & He & Ha & Hm & Hp).
  repeat split; try assumption. intros now_ion now_electron.
  unfold spawnIon, isCircuitComplete in *.
  now destruct (isAnodeConnected s), (isCathodeConnected s).
Qed.

(** Only the anode wire is connected: a click on the anode is refused. *)
Lemma open_circuit_is_blank_witness :
  isAnodeConnected (after [AnodeWireDragEnd (Point.mk 280 300) (Some Page.anodeRect)]) = true
  /\ spawnIon 1000 1000 (after [AnodeWireDragEnd (Point.mk 280 300) (Some Page.anodeRect)])
     = (after [AnodeWireDragEnd (Point.mk 280 300) (Some Page.anodeRect)],
        [sound playError; toast circuitOpen]).
Proof.
  split; [vm_compute; reflexivity|].
  apply (open_circuit_is_blank (after [AnodeWireDragEnd (Point.mk 280 300) (Some Page.anodeRect)])).
  - apply after_reachable.
  - vm_compute. reflexivity.
Defined.

Lemma step_connections ev (s s' : State) out :
  step ev s = Some (s', out) -> isReset ev = false ->
  (isAnodeConnected s = true -> isAnodeConnected s' = true)
  /\ (isCathodeConnected s = true -> isCathodeConnected s' = true).
Proof.
  unfold step. destruct (handle ev s) as [[s1 out1]|] eqn:H; [|discriminate].
  intros Hs Hev. apply handle_effect in H.
  destruct H as [[-> _] | (_ & _ & _ & _ & Ha & Hc & _)]; [discriminate|].
  destruct (pairingEffect_frame s1) as (_ & Hf1 & Hf2 & _).
  destruct (pairingEffect s1) as [s2 out2]. injection Hs as <- _. cbn [fst] in *.
  rewrite Hf1, Hf2. now split.
Qed.

(** X4.  A connection is a latch.  Over any run of events without a reset,
    a wire that is connected stays connected, whatever is dragged or dropped
    where: once the circuit is complete it stays complete until
    [resetGame]. *)
Theorem connections_latch (evs : list Event) : forall (s s' : State) out,
  run evs s = Some (s', out) ->
  forallb (fun ev => negb (isReset ev)) evs = true ->
  (isAnodeConnected s = true -> isAnodeConnected s' = true)
  /\ (isCathodeConnected s = true -> isCathodeConnected s' = true)
  /\ (isCircuitComplete s = true -> isCircuitComplete s' = true).
Proof.
  assert (forall evs s s' out, run evs s = Some (s', out) ->
            forallb (fun ev => negb (isReset ev)) evs = true ->
            (isAnodeConnected s = true -> isAnodeConnected s' = true)
            /\ (isCathodeConnected s = true -> isCathodeConnected s' = true)) as A.
  { clear evs. induction evs as [|ev evs IH]; intros s s' out Hrun Hevs; cbn [run forallb] in *.
    - injection Hrun as <- _. now split.
    - apply andb_true_iff in Hevs. destruct Hevs as [Hev Hevs]. apply negb_true_iff in Hev.
      destruct (step ev s) as [[s1 out1]|] eqn:Hstep; [|discriminate].
      destruct (run evs s1) as [[s2 out2]|] eqn:Hrest; [|discriminate].
      injection Hrun as <- _.
      destruct (step_connections _ _ _ _ Hstep Hev) as [Ha Hc].
      destruct (IH _ _ _ Hrest Hevs) as [Ha' Hc']. split; auto. }
  intros s s' out Hrun Hevs. destruct (A _ _ _ _ Hrun Hevs) as [Ha Hc].
  repeat split; auto. unfold isCircuitComplete. rewrite !andb_true_iff.
  intros [H1 H2]. auto.
Qed.

(** The wires are connected, then a whole plating cycle is played, with a
    wire handle dropped far from its electrode in between: the circuit is
    still complete. *)
Lemma connections_latch_witness :
  isCircuitComplete
    (after (Page.connect
            ++ [AnodeWireDragEnd (Point.mk 0 0) (Some Page.anodeRect)] ++ Page.cycle 1000))
  = true.
Proof.
  apply (connections_latch
           ([AnodeWireDragEnd (Point.mk 0 0) (Some Page.anodeRect)] ++ Page.cycle 1000)
           (after Page.connect)
           (after (Page.connect
                   ++ [AnodeWireDragEnd (Point.mk 0 0) (Some Page.anodeRect)] ++ Page.cycle 1000))
           (match run ([AnodeWireDragEnd (Point.mk 0 0) (Some Page.anodeRect)] ++ Page.cycle 1000)
                        (after Page.connect) with
            | Some (_, out) => out
            | None => []
            end)).
  - vm_compute. reflexivity.
  - vm_compute. reflexivity.
  - vm_compute. reflexivity.
Defined.

(** ** The registry *)

Lemma blank_reset (s : State) : blank (resetGame s).
Proof. repeat split. Qed.

(** The ions after a handler and the pairing effect are in solution again:
    the ions that an accepted drop made wait all carry the id of the drop,
    and the pairing effect removes every ion with the id of a paired ion. *)
Lemma dropped_ions_are_paired (s1 : State) (i : string) (l : list Particle) :
  Forall ion_ok l ->
  ions s1 = map (fun p => if (id p =? i)%string then with_status waiting p else p) l ->
  existsb isWaiting (electrons s1) = true ->
  Forall ion_ok (ions (fst (pairingEffect s1))).
Proof.
  intros Hl Ei Hw.
  assert (forall q, In q (ions s1) -> ion_ok q \/ (status q = waiting /\ id q = i)) as Hq.
  { intros q Hin. rewrite Ei in Hin. apply in_map_iff in Hin. destruct Hin as (p & <- & Hp).
    rewrite Forall_forall in Hl. destruct (id p =? i)%string eqn:E; [right | left; auto].
    apply String.eqb_eq in E. now split. }
  assert (forall q, In q (ions s1) -> isWaiting q = true -> id q = i) as Hwi.
  { intros q Hin Hwq. destruct (Hq q Hin) as [[_ Ha] | [_ Hid]]; [|exact Hid].
    unfold isWaiting in Hwq. rewrite Ha in Hwq. discriminate. }
  destruct (filter isWaiting (ions s1)) as [|h W] eqn:EW.
  - rewrite pairingEffect_unpaired by (unfold pairs; rewrite EW; reflexivity).
    rewrite Forall_forall. intros q Hin. destruct (Hq q Hin) as [Hok | [Hst _]]; [exact Hok|].
    exfalso. rewrite filter_nil_iff in EW. specialize (EW q Hin).
    unfold isWaiting in EW. rewrite Hst in EW. discriminate.
  - assert (0 < pairs s1)%nat as Hp.
    { unfold pairs. rewrite EW. apply existsb_exists in Hw. destruct Hw as (e & He & Hwe).
      assert (In e (filter isWaiting (electrons s1))) as Hin by (apply filter_In; now split).
      destruct (filter isWaiting (electrons s1)); [destruct Hin | simpl; lia]. }
    assert (id h = i) as Hh.
    { assert (In h (filter isWaiting (ions s1))) as Hin by (rewrite EW; now left).
      apply filter_In in Hin. destruct Hin. now apply Hwi. }
    rewrite pairingEffect_paired by exact Hp. cbv zeta. rewrite EW.
    destruct (pairs s1) as [|k]; [lia|].
    assert (Forall ion_ok
              (filter (fun p => negb (includes (map id (firstn (S k) (h :: W))) (id p)))
                      (ions s1))) as Hres.
    { rewrite Forall_forall. intros q Hin. apply filter_In in Hin. destruct Hin as [Hin Hn].
      destruct (Hq q Hin) as [Hok | [_ Hid]]; [exact Hok|]. exfalso.
      apply negb_true_iff in Hn. simpl in Hn. rewrite Hid, Hh, String.eqb_refl in Hn.
      discriminate. }
    destruct (_ <=? _)%Z; exact Hres.
Qed.

Lemma step_ions_ok ev (s s' : State) out :
  Forall ion_ok (ions s) -> step ev s = Some (s', out) -> Forall ion_ok (ions s').
Proof.
  unfold step. destruct (handle ev s) as [[s1 out1]|] eqn:H; [|discriminate].
  intros Hok Hs.
  assert (Forall ion_ok (ions (fst (pairingEffect s1)))) as Hres.
  { pose proof H as H'. apply handle_effect in H.
    destruct (pairingEffect_frame s1) as (_ & _ & _ & _ & _ & _ & [f Ef] & _).
    destruct H as [[_ ->] | (_ & _ & _ & _ & _ & _ & _ & Ha)].
    - rewrite blank_pairingEffect by apply blank_reset. constructor.
    - destruct Ha as [(_ & [Ei | (i & Ei & Hw & Ee)]) | (_ & _ & _ & now & Ei)].
      + rewrite Ef, Ei. now apply Forall_filter.
      + apply (dropped_ions_are_paired s1 i (ions s)); [exact Hok | exact Ei | now rewrite Ee].
      + rewrite Ef, Ei. apply Forall_filter, Forall_app. split; [exact Hok|].
        constructor; [|constructor]. repeat split. now exists (JS.toString now). }
  destruct (pairingEffect s1) as [s2 out2]. now injection Hs as <- _.
Qed.

Lemma reachable_ions_ok (s : State) : reachable s -> Forall ion_ok (ions s).
Proof.
  induction 1 as [|s ev s' out _ IH Hstep]; [constructor|].
  eapply step_ions_ok; eassumption.
Qed.

(** The ions that a handler leaves to the render that precedes the pairing
    effect: only the drop of an ion makes ions wait, only a click on the
    anode adds one, only the reset removes them. *)
Lemma svgPointerMove_ions (i : string) client currentSvg (rendered prev s' : State) :
  svgPointerMove i client currentSvg rendered prev = Some s' -> ions s' = ions prev.
Proof.
  unfold svgPointerMove. destruct (find _ _); [|now intros [= <-]].
  destruct (0 <? _)%nat; [|now intros [= <-]].
  destruct (getProgressFromDrag _ _ _ _); [|discriminate].
  destruct (getPointOnPath _ _); [|discriminate]. now intros [= <-].
Qed.

Lemma handle_ions ev (s s1 : State) out :
  handle ev s = Some (s1, out) ->
  match ev with
  | IonDragEnd i _ _ _ =>
      ions s1 = ions s
      \/ (ions s1 = map (fun p => if (id p =? i)%string then with_status waiting p else p) (ions s)
          /\ existsb isWaiting (electrons s) = true /\ electrons s1 = electrons s)
  | SpawnIon now _ => ions s1 = ions s \/ ions s1 = ions s ++ [newIon now]
  | ResetGame => ions s1 = []
  | _ => ions s1 = ions s
  end.
Proof.
  intros H. destruct ev as [? ?|? ?|a|? ?|? ? ? ?|? ? r|? ? ?|? ?|?| |i moves]; simpl in H.
  - take_fst H. unfold anodeWireDragEnd. now destruct (nearRect _ _).
  - take_fst H. unfold cathodeWireDragEnd. now destruct (nearRect _ _).
  - injection H as <- _. now destruct a.
  - take_fst H. unfold spawnIon.
    destruct (negb (isAnodeConnected s) || negb (isCathodeConnected s)); [now left|].
    destruct (anodeMass s <=? 10)%Z; [now left|].
    destruct (5 <=? _)%nat; [now left | now right].
  - take_fst H. unfold handleIonDragEnd.
    destruct (outsideBounds _ _); [now left|].
    destruct (insideRect _ _ && existsb isWaiting (electrons s)) eqn:Hacc;
      [|destruct (insideRect _ _ && negb _); now left].
    apply andb_true_iff in Hacc. destruct Hacc as [_ Hw]. right. now repeat split.
  - unfold handleElectronDrag in H. destruct r; [|now injection H as <- _].
    destruct (map_throwing _ _); [|discriminate]. now injection H as <- _.
  - destruct (svgPointerMove _ _ _ s s) eqn:E; [|discriminate]. injection H as <- _.
    now apply svgPointerMove_ions in E.
  - take_fst H. unfold handleElectronDragEnd. destruct (find _ _); [|reflexivity].
    destruct (Segment_eqb _ anode_wire && _); [reflexivity|].
    now destruct (Segment_eqb _ cathode_wire && _).
  - now injection H as <- _.
  - now injection H as <- _.
  - destruct (svgPointerMoves i moves s s) eqn:E; [|discriminate]. injection H as <- _.
    destruct (svgPointerMoves_last _ _ _ _ E) as [-> | (client & currentSvg & E')];
      [reflexivity | now apply svgPointerMove_ions in E'].
Qed.

(** X5.  The ions between two events and the ions of the render in
    between.  A reachable state is the state that the pairing effect leaves:
    there every ion is in solution, the ion that [spawnIon] made (type [ion],
    an id [ion-...], no wire and no progress) with status [active], and the
    pairing effect, run again, changes nothing.  The state that a handler
    leaves is rendered before the pairing effect runs: there every ion is the
    ion that [spawnIon] made, active or waiting; ions wait only after the
    drop of an ion, they all carry the id of the drop, an electron waits
    too, and the pairing effect has something to do; after it no ion waits.
    So a waiting ion is on the page for the one render between an accepted
    drop and its pairing. *)
Theorem ions_are_in_solution (s : State) :
  reachable s ->
  (Forall (fun p => (exists t, id p = "ion-" ++ t)%string /\ type p = ion /\ status p = active
                    /\ segment p = None /\ progress p = None) (ions s)
   /\ filter isWaiting (ions s) = []
   /\ pairingEffect s = (s, []))
  /\ (forall ev s1 out,
        handle ev s = Some (s1, out) ->
        Forall (fun p => (exists t, id p = "ion-" ++ t)%string /\ type p = ion
                         /\ (status p = active \/ status p = waiting)
                         /\ segment p = None /\ progress p = None) (ions s1)
        /\ (filter isWaiting (ions s1) <> [] ->
              exists i dropPoint cathodeRect beaker,
                ev = IonDragEnd i dropPoint cathodeRect beaker
                /\ Forall (fun p => id p = i) (filter isWaiting (ions s1))
                /\ existsb isWaiting (electrons s1) = true
                /\ (0 < pairs s1)%nat
                /\ snd (pairingEffect s1) <> [])
        /\ filter isWaiting (ions (fst (pairingEffect s1))) = []
        /\ (forall p, In p (ions (fst (pairingEffect s1))) -> In p (ions s1) /\ status p = active)).
Proof.
  intros Hr. pose proof (reachable_ions_ok s Hr) as Hok.
  assert (forall s0, Forall ion_ok (ions s0) -> filter isWaiting (ions s0) = []) as Hnone.
  { intros s0 H0. apply filter_nil_iff. intros p Hin. rewrite Forall_forall in H0.
    destruct (H0 p Hin) as [_ Hst]. unfold isWaiting. now rewrite Hst. }
  split.
  - split; [|split; [now apply Hnone|]].
    + eapply Forall_impl; [|exact Hok]. intros p [(Hid & Ht & Hs & Hp & _) Hst]. auto.
    + apply pairingEffect_unpaired. unfold pairs. now rewrite (Hnone s Hok).
  - intros ev s1 out H.
    assert (reachable (fst (pairingEffect s1))) as Hr1.
    { apply (reachable_step s ev _ (out ++ snd (pairingEffect s1)) Hr).
      unfold step. rewrite H. now destruct (pairingEffect s1). }
    pose proof (reachable_ions_ok _ Hr1) as Hok1.
    assert (ions s1 = ions s \/ ions s1 = []
            \/ (exists now, ions s1 = ions s ++ [newIon now])
            \/ exists i dropPoint cathodeRect beaker,
                 ev = IonDragEnd i dropPoint cathodeRect beaker
                 /\ ions s1 = map (fun p => if (id p =? i)%string then with_status waiting p
                                            else p) (ions s)
                 /\ existsb isWaiting (electrons s1) = true) as Hcases.
    { pose proof (handle_ions ev s s1 out H) as Hi.
      destruct ev as [? ?|? ?|?|now ?|i d c b|? ? ?|? ? ?|? ?|?| |? ?]; auto.
      - destruct Hi as [Hi | Hi]; [now left | right; right; left; now exists now].
      - destruct Hi as [Hi | (Hi & Hw & He)]; [now left|].
        right; right; right. exists i, d, c, b. rewrite He. now repeat split. }
    assert (Forall ion_ok (ions s1) ->
            Forall (fun p => (exists t, id p = "ion-" ++ t)%string /\ type p = ion
                             /\ (status p = active \/ status p = waiting)
                             /\ segment p = None /\ progress p = None) (ions s1)) as Hweak.
    { intros H1. eapply Forall_impl; [|exact H1].
      intros p [(Hid & Ht & Hs & Hp & _) Hst]. auto. }
    assert (Forall ion_ok (ions s ++ [newIon 0]) -> True) as _ by trivial.
    split; [|split; [|split; [now apply Hnone|]]].
    + destruct Hcases as [E | [E | [(now & E) | (i & d & c & b & _ & E & _)]]].
      * apply Hweak. now rewrite E.
      * rewrite E. constructor.
      * apply Hweak. rewrite E. apply Forall_app. split; [exact Hok|].
        constructor; [|constructor]. repeat split. now exists (JS.toString now).
      * rewrite E. rewrite Forall_forall. intros q Hin. apply in_map_iff in Hin.
        destruct Hin as (p & <- & Hp). rewrite Forall_forall in Hok.
        destruct (Hok p Hp) as [(Hid & Ht & Hs & Hpr & _) Hst].
        destruct (id p =? i)%string; cbn; auto 6.
    + intros Hw.
      destruct Hcases as [E | [E | [(now & E) | (i & d & c & b & Hev & E & Hwe)]]].
      * exfalso. apply Hw. apply Hnone. now rewrite E.
      * exfalso. apply Hw. now rewrite E.
      * exfalso. apply Hw. apply Hnone. rewrite E. apply Forall_app. split; [exact Hok|].
        constructor; [|constructor]. repeat split. now exists (JS.toString now).
      * exists i, d, c, b. split; [exact Hev|].
        assert (Forall (fun p => id p = i) (filter isWaiting (ions s1))) as Hid.
        { rewrite Forall_forall. intros q Hin. apply filter_In in Hin. destruct Hin as [Hin Hq].
          rewrite E in Hin. apply in_map_iff in Hin. destruct Hin as (p & <- & Hp).
          rewrite Forall_forall in Hok. destruct (Hok p Hp) as [_ Hst].
          destruct (id p =? i)%string eqn:Ei; [now apply String.eqb_eq in Ei|].
          unfold isWaiting in Hq. rewrite Hst in Hq. discriminate Hq. }
        assert (0 < pairs s1)%nat as Hp.
        { unfold pairs. apply existsb_exists in Hwe. destruct Hwe as (e & He & Hwe).
          assert (In e (filter isWaiting (electrons s1))) as Hin by (apply filter_In; now split).
          destruct (filter isWaiting (electrons s1)); [destruct Hin|].
          destruct (filter isWaiting (ions s1)); [now elim Hw | simpl; lia]. }
        split; [exact Hid|]. split; [exact Hwe|]. split; [exact Hp|].
        rewrite pairingEffect_paired by exact Hp. cbv zeta.
        destruct (_ <=? _)%Z; discriminate.
    + intros p Hin. split.
      * destruct (pairingEffect_frame s1) as (_ & _ & _ & _ & _ & _ & [f Ef] & _).
        rewrite Ef in Hin. apply filter_In in Hin. now destruct Hin.
      * rewrite Forall_forall in Hok1. now destruct (Hok1 p Hin).
Qed.

(** An electron waits at the cathode and the ion is dropped on the cathode:
    the handler leaves the ion waiting, the pairing effect that follows the
    render removes it and counts one atom. *)
Lemma ions_are_in_solution_witness :
  existsb isWaiting (electrons (after Page.electronWaits)) = true
  /\ map (fun p => (id p, status p)) (ions (after Page.electronWaits)) = [("ion-1000"%string, active)]
  /\ map (fun p => (id p, status p))
       (ions (fst (handleIonDragEnd "ion-1000" (Point.mk 700 300) (Some Page.cathodeRect)
                     (Some Page.beaker) (after Page.electronWaits))))
     = [("ion-1000"%string, waiting)]
  /\ filter isWaiting
       (ions (fst (pairingEffect
                     (fst (handleIonDragEnd "ion-1000" (Point.mk 700 300) (Some Page.cathodeRect)
                             (Some Page.beaker) (after Page.electronWaits)))))) = []
  /\ filter isWaiting (ions (after (Page.electronWaits ++ [Page.dropOnCathode "ion-1000"]))) = []
  /\ platedCount (after (Page.electronWaits ++ [Page.dropOnCathode "ion-1000"])) = 1%Z.
Proof.
  split; [vm_compute; reflexivity|]. split; [vm_compute; reflexivity|].
  split; [vm_compute; reflexivity|]. split; [|split; [|vm_compute; reflexivity]].
  - assert (handle (Page.dropOnCathode "ion-1000") (after Page.electronWaits)
            = Some (fst (handleIonDragEnd "ion-1000" (Point.mk 700 300) (Some Page.cathodeRect)
                           (Some Page.beaker) (after Page.electronWaits)),
                    [sound playSuccess])) as Hh by (vm_compute; reflexivity).
    destruct (proj2 (ions_are_in_solution (after Page.electronWaits) (after_reachable _))
                _ _ _ Hh) as (_ & _ & H & _).
    exact H.
  - destruct (proj1 (ions_are_in_solution
                       (after (Page.electronWaits ++ [Page.dropOnCathode "ion-1000"]))
                       (after_reachable _))) as (_ & H & _).
    exact H.
Defined.

Lemma advanced_kind (e e' : Particle) : advanced e e' -> electron_kind e -> electron_kind e'.
Proof. intros (_ & Ht & Hs & Hst & _). unfold electron_kind. now rewrite Ht, Hs, Hst. Qed.

Lemma Forall2_advanced_kind (l l' : list Particle) :
  Forall2 advanced l l' -> Forall electron_kind l -> Forall electron_kind l'.
Proof.
  induction 1 as [|e e' l l' He _ IH]; intros H; [constructor|].
  inversion H; subst. constructor; [eapply advanced_kind; eassumption | auto].
Qed.

Lemma Forall_map_if {A} (P : A -> Prop) (c : A -> bool) (g : A -> A) (l : list A) :
  (forall a, P a -> P (g a)) -> Forall P l -> Forall P (map (fun a => if c a then g a else a) l).
Proof.
  intros Hg H. induction H as [|a l Ha _ IH]; simpl; constructor; auto.
  destruct (c a); auto.
Qed.

Lemma handle_electron_kind ev (s s' : State) out :
  Forall electron_kind (electrons s) -> handle ev s = Some (s', out) ->
  Forall electron_kind (electrons s').
Proof.
  intros Hk H. basic_event ev H. destruct ev; simpl in H; [..|destruct Hbasic].
  - take_fst H. unfold anodeWireDragEnd. now destruct (nearRect _ _).
  - take_fst H. unfold cathodeWireDragEnd. now destruct (nearRect _ _).
  - injection H as <- _. now destruct anchors.
  - take_fst H. unfold spawnIon.
    destruct (_ || _); [exact Hk|]. destruct (_ <=? _)%Z; [exact Hk|].
    destruct (_ <=? _)%nat; [exact Hk|]. cbn.
    apply Forall_app. split; [exact Hk|]. constructor; [reflexivity | constructor].
  - take_fst H. unfold handleIonDragEnd. destruct (outsideBounds _ _); [exact Hk|].
    destruct (insideRect _ _ && existsb _ _); [exact Hk|].
    now destruct (insideRect _ _ && negb _).
  - destruct (handleElectronDrag _ _ _ _) as [s1|] eqn:H1; [|discriminate].
    injection H as <- _. apply handleElectronDrag_advanced in H1.
    eapply Forall2_advanced_kind; eassumption.
  - unfold svgPointerMove in H. destruct (find _ _); [|now injection H as <- _].
    destruct (0 <? _)%nat; [|now injection H as <- _].
    destruct (getProgressFromDrag _ _ _ _); [|discriminate].
    destruct (getPointOnPath _ _); [|discriminate]. injection H as <- _. cbn.
    apply Forall_map_if; [|exact Hk]. intros a Ha. exact Ha.
  - take_fst H. unfold handleElectronDragEnd. destruct (find _ _); [|exact Hk].
    destruct (Segment_eqb _ anode_wire && _).
    + cbn. apply Forall_app. split; [now apply Forall_filter|].
      constructor; [|constructor]. split; [reflexivity | discriminate].
    + destruct (Segment_eqb _ cathode_wire && _); [|exact Hk]. cbn.
      apply Forall_map_if; [|exact Hk]. intros a. unfold electron_kind. cbn.
      destruct (segment a) as [[]|]; auto. intros [Ht _]. split; [exact Ht | discriminate].
  - now injection H as <- _.
  - injection H as <- _. constructor.
Qed.

Lemma reachable_electron_kind (s : State) : reachable s -> Forall electron_kind (electrons s).
Proof.
  induction 1 as [|s ev s' out _ IH Hstep]; [constructor|].
  unfold step in Hstep. destruct (handle ev s) as [[s1 out1]|] eqn:H; [|discriminate].
  apply (handle_electron_kind _ _ _ _ IH) in H.
  destruct (pairingEffect_frame s1) as (_ & _ & _ & _ & _ & _ & _ & [f Ef]).
  destruct (pairingEffect s1) as [s2 out2]. injection Hstep as <- _. cbn [fst] in Ef.
  rewrite Ef. now apply Forall_filter.
Qed.

Lemma progress_values_range (v : float) :
  In v progress_values -> (0 <=? v) = true /\ (v <=? 1) = true.
Proof.
  intros [<- | [<- | H]]; [split; reflexivity | split; reflexivity | now apply drag_samples_range].
Qed.

Lemma reachable_electrons_wellformed (s : State) :
  reachable s -> Forall electron_wellformed (electrons s).
Proof.
  intros Hr. pose proof (reachable_electron_kind s Hr) as Hk.
  destruct (reachable_invariant s Hr) as (_ & _ & He & _).
  rewrite Forall_forall in *. intros e Hin.
  destruct (He e Hin) as [(v & Hv & Hin') Hseg]. specialize (Hk e Hin).
  unfold electron_kind in Hk. split.
  - exists v. destruct (progress_values_range v Hin'). auto.
  - destruct Hseg as [(Hs & Hid & Hst) | (Hs & Hid)]; rewrite Hs in Hk.
    + left. auto.
    + right. destruct Hk as [Ht Hp]. repeat split; auto.
      destruct (status e); auto. congruence.
Qed.

(** X6.  Every electron of a reachable state is well formed.  Its progress
    is a number between 0 and 1: 0, 1 or a sample of the drag loop.  On the
    anode wire it is an [anode_electron] with an id [ae-...] and it is
    active; on the cathode wire it is a [cathode_electron] with an id
    [ce-...], active or waiting.  No electron has another wire or none, and
    none is ever [plated]. *)
Theorem electrons_are_wellformed (s : State) (e : Particle) :
  reachable s -> In e (electrons s) ->
  (exists v, progress e = Some v /\ In v progress_values
             /\ (0 <=? v) = true /\ (v <=? 1) = true)
  /\ ((type e = anode_electron /\ segment e = Some anode_wire
       /\ (exists t, id e = "ae-" ++ t)%string /\ status e = active)
      \/ (type e = cathode_electron /\ segment e = Some cathode_wire
          /\ (exists t, id e = "ce-" ++ t)%string
          /\ (status e = active \/ status e = waiting))).
Proof.
  intros Hr Hin. pose proof (reachable_electrons_wellformed s Hr) as H.
  rewrite Forall_forall in H. exact (H e Hin).
Qed.

(** The electron that waits at the cathode after the two drags of a
    plating cycle. *)
Lemma electrons_are_wellformed_witness :
  electrons (after Page.electronWaits)
  = [ mkParticle "ce-1001" cathode_electron 700 295.20000000000033 waiting (Some cathode_wire)
        (Some 1) ]
  /\ ((exists v, Some 1 = Some v /\ In v progress_values
                 /\ (0 <=? v) = true /\ (v <=? 1) = true)
      /\ ((cathode_electron = anode_electron /\ Some cathode_wire = Some anode_wire
           /\ (exists t, "ce-1001" = "ae-" ++ t)%string /\ waiting = active)
          \/ (cathode_electron = cathode_electron /\ Some cathode_wire = Some cathode_wire
              /\ (exists t, "ce-1001" = "ce-" ++ t)%string
              /\ (waiting = active \/ waiting = waiting)))).
Proof.
  split; [vm_compute; reflexivity|].
  apply (electrons_are_wellformed (after Page.electronWaits)
           (mkParticle "ce-1001" cathode_electron 700 295.20000000000033 waiting
              (Some cathode_wire) (Some 1))).
  - apply after_reachable.
  - vm_compute. left. reflexivity.
Defined.

(** X7.  An id names particles of one kind.  In every reachable state no
    ion shares its id with an electron, and two electrons with the same id
    are of the same type and on the same wire: the colliding ids of one
    millisecond never mix ions with electrons, nor the electrons of the two
    wires. *)
Theorem ids_name_one_kind (s : State) :
  reachable s ->
  (forall p e, In p (ions s) -> In e (electrons s) -> id p <> id e)
  /\ (forall e1 e2, In e1 (electrons s) -> In e2 (electrons s) -> id e1 = id e2 ->
        type e1 = type e2 /\ segment e1 = segment e2).
Proof.
  intros Hr. pose proof (reachable_ions_ok s Hr) as Hi.
  pose proof (reachable_electrons_wellformed s Hr) as He.
  rewrite Forall_forall in Hi, He. split.
  - intros p e Hp Hin E. destruct (Hi p Hp) as [([t Ht] & _) _].
    destruct (He e Hin) as [_ [(_ & _ & [t' Ht'] & _) | (_ & _ & [t' Ht'] & _)]];
      rewrite E, Ht' in Ht; discriminate Ht.
  - intros e1 e2 H1 H2 E.
    destruct (He e1 H1) as [_ [(T1 & S1 & [t1 I1] & _) | (T1 & S1 & [t1 I1] & _)]];
      destruct (He e2 H2) as [_ [(T2 & S2 & [t2 I2] & _) | (T2 & S2 & [t2 I2] & _)]];
      try (split; congruence);
      exfalso; rewrite E, I2 in I1; discriminate I1.
Qed.

(** Two clicks on the anode within one millisecond: the two ions share an
    id, the two electrons share another. *)
Lemma ids_name_one_kind_witness :
  map id (ions (after Page.twoSpawnsSameMillisecond)) = ["ion-1000"; "ion-1000"]%string
  /\ map id (electrons (after Page.twoSpawnsSameMillisecond)) = ["ae-1000"; "ae-1000"]%string
  /\ ((forall p e, In p (ions (after Page.twoSpawnsSameMillisecond)) ->
                   In e (electrons (after Page.twoSpawnsSameMillisecond)) -> id p <> id e)
      /\ (forall e1 e2, In e1 (electrons (after Page.twoSpawnsSameMillisecond)) ->
                        In e2 (electrons (after Page.twoSpawnsSameMillisecond)) ->
                        id e1 = id e2 -> type e1 = type e2 /\ segment e1 = segment e2)).
Proof.
  split; [vm_compute; reflexivity|]. split; [vm_compute; reflexivity|].
  apply (ids_name_one_kind (after Page.twoSpawnsSameMillisecond)). apply after_reachable.
Defined.

(** ** No handler throws *)

(** X8.  No handler throws in a reachable state.  Whatever the event, its
    arguments and what it reads from the page, the handler and the pairing
    effect return, and so does every run of events: [getPointOnPath] is
    never read at an undefined waypoint, because an electron is dragged only
    along a wire of three waypoints and from a progress that the handlers
    stored. *)
Theorem no_event_throws (s : State) :
  reachable s ->
  (forall ev, exists s' out, step ev s = Some (s', out) /\ reachable s')
  /\ (forall evs, exists s' out, run evs s = Some (s', out) /\ reachable s').
Proof.
  intros Hr. split; [intros ev; now apply reachable_never_throws|].
  intros evs. revert s Hr. induction evs as [|ev evs IH]; intros s Hr; simpl.
  - now exists s, [].
  - destruct (reachable_never_throws ev s Hr) as (s1 & out1 & -> & Hr1).
    destruct (IH s1 Hr1) as (s2 & out2 & -> & Hr2). now exists s2, (out1 ++ out2).
Qed.

(** An electron is on the anode wire and the pointer moves while the [svg]
    has width and height 0: the coordinates of the drag are infinite, and
    the handler returns. *)
Lemma no_event_throws_witness :
  exists s' out,
    step (SvgPointerMove "ae-1000" (Point.mk (-50) 1e9) (DOMRect.mk 0 0 0 0))
         (after (Page.connect ++ [SpawnIon 1000 1000])) = Some (s', out)
    /\ reachable s'.
Proof.
  apply (proj1 (no_event_throws (after (Page.connect ++ [SpawnIon 1000 1000]))
                  (after_reachable _))).
Defined.

(** ** The wires *)

Lemma handle_wires ev (s s' : State) out :
  handle ev s = Some (s', out) ->
  (anodeWirePoints s' = anodeWirePoints s /\ cathodeWirePoints s' = cathodeWirePoints s)
  \/ exists a, s' = calculateWirePoints (Some a) s.
Proof.
  intros H. basic_event ev H. destruct ev; simpl in H; [..|destruct Hbasic].
  - take_fst H. unfold anodeWireDragEnd. destruct (nearRect _ _); left; now split.
  - take_fst H. unfold cathodeWireDragEnd. destruct (nearRect _ _); left; now split.
  - injection H as <- _. destruct anchors as [a|]; [right; now exists a | left; now split].
  - take_fst H. unfold spawnIon. destruct (_ || _); [left; now split|].
    destruct (_ <=? _)%Z; [left; now split|]. destruct (_ <=? _)%nat; left; now split.
  - take_fst H. unfold handleIonDragEnd. destruct (outsideBounds _ _); [left; now split|].
    destruct (insideRect _ _ && existsb _ _); [left; now split|].
    destruct (insideRect _ _ && negb _); left; now split.
  - unfold handleElectronDrag in H. destruct svgRect as [r|];
      [|injection H as <- _; left; now split].
    destruct (map_throwing _ _); [|discriminate]. injection H as <- _. left; now split.
  - unfold svgPointerMove in H. destruct (find _ _); [|injection H as <- _; left; now split].
    destruct (0 <? _)%nat; [|injection H as <- _; left; now split].
    destruct (getProgressFromDrag _ _ _ _); [|discriminate].
    destruct (getPointOnPath _ _); [|discriminate]. injection H as <- _. left; now split.
  - take_fst H. unfold handleElectronDragEnd. destruct (find _ _); [|left; now split].
    destruct (Segment_eqb _ anode_wire && _); [left; now split|].
    destruct (Segment_eqb _ cathode_wire && _); left; now split.
  - injection H as <- _. left; now split.
  - injection H as <- _. left; now split.
Qed.

Lemma reachable_wire_shape (s : State) : reachable s -> wire_shape s.
Proof.
  induction 1 as [|s ev s' out _ IH Hstep]; [left; now split|].
  unfold step in Hstep. destruct (handle ev s) as [[s1 out1]|] eqn:H; [|discriminate].
  destruct (pairingEffect_frame s1) as (_ & _ & _ & _ & F5 & F6 & _).
  destruct (pairingEffect s1) as [s2 out2]. injection Hstep as <- _. cbn [fst] in *.
  unfold wire_shape. rewrite F5, F6. apply handle_wires in H.
  destruct H as [[-> ->] | [a ->]]; [exact IH|]. right.
  exists (Anchors.anodeConnPos a), (Anchors.cathodeConnPos a),
    (Point.x (Anchors.plusPos a)), (Point.x (Anchors.minusPos a)),
    (JS.Math_min (Point.y (Anchors.plusPos a)) (Point.y (Anchors.minusPos a)) - 40).
  cbn. split; [now destruct (Anchors.anodeConnPos a) | now destruct (Anchors.cathodeConnPos a)].
Qed.

(** X9.  The two wires are laid out together.  In every reachable state
    either both wires have no waypoint, and then every electron is still at
    progress 0, where it was made; or the anode wire goes up from the
    connector of the anode and across to the plus terminal, the cathode wire
    goes from the minus terminal across and down to the connector of the
    cathode, three waypoints each, with the two horizontal runs at the same
    height. *)
Theorem wires_are_laid_out_together (s : State) :
  reachable s ->
  (anodeWirePoints s = [] /\ cathodeWirePoints s = []
   /\ Forall (fun e => progress e = Some 0) (electrons s))
  \/ exists (anodeConn cathodeConn : Point.t) (plusX minusX topY : float),
       anodeWirePoints s
       = [ anodeConn; Point.mk (Point.x anodeConn) topY; Point.mk plusX topY ]
       /\ cathodeWirePoints s
          = [ Point.mk minusX topY; Point.mk (Point.x cathodeConn) topY; cathodeConn ].
Proof.
  intros Hr. destruct (reachable_wire_shape s Hr) as [[Ha Hc] | H]; [left | now right].
  destruct (reachable_wires_laid_out s Hr) as [(_ & _ & He) | [(a & b & c & E) _]].
  - now repeat split.
  - rewrite Ha in E. discriminate E.
Qed.

(** The wires of the page: both run at height 60. *)
Lemma wires_are_laid_out_together_witness :
  anodeWirePoints (after Page.connect)
  = [ Point.mk 300 300; Point.mk 300 60; Point.mk 450 60 ]
  /\ cathodeWirePoints (after Page.connect)
     = [ Point.mk 550 60; Point.mk 700 60; Point.mk 700 300 ]
  /\ ((anodeWirePoints (after Page.connect) = [] /\ cathodeWirePoints (after Page.connect) = []
       /\ Forall (fun e => progress e = Some 0) (electrons (after Page.connect)))
      \/ exists (anodeConn cathodeConn : Point.t) (plusX minusX topY : float),
           anodeWirePoints (after Page.connect)
           = [ anodeConn; Point.mk (Point.x anodeConn) topY; Point.mk plusX topY ]
           /\ cathodeWirePoints (after Page.connect)
              = [ Point.mk minusX topY; Point.mk (Point.x cathodeConn) topY; cathodeConn ]).
Proof.
  split; [vm_compute; reflexivity|]. split; [vm_compute; reflexivity|].
  apply (wires_are_laid_out_together (after Page.connect)). apply after_reachable.
Defined.

(** ** Ids that name no particle, and the two handlers of a drag *)

Lemma find_none_id (i : string) (l : list Particle) :
  ~ In i (map id l) -> find (fun e => (id e =? i)%string) l = None.
Proof.
  intros H. destruct (find _ l) as [e|] eqn:Hf; [|reflexivity].
  apply find_id_some in Hf. destruct Hf as [Hin <-]. exfalso. apply H. now apply in_map.
Qed.

Lemma dragElectron_other (i : string) svgX svgY (s : State) (l : list Particle) :
  ~ In i (map id l) -> map_throwing (dragElectron i svgX svgY s) l = Some l.
Proof.
  intros H. apply map_throwing_same. intros e Hin. unfold dragElectron.
  destruct (id e =? i)%string eqn:E; [|reflexivity].
  apply String.eqb_eq in E. exfalso. apply H. rewrite <- E. now apply in_map.
Qed.

Lemma map_other (i : string) (g : Particle -> Particle) (l : list Particle) :
  ~ In i (map id l) -> map (fun p => if (id p =? i)%string then g p else p) l = l.
Proof.
  intros H. apply map_fixed. intros p Hin. destruct (id p =? i)%string eqn:E; [|reflexivity].
  apply String.eqb_eq in E. exfalso. apply H. rewrite <- E. now apply in_map.
Qed.

Lemma setIons_fixed (f : list Particle -> list Particle) (s : State) :
  f (ions s) = ions s -> setIons f s = s.
Proof. unfold setIons. intros ->. now destruct s. Qed.

(** X10.  An id that no particle carries changes nothing.  For an id that
    no electron of the state has, both handlers of a drag return the state
    as it is (the handler of the pointer, whose render this state is, leaves
    any state of the moment as it is) and the handler of the release returns
    it without feedback; for an id that no ion has, the handler of a drop
    leaves the state as it is or, for a drop outside the electrolyte, only
    bumps the reset key of the ions.  This holds in every state, reachable or
    not. *)
Theorem unknown_id_changes_nothing (s : State) (i : string) :
  (~ In i (map id (electrons s)) ->
     (forall point svgRect, handleElectronDrag i point svgRect s = Some s)
     /\ (forall client currentSvg prev, svgPointerMove i client currentSvg s prev = Some prev)
     /\ (forall now, handleElectronDragEnd i now s = (s, [])))
  /\ (~ In i (map id (ions s)) ->
        forall dropPoint cathodeRect beaker,
          fst (handleIonDragEnd i dropPoint cathodeRect beaker s)
          = (if outsideBounds (getElectrolyteBounds beaker) dropPoint
             then setIonResetKey (fun prev => (prev + 1)%Z) s else s)).
Proof.
  split.
  - intros H. split; [|split].
    + intros point [r|]; [|reflexivity]. unfold handleElectronDrag.
      rewrite dragElectron_other by exact H. f_equal. now apply setElectrons_fixed.
    + intros client currentSvg prev. unfold svgPointerMove. now rewrite find_none_id.
    + intros now. unfold handleElectronDragEnd. now rewrite find_none_id.
  - intros H dropPoint cathodeRect beaker. unfold handleIonDragEnd.
    destruct (outsideBounds _ _); [reflexivity|].
    destruct (insideRect _ _ && existsb _ _); [|now destruct (insideRect _ _ && negb _)].
    cbn [fst]. apply setIons_fixed. now apply map_other.
Qed.

(** The id of the electron that was handed off at the battery names nothing
    any more. *)
Lemma unknown_id_changes_nothing_witness :
  map id (electrons (after (Page.connect ++ [SpawnIon 1000 1000]
                            ++ Page.dragToEnd "ae-1000" Page.anodeWireEnd 1001)))
  = ["ce-1001"]%string
  /\ handleElectronDragEnd "ae-1000" 1002
       (after (Page.connect ++ [SpawnIon 1000 1000]
               ++ Page.dragToEnd "ae-1000" Page.anodeWireEnd 1001))
     = (after (Page.connect ++ [SpawnIon 1000 1000]
               ++ Page.dragToEnd "ae-1000" Page.anodeWireEnd 1001), []).
Proof.
  split; [vm_compute; reflexivity|].
  apply (proj1 (unknown_id_changes_nothing
                  (after (Page.connect ++ [SpawnIon 1000 1000]
                          ++ Page.dragToEnd "ae-1000" Page.anodeWireEnd 1001))
                  "ae-1000")).
  vm_compute. intros [H | []]. discriminate H.
Defined.

Lemma dragElectron_one (i : string) svgX svgY (s : State) (l : list Particle) :
  NoDup (map id l) -> forall e,
  find (fun el => (id el =? i)%string) l = Some e ->
  map_throwing (dragElectron i svgX svgY s) l
  = match dragElectron i svgX svgY s e with
    | None => None
    | Some e' => Some (map (fun el => if (id el =? i)%string then e' else el) l)
    end.
Proof.
  induction l as [|a l IH]; intros Hnd e Hf; [discriminate|].
  simpl in Hnd, Hf. inversion Hnd as [|? ? Hnot Hnd']; subst. simpl.
  destruct (id a =? i)%string eqn:E.
  - injection Hf as <-. apply String.eqb_eq in E. rewrite <- E in *.
    rewrite (dragElectron_other (id a) svgX svgY s l Hnot).
    destruct (dragElectron (id a) svgX svgY s a) as [e'|]; [|reflexivity].
    now rewrite (map_other (id a) (fun _ => e') l Hnot).
  - rewrite (IH Hnd' e Hf).
    assert (dragElectron i svgX svgY s a = Some a) as -> by (unfold dragElectron; now rewrite E).
    now destruct (dragElectron i svgX svgY s e).
Qed.

Lemma pointer_move_as_drag
    (s : State) (i : string) (client : Point.t) (currentSvg : DOMRect.t) :
  NoDup (map id (electrons s)) ->
  svgPointerMove i client currentSvg s s = handleElectronDrag i client (Some currentSvg) s.
Proof.
  intros Hnd. unfold svgPointerMove, handleElectronDrag.
  destruct (find (fun el => (id el =? i)%string) (electrons s)) as [e|] eqn:Hf.
  - rewrite (dragElectron_one i _ _ s (electrons s) Hnd e Hf).
    pose proof (find_id_some _ _ _ Hf) as [Hin Hid].
    unfold dragElectron at 1. rewrite Hid, String.eqb_refl. cbn [negb].
    destruct (wireOf e s) as [|pt pts] eqn:Hw; cbn [List.length Nat.eqb Nat.ltb Nat.leb].
    + f_equal. symmetry. apply setElectrons_fixed. apply map_fixed.
      intros el Hel. destruct (id el =? i)%string eqn:E; [|reflexivity].
      apply String.eqb_eq in E. rewrite <- E in Hf.
      rewrite (find_by_id_unique _ _ Hnd Hel) in Hf. now injection Hf.
    + destruct (getProgressFromDrag _ _ _ _) as [newProgress|]; [|reflexivity].
      destruct (getPointOnPath _ _) as [newPos|]; [|reflexivity].
      f_equal. unfold setElectrons. f_equal. apply map_ext_in.
      intros el Hel. destruct (id el =? i)%string eqn:E; [|reflexivity].
      apply String.eqb_eq in E. rewrite <- E in Hf.
      rewrite (find_by_id_unique _ _ Hnd Hel) in Hf. now injection Hf as ->.
  - assert (~ In i (map id (electrons s))) as Hnot.
    { intros Hin. apply in_map_iff in Hin. destruct Hin as (e & He & Hin).
      apply (find_none _ _ Hf) in Hin. rewrite He, String.eqb_refl in Hin. discriminate. }
    rewrite dragElectron_other by exact Hnot. f_equal. symmetry. now apply setElectrons_fixed.
Qed.

(** X11.  The handler of the pointer on the [svg] does what
    [handleElectronDrag] does when it runs on the state of its own render,
    no update pending, and the electron ids of that state are pairwise
    distinct: for the same pointer position and the same rectangle of the
    [svg] the two return the same state, and one throws exactly when the
    other does.  Both conditions are needed.  With an update pending the
    handler of the pointer reads the progress that was rendered,
    [handleElectronDrag] the progress of the moment: after a first move from
    0 to 0.99 that has not been rendered, a second move at the start of the
    wire gives 0 with the first and 0.99 with the second.  With colliding ids
    the first moves every electron of the id to the place found for the first
    of them, the second moves each from its own progress. *)
Theorem pointer_move_agrees_with_drag :
  (forall (s : State) (i : string) (client : Point.t) (currentSvg : DOMRect.t),
      NoDup (map id (electrons s)) ->
      svgPointerMove i client currentSvg s s = handleElectronDrag i client (Some currentSvg) s)
  /\ (exists rendered prev,
        reachable rendered
        /\ svgPointerMove "ae-1000" Page.anodeWireEnd Page.svg rendered rendered = Some prev
        /\ map (fun e => (id e, progress e)) (electrons rendered) = [("ae-1000"%string, Some 0)]
        /\ map (fun e => (id e, progress e)) (electrons prev)
           = [("ae-1000"%string, Some 0.99000000000000066)]
        /\ option_map (fun s' => map progress (electrons s'))
             (svgPointerMove "ae-1000" (Point.mk 300 300) Page.svg rendered prev)
           = Some [Some 0]
        /\ option_map (fun s' => map progress (electrons s'))
             (handleElectronDrag "ae-1000" (Point.mk 300 300) (Some Page.svg) prev)
           = Some [Some 0.99000000000000066])
  /\ (exists s,
        reachable s
        /\ map (fun e => (id e, progress e)) (electrons s)
           = [("ae-1000", Some 0.50000000000000022); ("ae-1000", Some 0)]%string
        /\ option_map (fun s' => map progress (electrons s'))
             (svgPointerMove "ae-1000" (Point.mk 300 200) Page.svg s s)
           = Some [Some 0.50000000000000022; Some 0.50000000000000022]
        /\ option_map (fun s' => map progress (electrons s'))
             (handleElectronDrag "ae-1000" (Point.mk 300 200) (Some Page.svg) s)
           = Some [Some 0.50000000000000022; Some 0.21000000000000005]).
Proof.
  split; [exact pointer_move_as_drag|]. split.
  - exists (after (Page.connect ++ [SpawnIon 1000 1000])). eexists.
    split; [apply after_reachable|]. split; [vm_compute; reflexivity|].
    vm_compute. repeat split.
  - exists (after (Page.connect
                   ++ [SpawnIon 1000 1000; SvgPointerMove "ae-1000" (Point.mk 300 60) Page.svg;
                       SpawnIon 1000 1000])).
    split; [apply after_reachable|]. vm_compute. repeat split.
Qed.

(** The electron of a click on the anode, dragged to the end of its wire by
    either handler. *)
Lemma pointer_move_agrees_with_drag_witness :
  svgPointerMove "ae-1000" Page.anodeWireEnd Page.svg
    (after (Page.connect ++ [SpawnIon 1000 1000]))
    (after (Page.connect ++ [SpawnIon 1000 1000]))
  = handleElectronDrag "ae-1000" Page.anodeWireEnd (Some Page.svg)
      (after (Page.connect ++ [SpawnIon 1000 1000]))
  /\ option_map (fun s' => map progress (electrons s'))
       (svgPointerMove "ae-1000" Page.anodeWireEnd Page.svg
          (after (Page.connect ++ [SpawnIon 1000 1000]))
          (after (Page.connect ++ [SpawnIon 1000 1000])))
     = Some [Some 0.99000000000000066].
Proof.
  split; [|vm_compute; reflexivity].
  apply (proj1 pointer_move_agrees_with_drag (after (Page.connect ++ [SpawnIon 1000 1000]))).
  vm_compute. constructor; [intros [] | constructor].
Defined.

(** ** The path functions at their edges *)

Lemma is_nan_eq (p : float) : is_nan p = true -> p = nan.
Proof.
  intros H. apply Prim2SF_inj. unfold is_nan in H. rewrite negb_true_iff, FloatAxioms.eqb_spec in H.
  destruct (Prim2SF p) as [[]|[]| |[] ? ?] eqn:E; try reflexivity; try discriminate H.
  all: cbn in H; unfold SFeqb, SFcompare in H; cbn in H.
  all: try rewrite Z.compare_refl in H; try rewrite Pos.compare_refl in H.
  all: try discriminate H.
Qed.

Lemma mul_nan_l (x : float) : nan * x = nan.
Proof.
  apply Prim2SF_inj. rewrite mul_spec. reflexivity.
Qed.

Lemma getPointOnPath_nan (points : list Point.t) : getPointOnPath points nan = None.
Proof.
  unfold getPointOnPath.
  replace (nan <=? 0) with false by reflexivity.
  replace (1 <=? nan) with false by reflexivity.
  cbv zeta. rewrite mul_nan_l.
  replace (JS.Math_floor nan) with nan by reflexivity.
  unfold JS.Math_min at 1. replace (is_nan nan) with true by reflexivity. cbn [orb].
  reflexivity.
Qed.

Lemma getPointOnPath_start (points : list Point.t) (progress : float) :
  (progress <=? 0) = true -> getPointOnPath points progress = hd_error points.
Proof. intros H. unfold getPointOnPath. rewrite H. now destruct points. Qed.

Lemma getPointOnPath_end (a b c : Point.t) (progress : float) :
  (1 <=? progress) = true -> getPointOnPath [a; b; c] progress = Some c.
Proof.
  intros H. unfold getPointOnPath. rewrite H.
  destruct (progress <=? 0) eqn:E; [|reflexivity].
  exfalso. pose proof (leb_trans _ _ _ H E) as F. discriminate F.
Qed.

Lemma getProgressFromDrag_empty dragX dragY currentProgress :
  getProgressFromDrag [] dragX dragY currentProgress = None.
Proof.
  unfold getProgressFromDrag.
  replace drag_samples with (0 :: tl drag_samples) by (vm_compute; reflexivity).
  cbn [fold_left scan_step]. replace (getPointOnPath [] 0) with (@None Point.t) by reflexivity.
  now rewrite scan_None.
Qed.
Lemma getProgressFromDrag_one (a : Point.t) dragX dragY currentProgress :
  exists p, getProgressFromDrag [a] dragX dragY currentProgress = Some p.
Proof.
  unfold getProgressFromDrag.
  destruct (scan_defined [a] dragX dragY drag_samples) with (acc := (infinity, currentProgress)) as [[m b] ->].
  - intros p Hp.
    assert (forallb (fun v => defined (getPointOnPath [a] v)) drag_samples = true) as A.
    { vm_compute. reflexivity. }
    rewrite forallb_forall in A. apply A in Hp.
    destruct (getPointOnPath [a] p) as [pt|]; [now exists pt | discriminate].
  - eexists; reflexivity.
Qed.

(** X12.  [getPointOnPath] and [getProgressFromDrag] at their edges.  A
    progress at or below 0 gives the first waypoint of any path, and no
    result on the empty path; a progress at or above 1 gives the last
    waypoint of a wire; a progress that is NaN gives no result on any path,
    because the index it computes is NaN.  [getProgressFromDrag] throws on
    the empty path, whatever the pointer and the current progress, and has a
    result on a path of one waypoint; the callback of [handleElectronDrag]
    does not call it for an electron whose wire has no waypoint. *)
Theorem path_edges :
  (forall points progress,
      (progress <=? 0) = true -> getPointOnPath points progress = hd_error points)
  /\ (forall a b c progress,
        (1 <=? progress) = true -> getPointOnPath [a; b; c] progress = Some c)
  /\ (forall points progress,
        is_nan progress = true -> getPointOnPath points progress = None)
  /\ (forall dragX dragY currentProgress,
        getProgressFromDrag [] dragX dragY currentProgress = None)
  /\ (forall a dragX dragY currentProgress,
        exists p, getProgressFromDrag [a] dragX dragY currentProgress = Some p)
  /\ (forall s i svgX svgY e,
        wireOf e s = [] -> dragElectron i svgX svgY s e = Some e).
Proof.
  split; [exact getPointOnPath_start|]. split; [exact getPointOnPath_end|].
  split; [|split; [exact getProgressFromDrag_empty | split; [exact getProgressFromDrag_one|]]].
  - intros points progress H. apply is_nan_eq in H. subst. apply getPointOnPath_nan.
  - intros s i svgX svgY e H. unfold dragElectron. rewrite H. now destruct (negb _).
Qed.

(** ** What the render shows of the ledger *)

Lemma plated_cases (s : State) :
  reachable s ->
  platedCount s = 0%Z \/ platedCount s = 1%Z \/ platedCount s = 2%Z \/ platedCount s = 3%Z
  \/ platedCount s = 4%Z \/ platedCount s = 5%Z \/ platedCount s = 6%Z \/ platedCount s = 7%Z
  \/ platedCount s = 8%Z.
Proof.
  intros Hr. destruct (reachable_ledger_ok s Hr) as (k & Hk & _ & _ & Hp & Hn). lia.
Qed.

(** X13.  The displays of the ring agree on completion.  In every
    reachable state, when the plated count has reached the goal of 6 the ring
    is drawn in silver, with the linear gradient, labelled as silver plated,
    all 16 atoms of the atomic view plated and 100 percent or more on the
    status card; below the goal the ring has a colour between copper and
    silver, component by component, a conic gradient with a silver sector of
    less than 360 degrees, the copper label, fewer than 16 plated atoms and
    less than 100 percent. *)
Theorem completion_is_shown_consistently (s : State) :
  reachable s ->
  ((TOTAL_PLATING_GOAL <= platedCount s)%Z ->
     getRingColor s = css_text "#c3cfe2"
     /\ getPlatingGradient s = css_text "linear-gradient(135deg, #f5f7fa 0%, #c3cfe2 100%)"
     /\ ringLabel s = silverPlatedRing
     /\ platedAtoms s = 16
     /\ (100 <=? silverCoatedPercent s) = true)
  /\ ((platedCount s < TOTAL_PLATING_GOAL)%Z ->
        (exists r g b,
            getRingColor s = css_rgb r g b
            /\ (184 <=? r) && (r <=? 195) && (115 <=? g) && (g <=? 207)
               && (51 <=? b) && (b <=? 226) = true)
        /\ (exists deg,
               getPlatingGradient s = css_conic "#c3cfe2" deg (css_rgb 184 115 51)
               /\ (0 <=? deg) && (deg <? 360) = true)
        /\ ringLabel s = copperRing
        /\ (platedAtoms s <? 16) = true
        /\ (silverCoatedPercent s <? 100) = true).
Proof.
  intros Hr. pose proof (plated_cases s Hr) as H.
  unfold getRingColor, getPlatingGradient, ringLabel, platedAtoms, silverCoatedPercent,
    TOTAL_PLATING_GOAL.
  split; intros Hp.
  - destruct H as [H | [H | [H | [H | [H | [H | H]]]]]]; try lia.
    destruct H as [H | [H | H]]; rewrite H; vm_compute; repeat split.
  - destruct H as [H | [H | [H | [H | [H | [H | H]]]]]]; [| | | | | |lia];
      rewrite H; vm_compute; (split; [do 3 eexists; split; reflexivity|]);
      (split; [eexists; split; reflexivity|]); repeat split.
Qed.

(** After six plating cycles the ring is silver. *)
Lemma completion_is_shown_consistently_witness :
  platedCount (after (Page.connect ++ Page.cycle 1000 ++ Page.cycle 2000 ++ Page.cycle 3000
                      ++ Page.cycle 4000 ++ Page.cycle 5000 ++ Page.cycle 6000)) = 6%Z
  /\ getRingColor (after (Page.connect ++ Page.cycle 1000 ++ Page.cycle 2000 ++ Page.cycle 3000
                          ++ Page.cycle 4000 ++ Page.cycle 5000 ++ Page.cycle 6000))
     = css_text "#c3cfe2".
Proof.
  split; [vm_compute; reflexivity|].
  apply (proj1 (completion_is_shown_consistently _ (after_reachable
           (Page.connect ++ Page.cycle 1000 ++ Page.cycle 2000 ++ Page.cycle 3000
            ++ Page.cycle 4000 ++ Page.cycle 5000 ++ Page.cycle 6000)))).
  vm_compute. discriminate.
Defined.

(** X14.  The displays of the electrodes stay in range.  In every reachable
    state the atomic view shows between 4 and 16 atoms of the anode, all 16
    exactly when the anode still weighs its 50 grams, the anode being never
    shown empty; and the bar of the cathode is between a third and 87
    percent wide, never full. *)
Theorem electrode_displays_in_range (s : State) :
  reachable s ->
  (4 <=? anodeAtoms s) && (anodeAtoms s <=? 16) = true
  /\ (anodeAtoms s = 16 <-> anodeMass s = ANODE_START_MASS)
  /\ (33 <? cathodeBarPercent s) && (cathodeBarPercent s <? 87) = true.
Proof.
  intros Hr. pose proof (plated_cases s Hr) as Hp.
  destruct (reachable_ledger_ok s Hr) as (k & Hk & Ha & Hc & _).
  unfold anodeAtoms, cathodeBarPercent, ANODE_START_MASS, CATHODE_START_MASS,
    MASS_PER_UNIT in *.
  rewrite Hc, Ha. clear Ha Hc.
  assert (k = 0 \/ k = 1 \/ k = 2 \/ k = 3 \/ k = 4 \/ k = 5 \/ k = 6 \/ k = 7 \/ k = 8)%Z
    as Hk' by lia. clear Hk.
  split; [|split].
  - destruct Hk' as [-> | [-> | [-> | [-> | [-> | [-> | [-> | [-> | ->]]]]]]]];
      vm_compute; reflexivity.
  - destruct Hk' as [-> | [-> | [-> | [-> | [-> | [-> | [-> | [-> | ->]]]]]]]];
      vm_compute; split; intros H; try reflexivity; discriminate H.
  - destruct Hp as [-> | [-> | [-> | [-> | [-> | [-> | [-> | [-> | ->]]]]]]]];
      vm_compute; reflexivity.
Qed.

(** After eight plating cycles: 4 atoms of the anode are left. *)
Lemma electrode_displays_in_range_witness :
  anodeAtoms (after Page.eightCycles) = 4
  /\ (4 <=? anodeAtoms (after Page.eightCycles))
     && (anodeAtoms (after Page.eightCycles) <=? 16) = true.
Proof.
  split; [vm_compute; reflexivity|].
  apply (electrode_displays_in_range (after Page.eightCycles)). apply after_reachable.
Defined.

(** * The page *)

(** ** The invariant of the page *)

Lemma zero_is_a_sample : In 0 drag_samples.
Proof. vm_compute. now left. Qed.

(** Membership in a list of numbers, decided with the equality of
    binary64 representations. *)
Lemma float_In (x : float) (l : list float) : existsb (Leibniz.eqb x) l = true -> In x l.
Proof.
  intros H. apply existsb_exists in H. destruct H as (y & Hy & E).
  apply Leibniz.eqb_spec in E. now subst.
Qed.

(** The interval moves the dot from a sample to the next, and from the last
    sample back to 0. *)
Lemma tick_is_a_sample (d : float) : In d drag_samples -> In (tickCurrentDot d) drag_samples.
Proof.
  intros H. apply float_In.
  assert (forallb (fun d => existsb (Leibniz.eqb (tickCurrentDot d)) drag_samples) drag_samples
          = true) as A by (vm_compute; reflexivity).
  rewrite forallb_forall in A. now apply A.
Qed.


Lemma simEvent_ok ev (v v' : View) out :
  view_ok v -> simEvent ev v = Some (v', out) -> view_ok v'.
Proof.
  intros (Hr & Ht & Hd & Hz) H. unfold simEvent in H.
  destruct (step ev (sim v)) as [[s' out']|] eqn:Hstep; [|discriminate].
  injection H as <- _.
  assert (reachable s') as Hr' by (eapply reachable_step; eassumption).
  unfold view_ok, dotEffect.
  destruct (isReset ev); cbn [sim setSim setShowTutorial setTutorialStep];
    destruct (Bool.eqb (isCircuitComplete (sim v)) (isCircuitComplete s')) eqn:E;
    cbn [sim tutorialStep currentDotProgress setSim setShowTutorial setTutorialStep
         setCurrentDotProgress];
    try (apply eqb_prop in E; rewrite <- E);
    try (destruct (negb (isCircuitComplete s')) eqn:N;
         cbn [sim tutorialStep currentDotProgress setSim setShowTutorial setTutorialStep
              setCurrentDotProgress]);
    repeat split; auto using zero_is_a_sample; try (cbn; lia); try lia;
    try (intros F; apply negb_false_iff in N; congruence).
Qed.

Lemma uiStep_ok ev (v v' : View) out :
  view_ok v -> uiStep ev v = Some (v', out) -> view_ok v'.
Proof.
  intros Hv H. pose proof Hv as (Hr & Ht & Hd & Hz). destruct ev; simpl in H.
  - eapply simEvent_ok; eassumption.
  - injection H as <- _. destruct (isCircuitComplete (sim v)) eqn:E; [|exact Hv].
    view_simpl. rewrite E. repeat split; auto using tick_is_a_sample; lia.
  - injection H as <- _. view_simpl. repeat split; auto; lia.
  - injection H as <- _. unfold tutorialPrevious.
    destruct (tutorialStep v =? 0)%Z; [exact Hv|].
    view_simpl. repeat split; auto; lia.
  - injection H as <- _. unfold tutorialForward.
    destruct (tutorialStep v <? _)%Z eqn:E; [|exact Hv].
    apply Z.ltb_lt in E. view_simpl. repeat split; auto; lia.
  - injection H as <- _. exact Hv.
  - injection H as <- _. now destruct (existsb _ _).
  - destruct (JS.truthy _); [eapply simEvent_ok; eassumption | now injection H as <- _].
  - destruct (JS.truthy _); [|now injection H as <- _].
    destruct touches; [now injection H as <- _ | eapply simEvent_ok; eassumption].
  - destruct (JS.truthy _); [|now injection H as <- _].
    destruct (simEvent _ v) as [[v1 out1]|] eqn:E; [|discriminate].
    injection H as <- _. apply (simEvent_ok _ _ _ _ Hv) in E. exact E.
  - destruct (JS.truthy _); now injection H as <- _.
Qed.

Lemma ui_reachable_ok (v : View) : ui_reachable v -> view_ok v.
Proof.
  induction 1 as [|v ev v' out _ IH H].
  - unfold initialView. view_simpl.
    split; [apply reachable_initial | split; [lia | split; [apply zero_is_a_sample | reflexivity]]].
  - eapply uiStep_ok; eassumption.
Qed.


Lemma uiRun_reachable (evs : list UIEvent) : forall (v v' : View) out,
  ui_reachable v -> uiRun evs v = Some (v', out) -> ui_reachable v'.
Proof.
  induction evs as [|ev evs IH]; intros v v' out Hv H; simpl in H.
  - now injection H as <- _.
  - destruct (uiStep ev v) as [[v1 out1]|] eqn:H1; [|discriminate].
    destruct (uiRun evs v1) as [[v2 out2]|] eqn:H2; [|discriminate].
    injection H as <- _. eapply IH; [|exact H2]. eapply ui_reachable_step; eassumption.
Qed.

Lemma pageAfter_reachable (evs : list UIEvent) : ui_reachable (pageAfter evs).
Proof.
  unfold pageAfter. destruct (uiRun evs initialView) as [[v out]|] eqn:H.
  - eapply uiRun_reachable; [apply ui_reachable_initial | exact H].
  - apply ui_reachable_initial.
Qed.


(** ** The position of the dot *)

Lemma dot_on_wires_defined (a b c a' b' c' : Point.t) (d : float) :
  In d drag_samples ->
  exists p,
    (if d <=? 0.5 then getPointOnPath [a; b; c] (d / 0.5)
     else getPointOnPath [a'; b'; c'] ((d - 0.5) / (1 - 0.5))) = Some p.
Proof.
  intros H.
  assert (forallb (fun d => defined (if d <=? 0.5 then getPointOnPath [a; b; c] (d / 0.5)
                                     else getPointOnPath [a'; b'; c'] ((d - 0.5) / (1 - 0.5))))
            drag_samples = true) as A by (vm_compute; reflexivity).
  rewrite forallb_forall in A. apply A in H.
  destruct (if d <=? 0.5 then _ else _) as [p|]; [now exists p | discriminate].
Qed.

(** X16.  The dot of the current is drawn on the wires.  In every state of
    the page [getCurrentDotPosition] has a result: it never reads an
    undefined waypoint.  The result is [null] exactly when the circuit is
    open or the wires are not laid out yet; otherwise the dot is on the anode
    wire during the first half of its cycle, at twice its progress, and on
    the cathode wire during the second half; at progress 0 it sits on the
    connector of the anode. *)
Theorem current_dot_is_on_the_wires (v : View) :
  ui_reachable v ->
  getCurrentDotPosition v <> dot_undefined
  /\ (getCurrentDotPosition v = dot_null
      <-> isCircuitComplete (sim v) = false \/ anodeWirePoints (sim v) = [])
  /\ (forall p, getCurrentDotPosition v = dot_at p ->
        (if currentDotProgress v <=? 0.5
         then getPointOnPath (anodeWirePoints (sim v)) (currentDotProgress v / 0.5)
         else getPointOnPath (cathodeWirePoints (sim v))
                ((currentDotProgress v - 0.5) / (1 - 0.5))) = Some p)
  /\ (forall p, getCurrentDotPosition v = dot_at p -> currentDotProgress v = 0 ->
        hd_error (anodeWirePoints (sim v)) = Some p).
Proof.
  intros Hu. destruct (ui_reachable_ok v Hu) as (Hr & _ & Hd & _).
  unfold getCurrentDotPosition.
  destruct (isCircuitComplete (sim v)) eqn:Hc; cbn [negb].
  2:{ repeat split; try discriminate; auto. }
  destruct (reachable_wires_laid_out _ Hr)
    as [(Ha & Hk & _) | [(a & b & c & Ha) (a' & b' & c' & Hk)]]; rewrite Ha, Hk.
  - replace (JS.length (@nil Point.t)) with 0 by reflexivity.
    replace (1 <? 0) with false by reflexivity.
    replace (0 + 0 =? 0) with true by reflexivity.
    repeat split; try discriminate; auto.
  - replace (JS.length [a; b; c]) with 3 by reflexivity.
    replace (JS.length [a'; b'; c']) with 3 by reflexivity.
    replace (1 <? 3) with true by reflexivity.
    replace (3 - 1 + (3 - 1) =? 0) with false by reflexivity.
    replace ((3 - 1) / (3 - 1 + (3 - 1))) with 0.5 by reflexivity.
    destruct (dot_on_wires_defined a b c a' b' c' _ Hd) as [p Hp].
    cbv zeta. rewrite Hp.
    split; [discriminate|]. split; [|split].
    + split; [discriminate | intros [H | H]; discriminate H].
    + intros q [= <-]. reflexivity.
    + intros q [= <-] H0. rewrite H0 in Hp. cbn in Hp. exact Hp.
Qed.

(** Three ticks after the wires are connected: the dot is on the first leg
    of the anode wire. *)
Lemma current_dot_is_on_the_wires_witness :
  getCurrentDotPosition (pageAfter Session.threeTicks)
  = dot_at (Point.mk 300 271.19999999999999)
  /\ getCurrentDotPosition (pageAfter Session.threeTicks) <> dot_undefined.
Proof.
  split; [vm_compute; reflexivity|].
  apply (current_dot_is_on_the_wires (pageAfter Session.threeTicks)). apply pageAfter_reachable.
Defined.

(** ** The tutorial *)

(** X17.  The tutorial is always on one of its seven steps.  In every
    state of the page [tutorialSteps[tutorialStep]] is defined, so the render
    never reads the title of an undefined step: [tutorialStep] is at least 0
    and at most 6, whatever buttons are clicked in whatever order and however
    often, the dialog being open or not. *)
Theorem tutorial_step_is_defined (v : View) :
  ui_reachable v ->
  (0 <= tutorialStep v <= 6)%Z
  /\ exists st, currentTutorialStep v = Some st.
Proof.
  intros Hu. destruct (ui_reachable_ok v Hu) as (_ & Ht & _).
  change (Z.of_nat (List.length getTutorialSteps)) with 7%Z in Ht.
  split; [lia|]. unfold currentTutorialStep.
  assert (tutorialStep v = 0 \/ tutorialStep v = 1 \/ tutorialStep v = 2 \/ tutorialStep v = 3
          \/ tutorialStep v = 4 \/ tutorialStep v = 5 \/ tutorialStep v = 6)%Z as H by lia.
  destruct H as [-> | [-> | [-> | [-> | [-> | [-> | ->]]]]]]; eexists; vm_compute; reflexivity.
Qed.

(** The button that goes forward is clicked seven times: the tutorial
    stays on its last step and the dialog has been closed. *)
Lemma tutorial_step_is_defined_witness :
  (tutorialStep (pageAfter Session.readTutorial),
   showTutorial (pageAfter Session.readTutorial)) = (6%Z, false)
  /\ ((0 <= tutorialStep (pageAfter Session.readTutorial) <= 6)%Z
      /\ exists st, currentTutorialStep (pageAfter Session.readTutorial) = Some st).
Proof.
  split; [vm_compute; reflexivity|].
  apply (tutorial_step_is_defined (pageAfter Session.readTutorial)). apply pageAfter_reachable.
Defined.

(** ** The pointer *)

Lemma simEvent_dragging ev (v v' : View) out :
  simEvent ev v = Some (v', out) -> draggingElectronId v' = draggingElectronId v.
Proof.
  unfold simEvent. destruct (step ev (sim v)) as [[s' out']|]; [|discriminate].
  intros [= <- _]. unfold dotEffect.
  destruct (isReset ev); cbn [sim setSim setShowTutorial setTutorialStep];
    destruct (Bool.eqb _ _); try reflexivity; destruct (negb _); reflexivity.
Qed.

Lemma uiStep_dragging_ok ev (v v' : View) out :
  view_ok v -> dragging_ok v -> uiStep ev v = Some (v', out) -> dragging_ok v'.
Proof.
  intros (Hr & _) Hd H. unfold dragging_ok in *. destruct ev; simpl in H.
  - now rewrite (simEvent_dragging _ _ _ _ H).
  - injection H as <- _. now destruct (isCircuitComplete _).
  - now injection H as <- _.
  - injection H as <- _. unfold tutorialPrevious. now destruct (_ =? _)%Z.
  - injection H as <- _. unfold tutorialForward. now destruct (_ <? _)%Z.
  - now injection H as <- _.
  - injection H as <- _. destruct (existsb _ _) eqn:E; [|exact Hd].
    cbn. apply existsb_exists in E. destruct E as (e & Hin & E).
    apply andb_true_iff in E. destruct E as [_ E]. apply String.eqb_eq in E. subst i.
    pose proof (reachable_electrons_wellformed _ Hr) as Hw. rewrite Forall_forall in Hw.
    destruct (Hw e Hin) as [_ [(_ & _ & [t Ht] & _) | (_ & _ & [t Ht] & _)]];
      exists t; auto.
  - destruct (JS.truthy _); [|now injection H as <- _].
    now rewrite (simEvent_dragging _ _ _ _ H).
  - destruct (JS.truthy _); [|now injection H as <- _].
    destruct touches; [now injection H as <- _|]. now rewrite (simEvent_dragging _ _ _ _ H).
  - destruct (JS.truthy _); [|now injection H as <- _].
    destruct (simEvent _ v) as [[v1 out1]|]; [|discriminate]. now injection H as <- _.
  - destruct (JS.truthy _); now injection H as <- _.
Qed.

Lemma ui_reachable_dragging_ok (v : View) : ui_reachable v -> dragging_ok v.
Proof.
  induction 1 as [|v ev v' out Hu IH H]; [exact I|].
  eapply uiStep_dragging_ok; [apply ui_reachable_ok| |]; eassumption.
Qed.

Lemma simEvent_defined ev (v : View) :
  view_ok v -> exists v' out, simEvent ev v = Some (v', out).
Proof.
  intros (Hr & _). unfold simEvent.
  destruct (reachable_never_throws ev _ Hr) as (s' & out & -> & _). eauto.
Qed.

(** X18.  The pointer on the electrons.  In every state of the page: no
    event of the page throws; the id under the pointer is [null] or an id
    that was given to an electron, so the test [if (draggingElectronId)]
    reads it as set; while no electron is grabbed, moving, releasing and
    leaving change nothing; and when the pointer leaves the [svg] the grab is
    dropped without the release handler being called, so that a release after
    it changes nothing either: the electron stays where the drag left it. *)
Theorem pointer_gestures (v : View) :
  ui_reachable v ->
  (forall ev, exists v' out, uiStep ev v = Some (v', out) /\ ui_reachable v')
  /\ JS.truthy (draggingElectronId v) = draggingElectronId v
  /\ (draggingElectronId v = None ->
        forall ev,
          match ev with
          | SvgMouseMove _ _ | SvgTouchMove _ _ | SvgPointerUp _ | SvgMouseLeave => True
          | _ => False
          end ->
          uiStep ev v = Some (v, []))
  /\ (exists v1,
        uiStep SvgMouseLeave v = Some (v1, [])
        /\ sim v1 = sim v /\ draggingElectronId v1 = None
        /\ forall now, uiStep (SvgPointerUp now) v1 = Some (v1, [])).
Proof.
  intros Hu. pose proof (ui_reachable_ok v Hu) as Hv.
  pose proof (ui_reachable_dragging_ok v Hu) as Hd.
  assert (JS.truthy (draggingElectronId v) = draggingElectronId v) as Ht.
  { unfold dragging_ok in Hd. destruct (draggingElectronId v) as [i|]; [|reflexivity].
    destruct Hd as [t [-> | ->]]; reflexivity. }
  split; [|split; [exact Ht | split]].
  - intros ev.
    assert (exists v' out, uiStep ev v = Some (v', out)) as (v' & out & H).
    { destruct ev; simpl; eauto using simEvent_defined.
      - destruct (JS.truthy _); eauto using simEvent_defined.
      - destruct (JS.truthy _); eauto. destruct touches; eauto using simEvent_defined.
      - destruct (JS.truthy _); eauto.
        destruct (simEvent_defined (ElectronDragEnd s now) v Hv) as (v1 & out1 & ->). eauto.
      - destruct (JS.truthy _); eauto. }
    exists v', out. split; [exact H | eapply ui_reachable_step; eassumption].
  - intros Hn ev Hev. destruct ev; try destruct Hev; simpl; rewrite Hn; reflexivity.
  - simpl. rewrite Ht. destruct (draggingElectronId v) as [i|] eqn:E.
    + exists (setDraggingElectronId None v). repeat split.
    + exists v. repeat split; auto. intros now. simpl. now rewrite E.
Qed.

(** An electron is taken to the end of the anode wire.  Released there, it
    is handed off to the cathode wire; when the pointer leaves the [svg]
    first, the release does nothing and the electron stays at the end of the
    anode wire. *)
Lemma pointer_gestures_witness :
  map (fun e => (id e, progress e)) (electrons (sim (pageAfter Session.handOff)))
  = [("ce-1001"%string, Some 0)]
  /\ map (fun e => (id e, progress e)) (electrons (sim (pageAfter Session.abandoned)))
     = [("ae-1000"%string, Some 0.99000000000000066)]
  /\ JS.truthy (draggingElectronId (pageAfter Session.abandoned))
     = draggingElectronId (pageAfter Session.abandoned).
Proof.
  split; [vm_compute; reflexivity|]. split; [vm_compute; reflexivity|].
  apply (pointer_gestures (pageAfter Session.abandoned)). apply pageAfter_reachable.
Defined.

(** ** The reset *)



(** ** Ions and electrons in equal number *)

Lemma NoDup_map_filter {A B} (g : A -> B) (f : A -> bool) (l : list A) :
  NoDup (map g l) -> NoDup (map g (filter f l)).
Proof.
  induction l as [|a l IH]; simpl; intros H; [constructor|].
  inversion H as [|? ? Hnot Hnd]; subst. destruct (f a); simpl; [|auto].
  constructor; [|auto]. intros Hin. apply Hnot. apply in_map_iff in Hin.
  destruct Hin as (b & Hb & Hin). apply filter_In in Hin. rewrite <- Hb. apply in_map, Hin.
Qed.

Lemma filter_out_one (i : string) (l : list Particle) :
  NoDup (map id l) -> In i (map id l) ->
  (List.length (filter (fun e => negb (id e =? i)%string) l) + 1 = List.length l)%nat.
Proof.
  induction l as [|a l IH]; simpl; intros Hnd Hin; [destruct Hin|].
  inversion Hnd as [|? ? Hnot Hnd']; subst.
  destruct (id a =? i)%string eqn:E; simpl.
  - apply String.eqb_eq in E. rewrite <- E in *.
    replace (filter (fun e => negb (id e =? id a)%string) l) with l; [lia|].
    symmetry. rewrite <- (filter_all l) at 2. apply filter_ext_in. intros e He.
    destruct (id e =? id a)%string eqn:E'; [|reflexivity].
    apply String.eqb_eq in E'. exfalso. apply Hnot. rewrite <- E'. now apply in_map.
  - destruct Hin as [Hin | Hin]; [apply String.eqb_neq in E; congruence|].
    specialize (IH Hnd' Hin). lia.
Qed.

Lemma Forall2_length_eq {A B} (R : A -> B -> Prop) (l : list A) (l' : list B) :
  Forall2 R l l' -> List.length l = List.length l'.
Proof. induction 1; simpl; congruence. Qed.

Lemma handle_balance ev (s s' : State) out :
  NoDup (map id (electrons s)) ->
  List.length (ions s) = List.length (electrons s) ->
  handle ev s = Some (s', out) ->
  List.length (ions s') = List.length (electrons s').
Proof.
  intros Hnd Hb H. basic_event ev H. destruct ev; simpl in H; [..|destruct Hbasic].
  - take_fst H. unfold anodeWireDragEnd. now destruct (nearRect _ _).
  - take_fst H. unfold cathodeWireDragEnd. now destruct (nearRect _ _).
  - injection H as <- _. now destruct anchors.
  - take_fst H. unfold spawnIon.
    destruct (_ || _); [exact Hb|]. destruct (_ <=? _)%Z; [exact Hb|].
    destruct (_ <=? _)%nat; [exact Hb|]. cbn. rewrite !length_app. simpl. lia.
  - take_fst H. unfold handleIonDragEnd. destruct (outsideBounds _ _); [exact Hb|].
    destruct (insideRect _ _ && existsb _ _); [cbn; now rewrite length_map|].
    now destruct (insideRect _ _ && negb _).
  - destruct (handleElectronDrag _ _ _ _) as [s1|] eqn:H1; [|discriminate].
    injection H as <- _. pose proof (handleElectronDrag_advanced _ _ _ _ _ H1) as Ha.
    apply Forall2_length_eq in Ha. rewrite <- Ha.
    unfold handleElectronDrag in H1. destruct svgRect; [|now injection H1 as <-].
    destruct (map_throwing _ _); [|discriminate]. now injection H1 as <-.
  - unfold svgPointerMove in H. destruct (find _ _); [|now injection H as <- _].
    destruct (0 <? _)%nat; [|now injection H as <- _].
    destruct (getProgressFromDrag _ _ _ _); [|discriminate].
    destruct (getPointOnPath _ _); [|discriminate]. injection H as <- _.
    cbn. now rewrite length_map.
  - take_fst H. unfold handleElectronDragEnd.
    destruct (find _ _) as [e|] eqn:Hf; [|exact Hb].
    apply find_id_some in Hf. destruct Hf as [Hin Hid].
    destruct (Segment_eqb _ anode_wire && _).
    + cbn. rewrite length_app. simpl.
      rewrite (filter_out_one i (electrons s) Hnd); [exact Hb|].
      rewrite <- Hid. now apply in_map.
    + destruct (Segment_eqb _ cathode_wire && _); [|exact Hb]. cbn. now rewrite length_map.
  - now injection H as <- _.
  - now injection H as <- _.
Qed.

Lemma pairingEffect_balance (s : State) :
  NoDup (map id (ions s)) -> NoDup (map id (electrons s)) ->
  List.length (ions s) = List.length (electrons s) ->
  List.length (ions (fst (pairingEffect s))) = List.length (electrons (fst (pairingEffect s))).
Proof.
  intros Hi He Hb. destruct (pairingEffect_exact s) as [Ei Ee].
  rewrite (Ei Hi), (Ee He).
  pose proof (removeFirstWaiting_length (ions s) (pairs s)) as Li.
  pose proof (removeFirstWaiting_length (electrons s) (pairs s)) as Le.
  unfold pairs in *. lia.
Qed.

Lemma distinct_ids_balance (s : State) :
  reachable_with_distinct_ids s ->
  reachable s /\ NoDup (map id (ions s)) /\ NoDup (map id (electrons s))
  /\ List.length (ions s) = List.length (electrons s).
Proof.
  induction 1 as [|s ev s1 out1 _ (Hr & _ & Hne & Hb) Hh Hni1 Hne1].
  - repeat split; constructor.
  - destruct (pairingEffect_frame s1) as (_ & _ & _ & _ & _ & _ & [f Ef] & [g Eg]).
    split; [|split; [|split]].
    + apply (reachable_step s ev _ (out1 ++ snd (pairingEffect s1)) Hr).
      unfold step. rewrite Hh. now destruct (pairingEffect s1).
    + rewrite Ef. now apply NoDup_map_filter.
    + rewrite Eg. now apply NoDup_map_filter.
    + apply pairingEffect_balance; [exact Hni1 | exact Hne1 |].
      exact (handle_balance _ _ _ _ Hne Hb Hh).
Qed.

(** X20.  Every ion in solution has its electron.  In every state reached
    by steps that leave pairwise distinct ion ids and pairwise distinct
    electron ids to the pairing effect, there are as many electrons on the
    wires as ions in solution: a click on the anode makes one of each, the
    hand-off at the battery trades one electron for another, a pairing
    removes one of each; and the anode has lost 5 grams for each electron on
    the wires or ion plated. *)
Theorem ions_and_electrons_balance (s : State) :
  reachable_with_distinct_ids s ->
  List.length (ions s) = List.length (electrons s)
  /\ anodeMass s
     = (50 - 5 * Z.of_nat (List.length (electrons s)) - 5 * platedCount s)%Z.
Proof.
  intros H. destruct (distinct_ids_balance s H) as (Hr & _ & _ & Hb).
  split; [exact Hb|].
  assert (reachable_with_distinct_ion_ids s) as Hd.
  { clear Hr Hb. induction H as [|s ev s1 out1 _ IH Hh Hni _]; [constructor|].
    eapply distinct_step; eassumption. }
  destruct (totalMass_with_distinct_ion_ids s Hd) as [Hm _].
  destruct (reachable_ledger_ok s Hr) as (_ & _ & _ & Hc & _).
  unfold totalMass, CATHODE_START_MASS, MASS_PER_UNIT in *. rewrite <- Hb. lia.
Qed.

Lemma distinct_NoDup (ids : list string) : distinct ids = true -> NoDup ids.
Proof.
  induction ids as [|i ids IH]; simpl; intros H; [constructor|].
  apply andb_true_iff in H. destruct H as [Hn Hd]. apply negb_true_iff in Hn.
  constructor; [|auto]. intros Hin. apply includes_In in Hin. congruence.
Qed.

Lemma runs_with_distinct_ids_reachable (evs : list Event) : forall (s : State),
  reachable_with_distinct_ids s -> runs_with_distinct_ids evs s = true ->
  exists s' out, run evs s = Some (s', out) /\ reachable_with_distinct_ids s'.
Proof.
  induction evs as [|ev evs IH]; intros s Hs H; simpl in *.
  - now exists s, [].
  - unfold step. destruct (handle ev s) as [[s1 out1]|] eqn:Hh; [|discriminate].
    apply andb_true_iff in H. destruct H as [H Hrest].
    apply andb_true_iff in H. destruct H as [Hi He].
    apply distinct_NoDup in Hi, He.
    pose proof (all_distinct_step s ev s1 out1 Hs Hh Hi He) as Hs1.
    destruct (IH _ Hs1 Hrest) as (s' & out & Hrun & Hs').
    destruct (pairingEffect s1) as [s2 out2]. cbn [fst] in *. rewrite Hrun.
    now exists s', ((out1 ++ out2) ++ out).
Qed.

Lemma after_distinct_ids (evs : list Event) :
  runs_with_distinct_ids evs initialState = true -> reachable_with_distinct_ids (after evs).
Proof.
  intros H.
  destruct (runs_with_distinct_ids_reachable evs initialState all_distinct_initial H)
    as (s' & out & Hrun & Hs').
  unfold after, stateAfter. now rewrite Hrun.
Qed.

(** Two clicks on the anode and both electrons handed off at the battery:
    two ions in solution, two electrons on the cathode wire, 10 grams off the
    anode. *)
Lemma ions_and_electrons_balance_witness :
  (List.length (ions (after Page.twoElectronsAtBattery)),
   List.length (electrons (after Page.twoElectronsAtBattery)),
   anodeMass (after Page.twoElectronsAtBattery)) = (2%nat, 2%nat, 40%Z)
  /\ List.length (ions (after Page.twoElectronsAtBattery))
     = List.length (electrons (after Page.twoElectronsAtBattery)).
Proof.
  split; [vm_compute; reflexivity|].
  apply (ions_and_electrons_balance (after Page.twoElectronsAtBattery)).
  apply after_distinct_ids. vm_compute. reflexivity.
Defined.
